(** * Barron AI: tic-tac-toe and Thai checkers (makhos) decision engines

    A shallow embedding of the two engines of the repository:
    - [TicTacToe]: [checkWinner], [isBoardFull], the alpha-beta [minimax]
      and the rule cascade [getBestMove] of the 3x3 game, with the game
      around them ([makeMove], [resetGame]) and the self test
      ([makeRandomMove], [runAutoTest]);
    - [Makhos]: [getCaptureMoves], [getValidMoves], [evaluateBoard], the
      depth-bounded alpha-beta [minimax], [makeMove] and [aiMove] of the
      8x8 game, with the click handler and the check for forced captures.

    JavaScript arrays are lists read with stdpp's lookup and written with
    its insert; JavaScript numbers are [Z], extended with the two
    infinities where the code starts a running extremum at [-Infinity] or
    [Infinity]. *)

From Stdlib Require Import ZArith Bool Lia ZifyBool Sorted.
From stdpp Require Import base option list.

#[local] Open Scope Z_scope.

(** ** JavaScript numbers that may be infinite *)

Inductive num : Type :=
  | NegInf : num
  | Fin : Z -> num
  | PosInf : num.

Module Num.

(** [a <= b] *)
Definition leb (a b : num) : bool :=
  match a, b with
  | NegInf, _ => true
  | _, PosInf => true
  | Fin x, Fin y => x <=? y
  | _, _ => false
  end.

(** [a > b] *)
Definition gtb (a b : num) : bool := negb (leb a b).

(** [a === b] *)
Definition eqb (a b : num) : bool :=
  match a, b with
  | NegInf, NegInf => true
  | PosInf, PosInf => true
  | Fin x, Fin y => x =? y
  | _, _ => false
  end.

(** [Math.max(a, b)] *)
Definition max (a b : num) : num := if leb a b then b else a.

(** [Math.min(a, b)] *)
Definition min (a b : num) : num := if leb a b then a else b.

(** [a + k] for a finite [k]: the infinities absorb it. *)
Definition addZ (a : num) (k : Z) : num :=
  match a with
  | Fin x => Fin (x + k)
  | inf => inf
  end.

End Num.

(** ** [Array.prototype.sort] with a comparator

    The engines sort short arrays with comparators that are total
    preorders; the sort of the language is stable, so the result is the
    one of a stable insertion sort: an element goes in front of the first
    element that the comparator does not put before it. *)

Section Sort.
Context {A : Type} (cmp : A -> A -> Z).

Fixpoint sortInsert (x : A) (l : list A) : list A :=
  match l with
  | [] => [x]
  | y :: l' => if cmp x y <=? 0 then x :: y :: l' else y :: sortInsert x l'
  end.

Definition jsSort (l : list A) : list A := foldr sortInsert [] l.
End Sort.

(** ** The two loops of an alpha-beta node, over a list of children

    [search c alpha beta] is the value the search returns for the child
    [c] in the window; the loops return the running extremum and the bound
    they moved. The nested loops of the checkers search are an instance. *)

Section AlphaBetaLoops.
Context {C : Type} (search : C -> num -> num -> num).

Fixpoint abMax (children : list C) (alpha beta maxEval : num) : num * num :=
  match children with
  | [] => (maxEval, alpha)
  | c :: rest =>
      let evaluation := search c alpha beta in
      let maxEval := Num.max maxEval evaluation in
      let alpha := Num.max alpha evaluation in
      if Num.leb beta alpha then (maxEval, alpha)
      else abMax rest alpha beta maxEval
  end.

Fixpoint abMin (children : list C) (alpha beta minEval : num) : num * num :=
  match children with
  | [] => (minEval, beta)
  | c :: rest =>
      let evaluation := search c alpha beta in
      let minEval := Num.min minEval evaluation in
      let beta := Num.min beta evaluation in
      if Num.leb beta alpha then (minEval, beta)
      else abMin rest alpha beta minEval
  end.
End AlphaBetaLoops.

(** What a search with the window [(alpha, beta)] promises about its
    [result] when the value without pruning is [exact]: at or below
    [alpha] it is an upper bound, at or above [beta] a lower bound, and
    strictly inside the window it is the value. *)
Definition bounded (alpha beta exact result : num) : Prop :=
  (Num.leb result alpha = true -> Num.leb exact result = true)
  /\ (Num.leb beta result = true -> Num.leb result exact = true)
  /\ (Num.leb result alpha = false -> Num.leb beta result = false ->
      result = exact).

(** [bounded] with its equality spelt as two comparisons. *)
Definition within (alpha beta exact result : num) : Prop :=
  (Num.leb result alpha = true -> Num.leb exact result = true)
  /\ (Num.leb beta result = true -> Num.leb result exact = true)
  /\ (Num.leb result alpha = false -> Num.leb beta result = false ->
      Num.leb result exact = true /\ Num.leb exact result = true).

(** ** Thai checkers *)

Module Makhos.

(** [type Piece = 'BP' | 'WP' | 'BK' | 'WK' | null]: a cell is
    [option Piece], [None] being [null]. *)
Inductive Piece : Type := BP | WP | BK | WK.

Inductive Side : Type := B | W.

#[global] Instance Piece_eq_dec : EqDecision Piece.
Proof. solve_decision. Defined.

#[global] Instance Side_eq_dec : EqDecision Side.
Proof. solve_decision. Defined.

(** [piece[0]] *)
Definition side (p : Piece) : Side :=
  match p with BP | BK => B | WP | WK => W end.

(** [piece[1] === 'K'] *)
Definition isKingPiece (p : Piece) : bool :=
  match p with BK | WK => true | BP | WP => false end.

Abbreviation Board := (list (option Piece)).

(** [board[i]]: a missing element ([undefined]) is as falsy as [null],
    and every read of the engine is a truthiness test or a comparison with
    a piece name, so both are [None]. *)
Definition cell (board : Board) (i : Z) : option Piece :=
  if i <? 0 then None else default None (board !! Z.to_nat i).

(** [board[i] = v]. The boards are the 64-cell arrays made by
    [Array(64).fill(null)] and their copies, and the engine writes at
    indices inside them; a write on [getIndex]'s [-1] names no cell. *)
Definition setCell (board : Board) (i : Z) (v : option Piece) : Board :=
  if i <? 0 then board else <[Z.to_nat i := v]> board.

(** [Array(64).fill(null)] with the men of both sides on the dark squares
    of their three rows. *)
Definition initRow (row : Z) : list (option Piece) :=
  map (fun col : Z =>
         if Z.rem (row + col) 2 =? 1
         then (if 5 <=? row then Some BP
               else if row <? 3 then Some WP else None)
         else None)
      [0; 1; 2; 3; 4; 5; 6; 7].

Definition initializeBoard : Board :=
  concat (map initRow [0; 1; 2; 3; 4; 5; 6; 7]).

Definition getPosition (index : Z) : Z * Z := (index / 8, Z.rem index 8).

Definition getIndex (row col : Z) : Z :=
  if (row <? 0) || (8 <=? row) || (col <? 0) || (8 <=? col)
  then -1 else row * 8 + col.

Definition isValidSquare (row col : Z) : bool := Z.rem (row + col) 2 =? 1.

Definition kingDirections : list (Z * Z) := [(-1, -1); (-1, 1); (1, -1); (1, 1)].
Definition blackDirections : list (Z * Z) := [(-1, -1); (-1, 1)].
Definition whiteDirections : list (Z * Z) := [(1, -1); (1, 1)].

(** The direction table both generators choose from. *)
Definition directionsOf (piece : Piece) : list (Z * Z) :=
  if isKingPiece piece then kingDirections
  else if decide (side piece = B) then blackDirections else whiteDirections.

(** One turn of the loop of [getCaptureMoves]: the landing square two
    steps away is pushed when it is on the board, dark and empty and the
    square in between holds a piece of the other side. *)
Definition captureInDirection (board : Board) (piece : Piece) (row col : Z)
    (d : Z * Z) : list Z :=
  let '(dr, dc) := d in
  let jumpRow := row + dr * 2 in
  let jumpCol := col + dc * 2 in
  let jumpIndex := getIndex jumpRow jumpCol in
  if negb (jumpIndex =? -1) && isValidSquare jumpRow jumpCol then
    match cell board (getIndex (row + dr) (col + dc)) with
    | Some midPiece =>
        if bool_decide (side midPiece <> side piece)
           && bool_decide (cell board jumpIndex = None)
        then [jumpIndex] else []
    | None => []
    end
  else [].

Definition getCaptureMoves (board : Board) (pieceIndex : Z) : list Z :=
  match cell board pieceIndex with
  | None => []
  | Some piece =>
      let '(row, col) := getPosition pieceIndex in
      flat_map (captureInDirection board piece row col) (directionsOf piece)
  end.

(** One turn of the step loop of [getValidMoves]. *)
Definition stepInDirection (board : Board) (row col : Z) (d : Z * Z) : list Z :=
  let '(dr, dc) := d in
  let newRow := row + dr in
  let newCol := col + dc in
  let newIndex := getIndex newRow newCol in
  if negb (newIndex =? -1) && isValidSquare newRow newCol
     && bool_decide (cell board newIndex = None)
  then [newIndex] else [].

Definition getValidMoves (board : Board) (pieceIndex : Z) (capturesOnly : bool)
    : list Z :=
  match cell board pieceIndex with
  | None => []
  | Some piece =>
      let captures := getCaptureMoves board pieceIndex in
      if capturesOnly || negb (bool_decide (captures = [])) then captures
      else
        let '(row, col) := getPosition pieceIndex in
        flat_map (stepInDirection board row col) (directionsOf piece)
  end.

(** *** Static evaluation *)

(** The squares [0 .. 63] of the loops [for (let i = 0; i < 64; i++)]. *)
Definition squares : list Z := map Z.of_nat (seq 0 64).

Definition sumZ (l : list Z) : Z := foldr Z.add 0 l.

(** A counter incremented inside a loop over the squares that skips the
    empty ones: the sum of the increments of every piece. *)
Definition sumPieces (board : Board) (f : Z -> Piece -> Z) : Z :=
  sumZ (map (fun i => match cell board i with
                      | Some piece => f i piece
                      | None => 0
                      end) squares).

Definition isWhite (piece : Piece) : bool := bool_decide (side piece = W).

(** The test of the first loop: from direction [d] an enemy stands behind
    the piece and the square in front of it is a free dark square. *)
Definition threatenedFrom (board : Board) (piece : Piece) (row col : Z)
    (d : Z * Z) : bool :=
  let '(dr, dc) := d in
  let attackerIndex := getIndex (row - dr) (col - dc) in
  if negb (attackerIndex =? -1) then
    match cell board attackerIndex with
    | Some attacker =>
        if bool_decide (side attacker <> side piece) then
          let landingIndex := getIndex (row + dr) (col + dc) in
          negb (landingIndex =? -1) && isValidSquare (row + dr) (col + dc)
          && bool_decide (cell board landingIndex = None)
        else false
    | None => false
    end
  else false.

(** [whiteThreatened++] / [blackThreatened++]: once per direction. *)
Definition threatCount (board : Board) (i : Z) (piece : Piece) : Z :=
  let '(row, col) := getPosition i in
  Z.of_nat (length (filter (fun d => threatenedFrom board piece row col d = true)
                           kingDirections)).

(** [threatenedPieces.has(i)] *)
Definition isThreatened (board : Board) (i : Z) (piece : Piece) : bool :=
  0 <? threatCount board i piece.

(** The test of the vulnerability loop for one destination of the piece
    at [i]: the attacker must not be the piece itself. *)
Definition vulnerableFrom (board : Board) (i : Z) (piece : Piece)
    (moveRow moveCol : Z) (d : Z * Z) : bool :=
  let '(dr, dc) := d in
  let attackerIndex := getIndex (moveRow - dr) (moveCol - dc) in
  if negb (attackerIndex =? -1) && negb (attackerIndex =? i) then
    match cell board attackerIndex with
    | Some attacker =>
        if bool_decide (side attacker <> side piece) then
          let landingIndex := getIndex (moveRow + dr) (moveCol + dc) in
          negb (landingIndex =? -1) && isValidSquare (moveRow + dr) (moveCol + dc)
          && bool_decide (cell board landingIndex = None)
        else false
    | None => false
    end
  else false.

(** [whiteVulnerable++] / [blackVulnerable++]: at most once per move (the
    direction loop breaks after the first hit). *)
Definition vulnerableCount (board : Board) (i : Z) (piece : Piece) : Z :=
  Z.of_nat (length (filter
    (fun moveIndex =>
       let '(moveRow, moveCol) := getPosition moveIndex in
       existsb (vulnerableFrom board i piece moveRow moveCol) kingDirections = true)
    (getValidMoves board i false))).

Definition onlyWhite (f : Z -> Piece -> Z) (i : Z) (piece : Piece) : Z :=
  if isWhite piece then f i piece else 0.
Definition onlyBlack (f : Z -> Piece -> Z) (i : Z) (piece : Piece) : Z :=
  if isWhite piece then 0 else f i piece.

Definition captureCount (board : Board) (i : Z) (piece : Piece) : Z :=
  Z.of_nat (length (getCaptureMoves board i)).

Definition whiteCanCapture board := sumPieces board (onlyWhite (captureCount board)).
Definition blackCanCapture board := sumPieces board (onlyBlack (captureCount board)).
Definition whiteThreatened board := sumPieces board (onlyWhite (threatCount board)).
Definition blackThreatened board := sumPieces board (onlyBlack (threatCount board)).
Definition whiteVulnerable board := sumPieces board (onlyWhite (vulnerableCount board)).
Definition blackVulnerable board := sumPieces board (onlyBlack (vulnerableCount board)).

(** [whitePieces], [blackPieces]: every piece of the side, man or king. *)
Definition whitePieces board := sumPieces board (onlyWhite (fun _ _ => 1)).
Definition blackPieces board := sumPieces board (onlyBlack (fun _ _ => 1)).
Definition whiteKings board :=
  sumPieces board (onlyWhite (fun _ p => if isKingPiece p then 1 else 0)).
Definition blackKings board :=
  sumPieces board (onlyBlack (fun _ p => if isKingPiece p then 1 else 0)).

(** [isProtected]: a piece of the same side on a diagonal neighbour. *)
Definition isProtected (board : Board) (piece : Piece) (row col : Z) : bool :=
  existsb (fun '(dr, dc) =>
             let protectorIndex := getIndex (row + dr) (col + dc) in
             negb (protectorIndex =? -1)
             && match cell board protectorIndex with
                | Some protector => bool_decide (side protector = side piece)
                | None => false
                end)
          kingDirections.

(** [let value = isKing ? 500 : 100] *)
Definition baseValue (piece : Piece) : Z := if isKingPiece piece then 500 else 100.

(** [Math.abs(3.5 - row) + Math.abs(3.5 - col)]: a sum of two odd halves,
    hence an integer, computed exactly on the doubled coordinates. *)
Definition centerDistance (row col : Z) : Z :=
  (Z.abs (7 - 2 * row) + Z.abs (7 - 2 * col)) / 2.

(** What the second loop adds to and takes from [value] after its first
    assignment, for the piece at [i]. *)
Definition adjustValue (board : Board) (i : Z) (piece : Piece) (value : Z) : Z :=
  let '(row, col) := getPosition i in
  let white := isWhite piece in
  let king := isKingPiece piece in
  let value := value + (14 - centerDistance row col) * (if white then 12 else 8) in
  let value :=
    if negb king then
      let value := if white && (4 <=? row) then value + (row - 3) * 50 else value in
      if negb white && (row <=? 3) then value + (4 - row) * 30 else value
    else value in
  let value := if (col =? 0) || (col =? 7) then value - 25 else value in
  let value := if (row =? 0) || (row =? 7) then value - 15 else value in
  let value :=
    if negb king then
      let value := if white && (row <=? 1) then value + 25 else value in
      if negb white && (6 <=? row) then value + 15 else value
    else value in
  let moves := getValidMoves board i false in
  let value := value + Z.of_nat (length moves) * (if white then 12 else 8) in
  let value :=
    if isThreatened board i piece then value - (if king then 200 else 80)
    else value in
  let value :=
    if isProtected board piece row col then value + (if white then 20 else 10)
    else value in
  if king && white then value + 50 else value.

(** [value] of the piece at [i] at the end of its turn of the second loop. *)
Definition pieceValue (board : Board) (i : Z) (piece : Piece) : Z :=
  adjustValue board i piece (baseValue piece).

(** [score] after the second loop: [score += isWhite ? value : -value]. *)
Definition pieceScore (board : Board) : Z :=
  sumPieces board (fun i piece =>
    if isWhite piece then pieceValue board i piece
    else - pieceValue board i piece).

Definition materialDiff board := (whitePieces board - blackPieces board) * 250.
Definition kingDiff board := (whiteKings board - blackKings board) * 400.
Definition threatDiff board := (blackThreatened board - whiteThreatened board) * 50.
Definition captureDiff board := (whiteCanCapture board - blackCanCapture board) * 100.
Definition vulnerabilityDiff board :=
  (blackVulnerable board - whiteVulnerable board) * 40.

(** The endgame loop, entered with at most eight pieces on the board. *)
Definition endgameBonus (board : Board) : Z :=
  if whitePieces board + blackPieces board <=? 8 then
    sumPieces board (fun i piece =>
      if isKingPiece piece then 0
      else
        let row := fst (getPosition i) in
        if isWhite piece && (4 <=? row) then (row - 3) * 40
        else if negb (isWhite piece) && (row <=? 3) then - ((4 - row) * 20)
        else 0)
  else 0.

Definition evaluateBoard (board : Board) : Z :=
  let score := pieceScore board in
  let score := score + (materialDiff board + kingDiff board + threatDiff board
                        + captureDiff board + vulnerabilityDiff board) in
  let score := score + endgameBonus board in
  let score := if whitePieces board =? 0 then -50000 else score in
  if blackPieces board =? 0 then 50000 else score.

(** *** Applying a move *)

(** [Math.abs(toRow - fromRow) === 2] *)
Definition isCaptureMove (from to : Z) : bool :=
  Z.abs (fst (getPosition to) - fst (getPosition from)) =? 2.

(** The part every application site shares:
    [newBoard[to] = newBoard[from]; newBoard[from] = null], and for a jump
    [newBoard[getIndex((fromRow + toRow) / 2, (fromCol + toCol) / 2)] = null].
    The halves are integers for every generated jump; with an odd column
    sum the assignment names no cell and the board keeps its cells. *)
Definition movePiece (board : Board) (from to : Z) : Board :=
  let newBoard := setCell board to (cell board from) in
  let newBoard := setCell newBoard from None in
  let '(fromRow, fromCol) := getPosition from in
  let '(toRow, toCol) := getPosition to in
  if isCaptureMove from to then
    if Z.even (fromCol + toCol) then
      setCell newBoard (getIndex ((fromRow + toRow) / 2) ((fromCol + toCol) / 2)) None
    else newBoard
  else newBoard.

(** [if (newBoard[to] === 'WP' && toRow === 7) newBoard[to] = 'WK'] *)
Definition promoteWhite (newBoard : Board) (to : Z) : Board :=
  if bool_decide (cell newBoard to = Some WP) && (fst (getPosition to) =? 7)
  then setCell newBoard to (Some WK) else newBoard.

(** [if (newBoard[to] === 'BP' && toRow === 0) newBoard[to] = 'BK'] *)
Definition promoteBlack (newBoard : Board) (to : Z) : Board :=
  if bool_decide (cell newBoard to = Some BP) && (fst (getPosition to) =? 0)
  then setCell newBoard to (Some BK) else newBoard.

(** *** Search *)

(** [board.map((p, i) => ({ piece: p, index: i }))
      .filter(({ piece }) => piece && piece[0] === side)] *)
Definition piecesOf (board : Board) (s : Side) : list (Piece * Z) :=
  omap (fun '(i, p) =>
          match p with
          | Some piece => if decide (side piece = s) then Some (piece, Z.of_nat i)
                          else None
          | None => None
          end)
       (imap (fun i p => (i, p)) board).

Definition hasCapture (board : Board) (index : Z) : bool :=
  negb (bool_decide (getCaptureMoves board index = [])).

(** [pieces.filter(({ index }) => getCaptureMoves(board, index).length > 0)] *)
Definition piecesWithCaptures (board : Board) (pieces : list (Piece * Z))
    : list (Piece * Z) :=
  filter (fun '(_, index) => hasCapture board index = true) pieces.

Definition nonEmpty {A} (l : list A) : bool :=
  match l with [] => false | _ => true end.

(** [piecesWithCaptures.length > 0 ? piecesWithCaptures : pieces] *)
Definition activePieces (board : Board) (pieces : list (Piece * Z))
    : list (Piece * Z) :=
  if nonEmpty (piecesWithCaptures board pieces)
  then piecesWithCaptures board pieces else pieces.

(** The comparator of the piece ordering: kings first. *)
Definition kingsFirst (a b : Piece * Z) : Z :=
  let aIsKing := isKingPiece (fst a) in
  let bIsKing := isKingPiece (fst b) in
  if negb (eqb aIsKing bIsKing) then (if bIsKing then 1 else -1) else 0.

(** The comparator of the move ordering: captures first, then the rows,
    descending for the maximizer and ascending for the minimizer. *)
Definition moveOrder (isMaximizing : bool) (index : Z) (a b : Z) : Z :=
  let fromRow := fst (getPosition index) in
  let aRow := fst (getPosition a) in
  let bRow := fst (getPosition b) in
  let aIsCapture := Z.abs (aRow - fromRow) =? 2 in
  let bIsCapture := Z.abs (bRow - fromRow) =? 2 in
  if negb (eqb aIsCapture bIsCapture) then (if bIsCapture then 1 else -1)
  else if isMaximizing then bRow - aRow else aRow - bRow.

(** The board a node of the search hands to its child: the maximizer
    moves white pieces and promotes white men, the minimizer black ones. *)
Definition searchBoard (isMaximizing : bool) (board : Board) (index move : Z)
    : Board :=
  let newBoard := movePiece board index move in
  if isMaximizing then promoteWhite newBoard move else promoteBlack newBoard move.

Section SearchLoops.
(** [search newBoard alpha beta] is the recursive call
    [minimax(newBoard, depth - 1, alpha, beta, !isMaximizing)]. *)
Variable search : Board -> num -> num -> num.
Variable board : Board.

(** The inner loop of the maximizer over the ordered moves of one
    piece; it returns [maxEval] and [alpha] as the loop leaves them. *)
Fixpoint maxMoves (index : Z) (orderedMoves : list Z)
    (alpha beta maxEval : num) : num * num :=
  match orderedMoves with
  | [] => (maxEval, alpha)
  | move :: rest =>
      let newBoard := searchBoard true board index move in
      let evaluation := search newBoard alpha beta in
      let maxEval := Num.max maxEval evaluation in
      let alpha := Num.max alpha evaluation in
      if Num.leb beta alpha then (maxEval, alpha)
      else maxMoves index rest alpha beta maxEval
  end.

(** The outer loop of the maximizer over the ordered pieces. *)
Fixpoint maxPieces (capturesOnly : bool) (orderedPieces : list (Piece * Z))
    (alpha beta maxEval : num) : num :=
  match orderedPieces with
  | [] => maxEval
  | (_, index) :: rest =>
      let moves := getValidMoves board index capturesOnly in
      let orderedMoves := jsSort (moveOrder true index) moves in
      let '(maxEval, alpha) := maxMoves index orderedMoves alpha beta maxEval in
      if Num.leb beta alpha then maxEval
      else maxPieces capturesOnly rest alpha beta maxEval
  end.

Fixpoint minMoves (index : Z) (orderedMoves : list Z)
    (alpha beta minEval : num) : num * num :=
  match orderedMoves with
  | [] => (minEval, beta)
  | move :: rest =>
      let newBoard := searchBoard false board index move in
      let evaluation := search newBoard alpha beta in
      let minEval := Num.min minEval evaluation in
      let beta := Num.min beta evaluation in
      if Num.leb beta alpha then (minEval, beta)
      else minMoves index rest alpha beta minEval
  end.

Fixpoint minPieces (capturesOnly : bool) (orderedPieces : list (Piece * Z))
    (alpha beta minEval : num) : num :=
  match orderedPieces with
  | [] => minEval
  | (_, index) :: rest =>
      let moves := getValidMoves board index capturesOnly in
      let orderedMoves := jsSort (moveOrder false index) moves in
      let '(minEval, beta) := minMoves index orderedMoves alpha beta minEval in
      if Num.leb beta alpha then minEval
      else minPieces capturesOnly rest alpha beta minEval
  end.
End SearchLoops.

(** [minimax(board, depth, alpha, beta, isMaximizing)]; [depth] counts
    down to the static evaluation, so it is a natural number. *)
Fixpoint minimax (board : Board) (depth : nat) (alpha beta : num)
    (isMaximizing : bool) {struct depth} : num :=
  match depth with
  | O => Fin (evaluateBoard board)
  | S depth' =>
      let pieces := piecesOf board (if isMaximizing then W else B) in
      if negb (nonEmpty pieces)
      then (if isMaximizing then Fin (-100000) else Fin 100000)
      else
        let forced := nonEmpty (piecesWithCaptures board pieces) in
        let orderedPieces := jsSort kingsFirst (activePieces board pieces) in
        if isMaximizing then
          maxPieces (fun newBoard a b => minimax newBoard depth' a b false)
                    board forced orderedPieces alpha beta NegInf
        else
          minPieces (fun newBoard a b => minimax newBoard depth' a b true)
                    board forced orderedPieces alpha beta PosInf
  end.

(** The moves a node of the search (and the selector) enumerates for a
    side, as pairs of origin and destination: every active piece with
    [getValidMoves(board, index, piecesWithCaptures.length > 0)]. *)
Definition legalMoves (board : Board) (s : Side) : list (Z * Z) :=
  let pieces := piecesOf board s in
  let forced := nonEmpty (piecesWithCaptures board pieces) in
  flat_map (fun '(_, index) =>
              map (fun move => (index, move)) (getValidMoves board index forced))
           (activePieces board pieces).

(** *** The game state and the two movers *)

Inductive Status : Type := playing | playerWin | aiWin.

(** The component state the movers read and write, and [scheduled], the
    board of the pending [setTimeout(() => aiMove(newBoard), ...)]. *)
Record State : Type := mkState {
  stBoard : Board;
  stIsPlayerTurn : bool;
  stGameStatus : Status;
  stSelectedPiece : option Z;
  stValidMoves : list Z;
  stPlayerScore : Z;
  stAiScore : Z;
  stIsThinking : bool;
  stMustCaptureFrom : list Z;
  scheduled : option Board
}.

(** [newBoard.filter(p => p && p[0] === side).length] *)
Definition countSide (board : Board) (s : Side) : Z :=
  Z.of_nat (length (piecesOf board s)).

(** The promotion of [makeMove]: a black man on row 0, else a white man
    on row 7. *)
Definition promoteLanded (newBoard : Board) (to : Z) : Board :=
  let toRow := fst (getPosition to) in
  if bool_decide (cell newBoard to = Some BP) && (toRow =? 0)
  then setCell newBoard to (Some BK)
  else if bool_decide (cell newBoard to = Some WP) && (toRow =? 7)
  then setCell newBoard to (Some WK)
  else newBoard.

(** The player's move: [makeMove(from, to)]. *)
Definition makeMove (st : State) (from to : Z) : State :=
  let newBoard := movePiece (stBoard st) from to in
  let wasCapture := isCaptureMove from to in
  let newBoard := promoteLanded newBoard to in
  let additionalCaptures := getCaptureMoves newBoard to in
  if wasCapture && nonEmpty additionalCaptures then
    mkState newBoard (stIsPlayerTurn st) (stGameStatus st) (Some to)
            additionalCaptures (stPlayerScore st) (stAiScore st)
            (stIsThinking st) [to] (scheduled st)
  else if countSide newBoard W =? 0 then
    mkState newBoard (stIsPlayerTurn st) playerWin (stSelectedPiece st)
            (stValidMoves st) (stPlayerScore st + 1) (stAiScore st)
            (stIsThinking st) [] (scheduled st)
  else if countSide newBoard B =? 0 then
    mkState newBoard (stIsPlayerTurn st) aiWin (stSelectedPiece st)
            (stValidMoves st) (stPlayerScore st) (stAiScore st + 1)
            (stIsThinking st) [] (scheduled st)
  else
    mkState newBoard false (stGameStatus st) (stSelectedPiece st)
            (stValidMoves st) (stPlayerScore st) (stAiScore st)
            true [] (Some newBoard).

(** The squares of the pieces of a side that can capture, by the loop
    over the 64 squares. *)
Definition canCaptureAt (board : Board) (s : Side) (i : Z) : bool :=
  match cell board i with
  | Some piece => bool_decide (side piece = s) && hasCapture board i
  | None => false
  end.

Definition capturingSquares (board : Board) (s : Side) : list Z :=
  filter (fun i => canCaptureAt board s i = true) squares.

(** [aiPieces], by index. *)
Definition aiPieces (currentBoard : Board) : list Z :=
  let aiPiecesWithCaptures := capturingSquares currentBoard W in
  if nonEmpty aiPiecesWithCaptures then aiPiecesWithCaptures
  else map snd (piecesOf currentBoard W).

(** [newBoard.filter(p => p !== null).length] *)
Definition totalPieces (newBoard : Board) : Z :=
  Z.of_nat (length (filter (fun p : option Piece => p <> None) newBoard)).

Definition searchDepth (newBoard : Board) (isCapture : bool) : nat :=
  let depth := if totalPieces newBoard <=? 8 then 10%nat
               else if totalPieces newBoard <=? 12 then 9%nat else 8%nat in
  if isCapture then S depth else depth.

(** What the scan of [aiMove] keeps between two candidates. *)
Record Best : Type := mkBest {
  bestMove : option (Z * Z);
  bestScore : num;
  wasCaptureBest : bool;
  wasBestPromotion : bool
}.

(** One candidate of the scan: the move is applied to a copy, searched,
    and kept when it beats the best so far. *)
Definition considerMove (currentBoard : Board) (index : Z) (best : Best)
    (move : Z) : Best :=
  let newBoard := movePiece currentBoard index move in
  let isCapture := isCaptureMove index move in
  let newBoard := promoteWhite newBoard move in
  let score := minimax newBoard (searchDepth newBoard isCapture) NegInf PosInf false in
  let finalScore := if isCapture then Num.addZ score 1500 else score in
  let promotion := bool_decide (cell newBoard move = Some WK)
                   && bool_decide (cell currentBoard index = Some WP) in
  if Num.gtb finalScore (bestScore best)
     || (Num.eqb finalScore (bestScore best) && isCapture
         && negb (wasCaptureBest best))
     || (Num.eqb finalScore (bestScore best) && promotion
         && negb (wasBestPromotion best))
  then mkBest (Some (index, move)) finalScore isCapture promotion
  else best.

(** The scan over the pieces and their moves. *)
Definition scanPiece (currentBoard : Board) (forced : bool) (best : Best)
    (index : Z) : Best :=
  foldl (considerMove currentBoard index) best
        (getValidMoves currentBoard index forced).

Definition chooseMove (currentBoard : Board) : Best :=
  let forced := nonEmpty (capturingSquares currentBoard W) in
  foldl (scanPiece currentBoard forced) (mkBest None NegInf false false)
        (aiPieces currentBoard).

(** [hasAnyMoves] of the player after the engine's move. *)
Definition hasAnyMoves (newBoard : Board) (s : Side) : bool :=
  existsb (fun i => match cell newBoard i with
                    | Some piece =>
                        bool_decide (side piece = s)
                        && nonEmpty (getValidMoves newBoard i false)
                    | None => false
                    end) squares.

(** The engine's move: [aiMove(currentBoard)]. *)
Definition aiMove (st : State) (currentBoard : Board) : State :=
  match bestMove (chooseMove currentBoard) with
  | None =>
      mkState (stBoard st) true (stGameStatus st) (stSelectedPiece st)
              (stValidMoves st) (stPlayerScore st) (stAiScore st) false
              (stMustCaptureFrom st) None
  | Some (from, to) =>
      let newBoard := movePiece currentBoard from to in
      let wasCapture := isCaptureMove from to in
      let newBoard := promoteWhite newBoard to in
      let additionalCaptures := getCaptureMoves newBoard to in
      if wasCapture && nonEmpty additionalCaptures then
        mkState newBoard (stIsPlayerTurn st) (stGameStatus st)
                (stSelectedPiece st) (stValidMoves st) (stPlayerScore st)
                (stAiScore st) (stIsThinking st) (stMustCaptureFrom st)
                (Some newBoard)
      else
        let blackCount := countSide newBoard B in
        let whiteCount := countSide newBoard W in
        let status := if blackCount =? 0 then aiWin
                      else if whiteCount =? 0 then playerWin
                      else stGameStatus st in
        let aiScore := if blackCount =? 0 then stAiScore st + 1 else stAiScore st in
        let playerScore := if negb (blackCount =? 0) && (whiteCount =? 0)
                           then stPlayerScore st + 1 else stPlayerScore st in
        let playerPiecesWithCaptures := capturingSquares newBoard B in
        if negb (nonEmpty playerPiecesWithCaptures)
           && negb (hasAnyMoves newBoard B)
        then
          mkState newBoard true aiWin (stSelectedPiece st) (stValidMoves st)
                  playerScore (aiScore + 1) false playerPiecesWithCaptures None
        else
          mkState newBoard true status (stSelectedPiece st) (stValidMoves st)
                  playerScore aiScore false playerPiecesWithCaptures None
  end.

(** *** The search without pruning *)

(** The boards a node hands to its children, in the order of its two
    loops. *)
Definition searchChildren (isMaximizing : bool) (board : Board) (forced : bool)
    (orderedPieces : list (Piece * Z)) : list Board :=
  flat_map (fun '(_, index) =>
              map (searchBoard isMaximizing board index)
                  (jsSort (moveOrder isMaximizing index)
                          (getValidMoves board index forced)))
           orderedPieces.

(** Minimax over the same tree, with the same ordering and the same leaf
    scores, and no window: every child is searched. *)
Fixpoint minimax_unpruned (board : Board) (depth : nat) (isMaximizing : bool)
    {struct depth} : num :=
  match depth with
  | O => Fin (evaluateBoard board)
  | S depth' =>
      let pieces := piecesOf board (if isMaximizing then W else B) in
      if negb (nonEmpty pieces)
      then (if isMaximizing then Fin (-100000) else Fin 100000)
      else
        let forced := nonEmpty (piecesWithCaptures board pieces) in
        let orderedPieces := jsSort kingsFirst (activePieces board pieces) in
        let children := searchChildren isMaximizing board forced orderedPieces in
        if isMaximizing then
          foldl Num.max NegInf
                (map (fun child => minimax_unpruned child depth' false) children)
        else
          foldl Num.min PosInf
                (map (fun child => minimax_unpruned child depth' true) children)
  end.

(** *** Boards for examples *)

(** [Array(64).fill(null)] *)
Definition emptyBoard : Board := replicate 64 None.

(** The empty board with the listed pieces put on their squares. *)
Definition boardOf (pieces : list (Z * Piece)) : Board :=
  foldl (fun board '(i, piece) => setCell board i (Some piece)) emptyBoard pieces.

(** The white man on 21 jumps over 30 to 39 and could jump on over 46 to
    53; its leaving 21 lets the man on 7 take the man on 14. The black
    men on 14 and 46 are shut in. *)
Definition chainBoard : Board :=
  boardOf [(5, WP); (7, WP); (21, WP); (23, WP); (28, WP); (37, WP);
           (55, WP); (14, BP); (30, BP); (46, BP)].

(** A position of an actual game. White has the one move 7 -> 14 (the
    man on 8 is shut in), and Black answers it by taking the man with the
    king, 23 -> 5. *)
Definition stuckBoard : Board :=
  boardOf [(7, WP); (8, WP); (17, BK); (23, BK); (26, BP); (35, BP);
           (46, BP); (49, BP); (55, BP); (58, BP); (60, BP); (62, BP)].

(** The component state at the start of a game, on a given board. *)
Definition stateOf (board : Board) : State :=
  mkState board true playing None [] 0 0 false [] None.

(** *** Games

    A position of a game: the board, the side to move, and the piece that
    has to go on jumping when the last jump left it a further capture. *)
Record Position : Type := mkPosition {
  posBoard : Board;
  toMove : Side;
  jumper : option Z
}.

Definition opponent (s : Side) : Side := match s with B => W | W => B end.

(** The moves open in a position: the captures of the jumping piece, or
    else the legal moves of the side. *)
Definition plyMoves (p : Position) : list (Z * Z) :=
  match jumper p with
  | Some index => map (fun move => (index, move)) (getCaptureMoves (posBoard p) index)
  | None => legalMoves (posBoard p) (toMove p)
  end.

(** One ply, as both movers apply it: the piece is moved, a jumped piece
    removed, a man on its farthest row crowned, and the side keeps the
    move when the piece has a further capture from its landing square. *)
Definition playPly (p : Position) (m : Z * Z) : option Position :=
  let '(from, to) := m in
  if bool_decide (m ∈ plyMoves p) then
    let newBoard := promoteLanded (movePiece (posBoard p) from to) to in
    if isCaptureMove from to && nonEmpty (getCaptureMoves newBoard to)
    then Some (mkPosition newBoard (toMove p) (Some to))
    else Some (mkPosition newBoard (opponent (toMove p)) None)
  else None.

Fixpoint playGame (p : Position) (moves : list (Z * Z)) : option Position :=
  match moves with
  | [] => Some p
  | m :: rest =>
      match playPly p m with
      | Some p' => playGame p' rest
      | None => None
      end
  end.

(** A board with a side to move is reachable when some game played from
    the initial board, by either side first, arrives at it. *)
Definition reachable (board : Board) (s : Side) : Prop :=
  exists first moves,
    playGame (mkPosition initializeBoard first None) moves
    = Some (mkPosition board s None).

(** A game of 29 plies, White first. *)
Definition stuckGame : list (Z * Z) :=
  [(19, 28); (40, 33); (10, 19); (49, 40); (19, 26); (33, 19); (12, 26);
   (56, 49); (21, 30); (42, 33); (30, 37); (44, 30); (23, 37); (33, 19);
   (5, 12); (19, 5); (5, 23); (37, 44); (53, 35); (35, 21); (1, 10);
   (51, 42); (17, 24); (42, 35); (24, 33); (40, 26); (3, 12); (21, 3);
   (3, 17)].

(** *** Notions the properties speak about *)

(** The farthest row from its start: row 0 for a black man, row 7 for a
    white one; and the king a man becomes there. *)
Definition farthestRow (man : Piece) : Z := if decide (side man = B) then 0 else 7.
Definition crown (man : Piece) : Piece := if decide (side man = B) then BK else WK.

(** The men and the kings of a side, counted over the 64 squares. *)
Definition menCount (board : Board) (s : Side) : Z :=
  sumPieces board (fun _ piece =>
    if bool_decide (side piece = s) && negb (isKingPiece piece) then 1 else 0).
Definition kingCount (board : Board) (s : Side) : Z :=
  sumPieces board (fun _ piece =>
    if bool_decide (side piece = s) && isKingPiece piece then 1 else 0).

(** The evaluator with the global material term as the specification
    words it, on the men of each side:
    [(menCount_white - menCount_black) * 250]. *)
Definition materialDiff_claimed (board : Board) : Z :=
  (menCount board W - menCount board B) * 250.

Definition evaluateBoard_claimed (board : Board) : Z :=
  let score := pieceScore board in
  let score := score + (materialDiff_claimed board + kingDiff board
                        + threatDiff board + captureDiff board
                        + vulnerabilityDiff board) in
  let score := score + endgameBonus board in
  let score := if whitePieces board =? 0 then -50000 else score in
  if blackPieces board =? 0 then 50000 else score.

(** *** Invariants the properties speak about *)

(** Pieces occupy only dark squares, those with [(row + col) mod 2 = 1]. *)
Definition darkOnly (board : Board) : Prop :=
  forall i piece, cell board i = Some piece -> (i / 8 + i mod 8) mod 2 = 1.

(** The same, as a test over the cells of the array. *)
Definition darkOnlyb (board : Board) : bool :=
  forallb (fun i => match cell board i with
                    | Some _ => (i / 8 + i mod 8) mod 2 =? 1
                    | None => true
                    end)
          (map Z.of_nat (seq 0 (length board))).

(** What a destination pushed by either generator satisfies. *)
Definition landing (board : Board) (row col : Z) (d : Z) : Prop :=
  0 <= row < 8 /\ 0 <= col < 8 /\ d = row * 8 + col
  /\ isValidSquare row col = true /\ cell board d = None.

(** *** Counting the pieces of a side *)

(** One for a piece of the side, nothing for another piece or an empty
    square. *)
Definition belongs (s : Side) (p : option Piece) : nat :=
  match p with
  | Some piece => if decide (side piece = s) then 1%nat else 0%nat
  | None => 0%nat
  end.

(** *** The player's clicks and the check that follows a change *)

#[global] Instance Status_eq_dec : EqDecision Status.
Proof. solve_decision. Defined.

(** [piece && piece[0] === 'B'] for [piece = board[index]] *)
Definition isBlackAt (board : Board) (index : Z) : bool :=
  match cell board index with
  | Some piece => bool_decide (side piece = B)
  | None => false
  end.

(** [setSelectedPiece(selected); setValidMoves(moves)] *)
Definition withSelection (st : State) (selected : option Z) (moves : list Z)
    : State :=
  mkState (stBoard st) (stIsPlayerTurn st) (stGameStatus st) selected moves
          (stPlayerScore st) (stAiScore st) (stIsThinking st)
          (stMustCaptureFrom st) (scheduled st).

(** [handleSquareClick(index)]. The two setters that follow the call of
    [makeMove] are applied after those of [makeMove], so the selection
    ends up empty also when [makeMove] selected the piece for a further
    jump. *)
Definition handleSquareClick (st : State) (index : Z) : State :=
  if negb (bool_decide (stGameStatus st = playing))
     || negb (stIsPlayerTurn st) || stIsThinking st
  then st
  else if isBlackAt (stBoard st) index
          && bool_decide (stSelectedPiece st = None) then
    if nonEmpty (stMustCaptureFrom st)
       && negb (bool_decide (index ∈ stMustCaptureFrom st))
    then st
    else withSelection st (Some index)
           (getValidMoves (stBoard st) index (nonEmpty (stMustCaptureFrom st)))
  else
    match stSelectedPiece st with
    | Some selectedPiece =>
        if bool_decide (index ∈ stValidMoves st)
        then withSelection (makeMove st selectedPiece index) None []
        else withSelection st None []
    | None => withSelection st None []
    end.

(** The inner loop of the effect: a black piece on [i] has a free
    square next to it in one of its directions. *)
Definition canStep (board : Board) (i : Z) : bool :=
  match cell board i with
  | Some piece =>
      bool_decide (side piece = B)
      && let '(row, col) := getPosition i in
         existsb (fun d => nonEmpty (stepInDirection board row col d))
                 (if isKingPiece piece then kingDirections else blackDirections)
  | None => false
  end.

(** The effect on [board], [gameStatus], [isPlayerTurn] and
    [isThinking]: when the player is to move, the pieces that must
    capture are listed, and a player without any move has lost. *)
Definition checkForcedCaptures (st : State) : State :=
  if bool_decide (stGameStatus st = playing) && stIsPlayerTurn st
     && negb (stIsThinking st) then
    let playerPiecesWithCaptures := capturingSquares (stBoard st) B in
    if negb (nonEmpty playerPiecesWithCaptures)
       && negb (existsb (canStep (stBoard st)) squares)
    then
      mkState (stBoard st) (stIsPlayerTurn st) aiWin (stSelectedPiece st)
              (stValidMoves st) (stPlayerScore st) (stAiScore st + 1)
              (stIsThinking st) playerPiecesWithCaptures (scheduled st)
    else
      mkState (stBoard st) (stIsPlayerTurn st) (stGameStatus st)
              (stSelectedPiece st) (stValidMoves st) (stPlayerScore st)
              (stAiScore st) (stIsThinking st) playerPiecesWithCaptures
              (scheduled st)
  else st.

(** The selection is one the click handler made on this board: a black
    piece, one that must capture when some piece must, with the moves
    [getValidMoves] gave for it. *)
Definition selectionCoherent (st : State) : Prop :=
  match stSelectedPiece st with
  | Some selected =>
      isBlackAt (stBoard st) selected = true
      /\ (stMustCaptureFrom st <> [] -> selected ∈ stMustCaptureFrom st)
      /\ stValidMoves st
         = getValidMoves (stBoard st) selected (nonEmpty (stMustCaptureFrom st))
  | None => True
  end.

End Makhos.

(** ** Tic-tac-toe *)

Module TicTacToe.

(** [type Player = 'X' | 'O' | null]: a cell is [option Player]. *)
Inductive Player : Type := X | O.

#[global] Instance Player_eq_dec : EqDecision Player.
Proof. solve_decision. Defined.

Abbreviation Board := (list (option Player)).

(** [board[i]] on the nine-cell array. *)
Definition cell (board : Board) (i : Z) : option Player :=
  if i <? 0 then None else default None (board !! Z.to_nat i).

(** [board[i] = v]: the engine writes into the caller's array, made by
    [Array(9).fill(null)], at indices inside it. *)
Definition setCell (board : Board) (i : Z) (v : option Player) : Board :=
  if i <? 0 then board else <[Z.to_nat i := v]> board.

Definition isNull (board : Board) (i : Z) : bool :=
  bool_decide (cell board i = None).

Definition nonEmptyList {A} (l : list A) : bool :=
  match l with [] => false | _ => true end.

Definition WINNING_COMBINATIONS : list (Z * Z * Z) :=
  [(0, 1, 2); (3, 4, 5); (6, 7, 8);
   (0, 3, 6); (1, 4, 7); (2, 5, 8);
   (0, 4, 8); (2, 4, 6)].

(** The indices of the loops [for (let i = 0; i < 9; i++)]. *)
Definition cells : list Z := [0; 1; 2; 3; 4; 5; 6; 7; 8].

(** [board[a] && board[a] === board[b] && board[a] === board[c]] *)
Definition lineOwner (board : Board) (combo : Z * Z * Z) : option Player :=
  let '(a, b, c) := combo in
  match cell board a with
  | Some p =>
      if bool_decide (cell board a = cell board b)
         && bool_decide (cell board a = cell board c)
      then Some p else None
  | None => None
  end.

(** The first completed triple in the order of the table decides. *)
Fixpoint firstOwner (board : Board) (combos : list (Z * Z * Z)) : option Player :=
  match combos with
  | [] => None
  | combo :: rest =>
      match lineOwner board combo with
      | Some p => Some p
      | None => firstOwner board rest
      end
  end.

Definition checkWinner (board : Board) : option Player :=
  firstOwner board WINNING_COMBINATIONS.

(** [board.every(cell => cell !== null)] *)
Definition isBoardFull (board : Board) : bool :=
  forallb (fun c : option Player => negb (bool_decide (c = None))) board.

(** [[board[a], board[b], board[c]].filter(cell => cell === v).length] *)
Definition countIn (board : Board) (combo : Z * Z * Z) (v : option Player) : Z :=
  let '(a, b, c) := combo in
  Z.of_nat (length (filter (fun x => x = v) [cell board a; cell board b; cell board c])).

(** A line the maximizer threatens: two O, one empty cell, no X. *)
Definition isWinningLine (board : Board) (combo : Z * Z * Z) : bool :=
  (countIn board combo (Some O) =? 2) && (countIn board combo None =? 1)
  && (countIn board combo (Some X) =? 0).

Definition winningLines (board : Board) : Z :=
  Z.of_nat (length (filter (fun combo => isWinningLine board combo = true)
                           WINNING_COMBINATIONS)).

(** *** The alpha-beta search *)

(** [[0, 2, 6, 8].includes(i) ? 3 : (i === 4 ? 5 : 1)] *)
Definition priority (i : Z) : Z :=
  if bool_decide (i ∈ [0; 2; 6; 8]) then 3 else if i =? 4 then 5 else 1.

(** The [moves] array of the maximizer after its sort by descending
    priority. *)
Definition orderedMoves (board : Board) : list (Z * Z) :=
  jsSort (fun a b : Z * Z => snd b - snd a)
         (map (fun i => (i, priority i)) (filter (fun i => isNull board i = true) cells)).

Section SearchLoops.
(** [search board depth alpha beta] is the recursive call with the
    other role; it hands the array back with its result. *)
Variable search : Board -> Z -> num -> num -> option (num * Board).

Fixpoint maxLoop (moves : list (Z * Z)) (board : Board) (depth : Z)
    (alpha beta maxEval : num) : option (num * Board) :=
  match moves with
  | [] => Some (maxEval, board)
  | (i, _) :: rest =>
      let board := setCell board i (Some O) in
      let forkBonus := if 2 <=? winningLines board then 5000 else 0 in
      match search board (depth + 1) alpha beta with
      | None => None
      | Some (result, board) =>
          let evaluation := Num.addZ result forkBonus in
          let board := setCell board i None in
          let maxEval := Num.max maxEval evaluation in
          let alpha := Num.max alpha evaluation in
          if Num.leb beta alpha then Some (maxEval, board)
          else maxLoop rest board depth alpha beta maxEval
      end
  end.

Fixpoint minLoop (indices : list Z) (board : Board) (depth : Z)
    (alpha beta minEval : num) : option (num * Board) :=
  match indices with
  | [] => Some (minEval, board)
  | i :: rest =>
      if isNull board i then
        let board := setCell board i (Some X) in
        match search board (depth + 1) alpha beta with
        | None => None
        | Some (evaluation, board) =>
            let board := setCell board i None in
            let minEval := Num.min minEval evaluation in
            let beta := Num.min beta evaluation in
            if Num.leb beta alpha then Some (minEval, board)
            else minLoop rest board depth alpha beta minEval
        end
      else minLoop rest board depth alpha beta minEval
  end.
End SearchLoops.

(** [minimax(board, depth, isMaximizing, alpha, beta)]. The recursion
    follows the empty cells, at most nine deep; [fuel] bounds it and
    [None] means that the bound was too small. The result carries the
    array as the call leaves it. *)
Fixpoint minimax (fuel : nat) (board : Board) (depth : Z) (isMaximizing : bool)
    (alpha beta : num) {struct fuel} : option (num * Board) :=
  match checkWinner board with
  | Some O => Some (Fin (10000 - depth), board)
  | Some X => Some (Fin (depth - 10000), board)
  | None =>
      if isBoardFull board then Some (Fin (-100 - depth), board)
      else
        match fuel with
        | 0%nat => None
        | S fuel' =>
            if isMaximizing then
              maxLoop (fun b d a bt => minimax fuel' b d false a bt)
                      (orderedMoves board) board depth alpha beta NegInf
            else
              minLoop (fun b d a bt => minimax fuel' b d true a bt)
                      cells board depth alpha beta PosInf
        end
  end.

(** *** The decision cascade

    Every step works on the caller's array: it writes a mark, looks, and
    writes [null] back; each function returns the array as it leaves it. *)

(** STEP 1: the first empty cell that completes a line of O. *)
Fixpoint findWin (indices : list Z) (board : Board) : option Z * Board :=
  match indices with
  | [] => (None, board)
  | i :: rest =>
      if isNull board i then
        let board := setCell board i (Some O) in
        if bool_decide (checkWinner board = Some O)
        then (Some i, setCell board i None)
        else findWin rest (setCell board i None)
      else findWin rest board
  end.

(** STEP 2: [blockingMoves], the empty cells where X would win. *)
Fixpoint findBlocks (indices : list Z) (board : Board) (blockingMoves : list Z)
    : list Z * Board :=
  match indices with
  | [] => (blockingMoves, board)
  | i :: rest =>
      if isNull board i then
        let board := setCell board i (Some X) in
        let blockingMoves :=
          if bool_decide (checkWinner board = Some X)
          then blockingMoves ++ [i] else blockingMoves in
        findBlocks rest (setCell board i None) blockingMoves
      else findBlocks rest board blockingMoves
  end.

(** STEP 3: [forkQuality], 2 for a threatened line through a corner,
    1 for another one. *)
Definition lineQuality (combo : Z * Z * Z) : Z :=
  let '(a, b, c) := combo in
  if existsb (fun corner : Z => bool_decide (corner ∈ [a; b; c])) [0; 2; 6; 8]
  then 2 else 1.

Definition forkQuality (board : Board) : Z :=
  foldr Z.add 0
        (map lineQuality
             (filter (fun combo => isWinningLine board combo = true)
                     WINNING_COMBINATIONS)).

Fixpoint findFork (indices : list Z) (board : Board)
    (bestForkMove bestForkScore : Z) : (Z * Z) * Board :=
  match indices with
  | [] => ((bestForkMove, bestForkScore), board)
  | i :: rest =>
      if isNull board i then
        let board := setCell board i (Some O) in
        let forkScore := winningLines board * 1000 + forkQuality board * 500 in
        let better := (2 <=? winningLines board) && (bestForkScore <? forkScore) in
        let bestForkMove := if better then i else bestForkMove in
        let bestForkScore := if better then forkScore else bestForkScore in
        findFork rest (setCell board i None) bestForkMove bestForkScore
      else findFork rest board bestForkMove bestForkScore
  end.

(** STEP 4, special case: the player holds two corners, and they are
    opposite; the answer is the first free side, if there is one. *)
Definition playerCorners (board : Board) : list Z :=
  filter (fun i => cell board i = Some X) [0; 2; 6; 8].

Definition oppositeCornerSide (board : Board) : option Z :=
  match playerCorners board with
  | [c1; c2] =>
      if ((c1 =? 0) && (c2 =? 8)) || ((c1 =? 8) && (c2 =? 0))
         || ((c1 =? 2) && (c2 =? 6)) || ((c1 =? 6) && (c2 =? 2))
      then head (filter (fun pos => isNull board pos = true) [1; 3; 5; 7])
      else None
  | _ => None
  end.

(** STEP 4, the two-ply lookahead. [countThreats] counts the cells where
    X would win; [playerReplies] takes the maximum over the replies of
    X; [classifyMoves] sorts the moves of O into safe and dangerous. *)
Fixpoint countThreats (positions : list Z) (board : Board) (playerThreats : Z)
    : Z * Board :=
  match positions with
  | [] => (playerThreats, board)
  | checkPos :: rest =>
      if isNull board checkPos then
        let board := setCell board checkPos (Some X) in
        let playerThreats :=
          if bool_decide (checkWinner board = Some X)
          then playerThreats + 1 else playerThreats in
        countThreats rest (setCell board checkPos None) playerThreats
      else countThreats rest board playerThreats
  end.

Fixpoint playerReplies (positions : list Z) (board : Board)
    (maxPlayerThreats : Z) : Z * Board :=
  match positions with
  | [] => (maxPlayerThreats, board)
  | playerMove :: rest =>
      if isNull board playerMove then
        let board := setCell board playerMove (Some X) in
        let '(playerThreats, board) := countThreats cells board 0 in
        let maxPlayerThreats := Z.max maxPlayerThreats playerThreats in
        playerReplies rest (setCell board playerMove None) maxPlayerThreats
      else playerReplies rest board maxPlayerThreats
  end.

Fixpoint classifyMoves (positions : list Z) (board : Board)
    (safeMoves : list Z) (dangerousMoves : list (Z * Z))
    : (list Z * list (Z * Z)) * Board :=
  match positions with
  | [] => ((safeMoves, dangerousMoves), board)
  | aiMove :: rest =>
      if isNull board aiMove then
        let board := setCell board aiMove (Some O) in
        let '(maxPlayerThreats, board) := playerReplies cells board 0 in
        let board := setCell board aiMove None in
        if 2 <=? maxPlayerThreats
        then classifyMoves rest board safeMoves
                           (dangerousMoves ++ [(aiMove, maxPlayerThreats)])
        else classifyMoves rest board (safeMoves ++ [aiMove]) dangerousMoves
      else classifyMoves rest board safeMoves dangerousMoves
  end.

(** [a || b] on a position or [undefined]: position 0 is falsy. *)
Definition orElse (a b : option Z) : option Z :=
  match a with
  | Some v => if v =? 0 then b else a
  | None => b
  end.

(** [safeMoves.find(corner) || safeMoves.find(pos => pos === 4) || safeMoves[0]] *)
Definition preferredSafe (safeMoves : list Z) : option Z :=
  orElse (List.find (fun pos : Z => bool_decide (pos ∈ [0; 2; 6; 8])) safeMoves)
         (orElse (List.find (fun pos => pos =? 4) safeMoves) (head safeMoves)).

(** STEP 6: the corner opposite to a corner of X. *)
Definition adjacentPositions (corner : Z) : list Z :=
  if corner =? 0 then [1; 3]
  else if corner =? 2 then [1; 5]
  else if corner =? 6 then [3; 7] else [5; 7].

Definition countNull (board : Board) (positions : list Z) : Z :=
  Z.of_nat (length (filter (fun pos => isNull board pos = true) positions)).

Definition considerOpposite (board : Board) (held free : Z) (best : Z * Z)
    : Z * Z :=
  let '(bestCornerMove, bestCornerValue) := best in
  if bool_decide (cell board held = Some X) && isNull board free then
    let cornerValue := 10 + 2 * countNull board (adjacentPositions free) in
    if bestCornerValue <? cornerValue then (free, cornerValue) else best
  else best.

Definition oppositeCorner (board : Board) : Z * Z :=
  foldl (fun best '(corner1, corner2) =>
           considerOpposite board corner2 corner1
             (considerOpposite board corner1 corner2 best))
        (-1, 0) [(0, 8); (2, 6)].

(** STEP 7 and STEP 8: the best free corner, then the best free side. *)
Definition includes (combo : Z * Z * Z) (i : Z) : bool :=
  let '(a, b, c) := combo in bool_decide (i ∈ [a; b; c]).

Definition linesThrough (i : Z) : list (Z * Z * Z) :=
  filter (fun combo => includes combo i = true) WINNING_COMBINATIONS.

Definition cornerLineBonus (board : Board) (line : Z * Z * Z) : Z :=
  let oCount := countIn board line (Some O) in
  let xCount := countIn board line (Some X) in
  (if (oCount =? 0) && (xCount =? 0) then 3 else 0)
  + (if (oCount =? 1) && (xCount =? 0) then 5 else 0).

Definition cornerScore (board : Board) (corner : Z) : Z :=
  5 + foldr Z.add 0 (map (cornerLineBonus board) (linesThrough corner))
  + countNull board (adjacentPositions corner).

Definition sideLineBonus (board : Board) (line : Z * Z * Z) : Z :=
  let oCount := countIn board line (Some O) in
  let xCount := countIn board line (Some X) in
  (if (oCount =? 1) && (xCount =? 0) then 2 else 0)
  + (if (oCount =? 0) && (xCount =? 0) then 1 else 0).

Definition sideScore (board : Board) (pos : Z) : Z :=
  1 + foldr Z.add 0 (map (sideLineBonus board) (linesThrough pos)).

(** The scan shared by both steps: the free position with the strictly
    best score, [-1] when no position is free. *)
Definition bestOf (board : Board) (score : Board -> Z -> Z) (positions : list Z)
    : Z * Z :=
  foldl (fun best pos =>
           if isNull board pos && (snd best <? score board pos)
           then (pos, score board pos) else best)
        (-1, 0) positions.

(** [getBestMove(board)]: the chosen position, and the array as the call
    leaves it. *)
Definition getBestMove (board : Board) : Z * Board :=
  match findWin cells board with
  | (Some i, board) => (i, board)
  | (None, board) =>
  let '(blockingMoves, board) := findBlocks cells board [] in
  match blockingMoves with
  | blockPosition :: _ => (blockPosition, board)
  | [] =>
  let '((bestForkMove, _), board) := findFork cells board (-1) 0 in
  if negb (bestForkMove =? -1) then (bestForkMove, board) else
  match oppositeCornerSide board with
  | Some sideMove => (sideMove, board)
  | None =>
  let '((safeMoves, dangerousMoves), board) := classifyMoves cells board [] [] in
  match (if nonEmptyList dangerousMoves then preferredSafe safeMoves else None) with
  | Some preferred => (preferred, board)
  | None =>
  if isNull board 4 then (4, setCell (setCell board 4 (Some O)) 4 None) else
  let bestCornerMove := fst (oppositeCorner board) in
  if negb (bestCornerMove =? -1) then (bestCornerMove, board) else
  let bestCorner := fst (bestOf board cornerScore [0; 2; 6; 8]) in
  if negb (bestCorner =? -1) then (bestCorner, board) else
  let bestSide := fst (bestOf board sideScore [1; 3; 5; 7]) in
  if negb (bestSide =? -1) then (bestSide, board) else
  (0, board)
  end end end end.

(** *** The search without pruning, and what the properties speak about *)

(** The values of the children of a node, [None] when one of them ran out
    of fuel. *)
Fixpoint collect (values : list (option num)) : option (list num) :=
  match values with
  | [] => Some []
  | None :: _ => None
  | Some v :: rest =>
      match collect rest with
      | Some vs => Some (v :: vs)
      | None => None
      end
  end.

(** Minimax over the same tree: the same terminal scores, the same order
    of the moves, the same fork bonus on the maximizer's moves, and no
    window. It works on copies of the board. *)
Fixpoint minimax_unpruned (fuel : nat) (board : Board) (depth : Z)
    (isMaximizing : bool) {struct fuel} : option num :=
  match checkWinner board with
  | Some O => Some (Fin (10000 - depth))
  | Some X => Some (Fin (depth - 10000))
  | None =>
      if isBoardFull board then Some (Fin (-100 - depth))
      else
        match fuel with
        | 0%nat => None
        | S fuel' =>
            if isMaximizing then
              option_map (foldl Num.max NegInf)
                (collect
                   (map (fun '(i, _) =>
                           let child := setCell board i (Some O) in
                           let forkBonus :=
                             if 2 <=? winningLines child then 5000 else 0 in
                           option_map (fun v => Num.addZ v forkBonus)
                             (minimax_unpruned fuel' child (depth + 1) false))
                        (orderedMoves board)))
            else
              option_map (foldl Num.min PosInf)
                (collect
                   (map (fun i =>
                           minimax_unpruned fuel' (setCell board i (Some X))
                                            (depth + 1) true)
                        (filter (fun i => isNull board i = true) cells)))
        end
  end.

(** The number of empty cells. *)
Definition emptyCount (board : Board) : nat :=
  length (filter (fun c : option Player => c = None) board).

(** Every array of [n] cells. *)
Fixpoint allBoards (n : nat) : list Board :=
  match n with
  | 0%nat => [[]]
  | S n' => flat_map (fun c => map (cons c) (allBoards n')) [None; Some X; Some O]
  end.

(** No step of the cascade has an answer: no winning cell, no cell to
    block, no fork, no side against opposite corners, no move to sort
    into safe or dangerous, an occupied centre, and no free corner or
    side. *)
Definition noTierFires (board : Board) : bool :=
  bool_decide (fst (findWin cells board) = None)
  && bool_decide (fst (findBlocks cells board []) = [])
  && (fst (fst (findFork cells board (-1) 0)) =? -1)
  && bool_decide (oppositeCornerSide board = None)
  && bool_decide (fst (classifyMoves cells board [] []) = ([], []))
  && negb (isNull board 4)
  && (fst (oppositeCorner board) =? -1)
  && (fst (bestOf board cornerScore [0; 2; 6; 8]) =? -1)
  && (fst (bestOf board sideScore [1; 3; 5; 7]) =? -1).

(** What the cascade is checked for on one board: the array comes back
    as it was; on a full board no step has an answer and the result is 0,
    and otherwise the chosen position is one of the nine cells and is
    empty. *)
Definition cascadeOk (board : Board) : bool :=
  let '(position, after) := getBestMove board in
  bool_decide (after = board)
  && (if isBoardFull board then noTierFires board && (position =? 0)
      else (0 <=? position) && (position <? 9) && isNull board position).

(** O to move with three O, three X and the top row free. *)
Definition forkBoard : Board :=
  [None; None; None; Some O; Some O; Some X; Some O; Some X; Some X].

(** A full board without a line. *)
Definition drawBoard : Board :=
  [Some X; Some O; Some X; Some X; Some O; Some O; Some O; Some X; Some X].

(** A player has three in a row. *)
Definition hasLine (board : Board) (p : Player) : Prop :=
  exists a b c,
    (a, b, c) ∈ WINNING_COMBINATIONS
    /\ cell board a = Some p /\ cell board b = Some p /\ cell board c = Some p.

(** X to move and about to complete the top row. *)
Definition lostBoard : Board :=
  [Some X; Some X; None; Some O; Some O; None; None; None; None].

(** O to move with two ways to win: cell 2 completes the top row at
    once; the centre completes nothing, leaves O three open lines and
    wins two plies later. *)
Definition twoWinsBoard : Board :=
  [Some O; Some O; None; Some X; None; Some X; None; None; None].

(** *** The game around the engine *)

Inductive Status : Type := playing | draw | playerWin | aiWin.

#[global] Instance GameStatus_eq_dec : EqDecision Status.
Proof. solve_decision. Defined.

(** What a timer set by the component will do when it fires: the reply
    of the engine to the board [makeMove] handed it, or the opening move
    of a game the engine starts. *)
Inductive Timer : Type :=
  | NoTimer
  | Reply (newBoard : Board)
  | Opening.

(** The component state the game functions read and write, and the
    timer in flight. *)
Record Game : Type := mkGame {
  gBoard : Board;
  gIsPlayerTurn : bool;
  gGameStatus : Status;
  gPlayerScore : Z;
  gAiScore : Z;
  gDraws : Z;
  gIsThinking : bool;
  gTimer : Timer
}.

(** [Array(9).fill(null)] *)
Definition emptyBoard : Board := replicate 9 None.

(** [resetGame()], and the start of the first game on mount:
    [aiStartsFirst] is the outcome of [Math.random() < 0.5]; the scores
    stay. The two nested timers of an opening by the engine are one
    [Opening]. The code does not cancel a timer of the game before; the
    model has one timer, so it describes a reset with no timer in
    flight. *)
Definition resetGame (g : Game) (aiStartsFirst : bool) : Game :=
  mkGame emptyBoard (negb aiStartsFirst) playing
         (gPlayerScore g) (gAiScore g) (gDraws g) (gIsThinking g)
         (if aiStartsFirst then Opening else NoTimer).

(** [resetStats()] *)
Definition resetStats (g : Game) (aiStartsFirst : bool) : Game :=
  resetGame (mkGame (gBoard g) (gIsPlayerTurn g) (gGameStatus g) 0 0 0
                    (gIsThinking g) (gTimer g))
            aiStartsFirst.

(** [makeMove(index)], up to the [setTimeout]: the click of the player
    on cell [index]. *)
Definition makeMove (g : Game) (index : Z) : Game :=
  if negb (isNull (gBoard g) index)
     || negb (bool_decide (gGameStatus g = playing))
     || negb (gIsPlayerTurn g)
  then g
  else
    let newBoard := setCell (gBoard g) index (Some X) in
    match checkWinner newBoard with
    | Some _ =>
        mkGame newBoard (gIsPlayerTurn g) playerWin (gPlayerScore g + 1)
               (gAiScore g) (gDraws g) (gIsThinking g) (gTimer g)
    | None =>
        if isBoardFull newBoard then
          mkGame newBoard (gIsPlayerTurn g) draw (gPlayerScore g)
                 (gAiScore g) (gDraws g + 1) (gIsThinking g) (gTimer g)
        else
          mkGame newBoard false (gGameStatus g) (gPlayerScore g)
                 (gAiScore g) (gDraws g) true (Reply newBoard)
    end.

(** The callback of the [setTimeout] of [makeMove]: the engine answers
    on the board it was handed. *)
Definition aiReply (g : Game) (newBoard : Board) : Game :=
  let '(aiMove, newBoard) := getBestMove newBoard in
  let aiBoard := setCell newBoard aiMove (Some O) in
  match checkWinner aiBoard with
  | Some _ =>
      mkGame aiBoard (gIsPlayerTurn g) aiWin (gPlayerScore g)
             (gAiScore g + 1) (gDraws g) false NoTimer
  | None =>
      if isBoardFull aiBoard then
        mkGame aiBoard (gIsPlayerTurn g) draw (gPlayerScore g)
               (gAiScore g) (gDraws g + 1) false NoTimer
      else
        mkGame aiBoard true (gGameStatus g) (gPlayerScore g)
               (gAiScore g) (gDraws g) false NoTimer
  end.

(** The callback of the timers of [resetGame]: the engine opens on an
    empty board. *)
Definition aiOpening (g : Game) : Game :=
  let '(aiMove, emptyBoard) := getBestMove emptyBoard in
  let newBoard := setCell emptyBoard aiMove (Some O) in
  mkGame newBoard true (gGameStatus g) (gPlayerScore g) (gAiScore g)
         (gDraws g) false NoTimer.

(** The timer in flight fires. *)
Definition fire (g : Game) : Game :=
  match gTimer g with
  | NoTimer => g
  | Reply newBoard => aiReply g newBoard
  | Opening => aiOpening g
  end.

(** What happens during a game: the player clicks one of the nine
    cells, or the timer fires. *)
Inductive Event : Type :=
  | Click (index : Z)
  | Fire.

Definition handle (g : Game) (e : Event) : Game :=
  match e with
  | Click index => makeMove g index
  | Fire => fire g
  end.

(** A game: the events after a start, in their order. *)
Definition play (g : Game) (events : list Event) : Game := foldl handle g events.

(** The clicks come from the nine buttons of the board. *)
Definition onBoard (e : Event) : Prop :=
  match e with
  | Click index => 0 <= index < 9
  | Fire => True
  end.

(** The player to move cannot win against the engine's replies, however
    the game goes on: every free cell is tried for X, and where the game
    continues the engine's answer is played and the check repeated, at
    most [n] rounds deep. *)
Fixpoint playerCannotWin (n : nat) (board : Board) : bool :=
  match n with
  | 0%nat => false
  | S n' =>
      forallb (fun index =>
        if isNull board index then
          let newBoard := setCell board index (Some X) in
          match checkWinner newBoard with
          | Some _ => false
          | None =>
              if isBoardFull newBoard then true
              else
                let aiBoard :=
                  setCell newBoard (fst (getBestMove newBoard)) (Some O) in
                match checkWinner aiBoard with
                | Some _ => true
                | None => if isBoardFull aiBoard then true else playerCannotWin n' aiBoard
                end
          end
        else true) cells
  end.

(** The engine's answer on the board [makeMove] hands it leaves the
    player without a win, when the game goes on. *)
Definition replySafe (newBoard : Board) : Prop :=
  let aiBoard := setCell newBoard (fst (getBestMove newBoard)) (Some O) in
  checkWinner aiBoard = None -> isBoardFull aiBoard = false ->
  exists n, playerCannotWin n aiBoard = true.

(** What holds of the state all through a game that started with the
    scores [p], [a] and [d]. *)
Definition sound (p a d : Z) (g : Game) : Prop :=
  length (gBoard g) = 9%nat
  /\ gPlayerScore g = p
  /\ gAiScore g = (if bool_decide (gGameStatus g = aiWin) then a + 1 else a)
  /\ gDraws g = (if bool_decide (gGameStatus g = draw) then d + 1 else d)
  /\ match gGameStatus g with
     | playing =>
         checkWinner (gBoard g) = None /\ isBoardFull (gBoard g) = false
         /\ match gTimer g with
            | NoTimer =>
                gIsPlayerTurn g = true
                /\ exists n, playerCannotWin n (gBoard g) = true
            | Reply newBoard =>
                gIsPlayerTurn g = false /\ newBoard = gBoard g
                /\ replySafe newBoard
            | Opening => gIsPlayerTurn g = false /\ gBoard g = emptyBoard
            end
     | draw =>
         gTimer g = NoTimer /\ checkWinner (gBoard g) = None
         /\ isBoardFull (gBoard g) = true
     | aiWin => gTimer g = NoTimer /\ checkWinner (gBoard g) = Some O
     | playerWin => False
     end.

(** X would win on the free cell [i]. *)
Definition xWinsAt (board : Board) (i : Z) : bool :=
  isNull board i && bool_decide (checkWinner (setCell board i (Some X)) = Some X).

(** *** The random player and the self test *)

(** The free cells, in ascending order. *)
Definition availableMoves (currentBoard : Board) : list Z :=
  filter (fun i => isNull currentBoard i = true) cells.

(** [makeRandomMove(currentBoard)]. [random n] is the value of
    [Math.floor(Math.random() * n)] in this call; the result is [None]
    for the [undefined] that an index outside [availableMoves] reads. *)
Definition makeRandomMove (random : Z -> Z) (currentBoard : Board) : option Z :=
  let availableMoves := availableMoves currentBoard in
  if bool_decide (availableMoves = []) then Some (-1)
  else
    let randomIndex := random (Z.of_nat (length availableMoves)) in
    if randomIndex <? 0 then None else availableMoves !! Z.to_nat randomIndex.

(** The counters of [runAutoTest]. *)
Record Tally : Type := mkTally {
  testPlayerWins : Z;
  testAiWins : Z;
  testDraws : Z
}.

(** The [while] loop of one test game. [remaining] is [9 - moveCount],
    the turns the condition [moveCount < 9] still lets through, and
    [random moveCount] serves the draw of the turn. The loop hands back
    [testGameStatus], the board and the counters. *)
Fixpoint testGame (random : Z -> Z -> Z) (remaining : nat) (testBoard : Board)
    (testIsPlayerTurn : bool) (tally : Tally) : Status * Board * Tally :=
  match remaining with
  | 0%nat => (playing, testBoard, tally)
  | S remaining' =>
      let moveCount := 9 - Z.of_nat remaining in
      if testIsPlayerTurn then
        let playerMove := makeRandomMove (random moveCount) testBoard in
        if bool_decide (playerMove = Some (-1)) then (playing, testBoard, tally)
        else
          let testBoard :=
            match playerMove with
            | Some index => setCell testBoard index (Some X)
            | None => testBoard
            end in
          if bool_decide (checkWinner testBoard = Some X) then
            (playerWin, testBoard,
             mkTally (testPlayerWins tally + 1) (testAiWins tally) (testDraws tally))
          else if isBoardFull testBoard then
            (draw, testBoard,
             mkTally (testPlayerWins tally) (testAiWins tally) (testDraws tally + 1))
          else testGame random remaining' testBoard false tally
      else
        let '(aiMove, testBoard) := getBestMove testBoard in
        let testBoard := setCell testBoard aiMove (Some O) in
        if bool_decide (checkWinner testBoard = Some O) then
          (aiWin, testBoard,
           mkTally (testPlayerWins tally) (testAiWins tally + 1) (testDraws tally))
        else if isBoardFull testBoard then
          (draw, testBoard,
           mkTally (testPlayerWins tally) (testAiWins tally) (testDraws tally + 1))
        else testGame random remaining' testBoard true tally
  end.

(** The ten games of [runAutoTest], run when no test is under way:
    [random gameNum moveCount] is the source of the draws, and the result
    is the counters with the final [testGameStatus] of every game, in the
    order of [results]. *)
Definition runAutoTest (random : Z -> Z -> Z -> Z) : Tally * list Status :=
  foldl (fun '(tally, results) gameNum =>
           let '(testGameStatus, _, tally) :=
             testGame (random gameNum) 9 emptyBoard true tally in
           (tally, results ++ [testGameStatus]))
        (mkTally 0 0 0, []) [1; 2; 3; 4; 5; 6; 7; 8; 9; 10].

(** What [Math.floor(Math.random() * n)] can be: [Math.random()] is at
    least 0 and less than 1. *)
Definition inRange (random : Z -> Z) : Prop :=
  forall n, 0 < n -> 0 <= random n < n.

End TicTacToe.

(** * Properties *)

(** ** Sorting keeps the elements *)

Section SortFacts.
Context {A : Type} (cmp : A -> A -> Z).

Lemma sortInsert_elem x y l : y ∈ sortInsert cmp x l <-> y = x \/ y ∈ l.
Proof.
  induction l as [|z l IH]; simpl.
  - rewrite elem_of_cons, elem_of_nil. tauto.
  - destruct (cmp x z <=? 0).
    + rewrite !elem_of_cons. tauto.
    + rewrite !elem_of_cons, IH. tauto.
Qed.

Lemma jsSort_elem y l : y ∈ jsSort cmp l <-> y ∈ l.
Proof.
  induction l as [|x l IH]; simpl; [done|].
  rewrite sortInsert_elem, IH, elem_of_cons. tauto.
Qed.

Lemma sortInsert_perm x l : sortInsert cmp x l ≡ₚ x :: l.
Proof.
  induction l as [|z l IH]; simpl; [done|].
  destruct (cmp x z <=? 0); [done|].
  rewrite IH. apply Permutation_swap.
Qed.

Lemma jsSort_perm l : jsSort cmp l ≡ₚ l.
Proof.
  induction l as [|x l IH]; simpl; [done|].
  by rewrite sortInsert_perm, IH.
Qed.
End SortFacts.

(** ** Alpha-beta loops return the value of the full scan *)

Module AlphaBeta.

(** Every case of a statement about the order of [num]: the extended
    values are split and the integer comparisons are left to [lia]. *)
Ltac num_cases :=
  intros;
  repeat match goal with x : num |- _ => destruct x end;
  unfold Num.max, Num.min, Num.leb in *; simpl in *;
  repeat match goal with
         | |- context [if ?c then _ else _] => destruct c eqn:?
         | H : context [if ?c then _ else _] |- _ => destruct c eqn:?
         end;
  simpl in *; try reflexivity; try discriminate; try lia; try (f_equal; lia).

Lemma leb_refl a : Num.leb a a = true.
Proof. num_cases. Qed.

Lemma leb_antisym a b : Num.leb a b = true -> Num.leb b a = true -> a = b.
Proof. num_cases. Qed.

Lemma max_NegInf_r a : Num.max a NegInf = a.
Proof. by destruct a. Qed.

Lemma min_PosInf_r a : Num.min a PosInf = a.
Proof. by destruct a. Qed.

Lemma max_assoc a b c : Num.max (Num.max a b) c = Num.max a (Num.max b c).
Proof. num_cases. Qed.

Lemma min_assoc a b c : Num.min (Num.min a b) c = Num.min a (Num.min b c).
Proof. num_cases. Qed.

Lemma max_ge_l a b : Num.leb a (Num.max a b) = true.
Proof. num_cases. Qed.

Lemma min_le_l a b : Num.leb (Num.min a b) a = true.
Proof. num_cases. Qed.

Lemma leb_trans a b c :
  Num.leb a b = true -> Num.leb b c = true -> Num.leb a c = true.
Proof. num_cases. Qed.

Lemma foldl_max_ge m l : Num.leb m (foldl Num.max m l) = true.
Proof.
  revert m. induction l as [|x l IH]; intros m; simpl; [apply leb_refl|].
  eapply leb_trans; [apply (max_ge_l m x)|apply IH].
Qed.

Lemma foldl_min_le m l : Num.leb (foldl Num.min m l) m = true.
Proof.
  revert m. induction l as [|x l IH]; intros m; simpl; [apply leb_refl|].
  eapply leb_trans; [apply IH|apply (min_le_l m x)].
Qed.

Lemma bounded_within alpha beta exact result :
  bounded alpha beta exact result <-> within alpha beta exact result.
Proof.
  unfold bounded, within. split; intros (H1 & H2 & H3); repeat split; auto.
  - rewrite (H3 H H0). apply leb_refl.
  - rewrite (H3 H H0). apply leb_refl.
  - intros Ha Hb. destruct (H3 Ha Hb). by apply leb_antisym.
Qed.

Lemma bounded_full exact result : bounded NegInf PosInf exact result -> result = exact.
Proof.
  intros (H1 & H2 & H3). destruct result; simpl in *.
  - specialize (H1 eq_refl). by destruct exact.
  - by apply H3.
  - specialize (H2 eq_refl). by destruct exact.
Qed.

Lemma bounded_refl alpha beta v : bounded alpha beta v v.
Proof. unfold bounded. pose proof (leb_refl v). tauto. Qed.

(** One turn of the maximizer's loop. [alpha0] is the bound the node was
    called with, [m] the running maximum of the returned values and [M]
    that of the exact ones. *)
Lemma abMax_step alpha0 beta m M e x :
  Num.leb beta (Num.max alpha0 m) = false ->
  (Num.leb m alpha0 = true -> Num.leb M m = true) ->
  (Num.leb m alpha0 = false -> Num.leb m M = true /\ Num.leb M m = true) ->
  within (Num.max alpha0 m) beta x e ->
  (Num.leb beta (Num.max alpha0 (Num.max m e)) = false ->
      (Num.leb (Num.max m e) alpha0 = true ->
       Num.leb (Num.max M x) (Num.max m e) = true)
      /\ (Num.leb (Num.max m e) alpha0 = false ->
          Num.leb (Num.max m e) (Num.max M x) = true
          /\ Num.leb (Num.max M x) (Num.max m e) = true))
  /\ (Num.leb beta (Num.max alpha0 (Num.max m e)) = true ->
      Num.leb beta (Num.max m e) = true
      /\ Num.leb (Num.max m e) (Num.max M x) = true
      /\ Num.leb (Num.max m e) alpha0 = false).
Proof. unfold within. num_cases. Qed.

Lemma abMin_step alpha beta0 m M e x :
  Num.leb (Num.min beta0 m) alpha = false ->
  (Num.leb beta0 m = true -> Num.leb m M = true) ->
  (Num.leb beta0 m = false -> Num.leb m M = true /\ Num.leb M m = true) ->
  within alpha (Num.min beta0 m) x e ->
  (Num.leb (Num.min beta0 (Num.min m e)) alpha = false ->
      (Num.leb beta0 (Num.min m e) = true ->
       Num.leb (Num.min m e) (Num.min M x) = true)
      /\ (Num.leb beta0 (Num.min m e) = false ->
          Num.leb (Num.min m e) (Num.min M x) = true
          /\ Num.leb (Num.min M x) (Num.min m e) = true))
  /\ (Num.leb (Num.min beta0 (Num.min m e)) alpha = true ->
      Num.leb (Num.min m e) alpha = true
      /\ Num.leb (Num.min M x) (Num.min m e) = true
      /\ Num.leb beta0 (Num.min m e) = false).
Proof. unfold within. num_cases. Qed.

(** The end of the maximizer's loop, run out or broken off. *)
Lemma abMax_done alpha0 beta m M :
  Num.leb beta (Num.max alpha0 m) = false ->
  (Num.leb m alpha0 = true -> Num.leb M m = true) ->
  (Num.leb m alpha0 = false -> Num.leb m M = true /\ Num.leb M m = true) ->
  within alpha0 beta M m.
Proof. unfold within. num_cases. Qed.

Lemma abMax_broken alpha0 beta m M V :
  Num.leb beta m = true -> Num.leb m M = true -> Num.leb m alpha0 = false ->
  Num.leb M V = true -> within alpha0 beta V m.
Proof. unfold within. num_cases. Qed.

Lemma abMin_done alpha beta0 m M :
  Num.leb (Num.min beta0 m) alpha = false ->
  (Num.leb beta0 m = true -> Num.leb m M = true) ->
  (Num.leb beta0 m = false -> Num.leb m M = true /\ Num.leb M m = true) ->
  within alpha beta0 M m.
Proof. unfold within. num_cases. Qed.

Lemma abMin_broken alpha beta0 m M V :
  Num.leb m alpha = true -> Num.leb M m = true -> Num.leb beta0 m = false ->
  Num.leb V M = true -> within alpha beta0 V m.
Proof. unfold within. num_cases. Qed.

Section Loops.
Context {C : Type} (search : C -> num -> num -> num) (exact : C -> num).
Hypothesis search_bounded :
  forall c alpha beta,
    Num.leb beta alpha = false -> bounded alpha beta (exact c) (search c alpha beta).

Lemma abMax_within children alpha0 beta m M :
  Num.leb beta (Num.max alpha0 m) = false ->
  (Num.leb m alpha0 = true -> Num.leb M m = true) ->
  (Num.leb m alpha0 = false -> Num.leb m M = true /\ Num.leb M m = true) ->
  within alpha0 beta (foldl Num.max M (map exact children))
         (fst (abMax search children (Num.max alpha0 m) beta m)).
Proof.
  revert m M. induction children as [|c rest IH]; intros m M Hab H1 H2; simpl.
  - by apply abMax_done.
  - pose proof (search_bounded c _ _ Hab) as Hc. apply bounded_within in Hc.
    destruct (abMax_step _ _ _ _ _ _ Hab H1 H2 Hc) as (Hgo & Hstop).
    rewrite max_assoc.
    destruct (Num.leb beta (Num.max alpha0 (Num.max m (search c _ beta)))) eqn:E.
    + simpl. destruct (Hstop eq_refl) as (Hb & Hle & Hgt).
      eapply abMax_broken; eauto. apply foldl_max_ge.
    + destruct (Hgo eq_refl) as [H1' H2']. by apply IH.
Qed.

Lemma abMin_within children alpha beta0 m M :
  Num.leb (Num.min beta0 m) alpha = false ->
  (Num.leb beta0 m = true -> Num.leb m M = true) ->
  (Num.leb beta0 m = false -> Num.leb m M = true /\ Num.leb M m = true) ->
  within alpha beta0 (foldl Num.min M (map exact children))
         (fst (abMin search children alpha (Num.min beta0 m) m)).
Proof.
  revert m M. induction children as [|c rest IH]; intros m M Hab H1 H2; simpl.
  - by apply abMin_done.
  - pose proof (search_bounded c _ _ Hab) as Hc. apply bounded_within in Hc.
    destruct (abMin_step _ _ _ _ _ _ Hab H1 H2 Hc) as (Hgo & Hstop).
    rewrite min_assoc.
    destruct (Num.leb (Num.min beta0 (Num.min m (search c alpha _))) alpha) eqn:E.
    + simpl. destruct (Hstop eq_refl) as (Hb & Hle & Hgt).
      eapply abMin_broken; eauto. apply foldl_min_le.
    + destruct (Hgo eq_refl) as [H1' H2']. by apply IH.
Qed.

(** A maximizer entered with the window [(alpha, beta)] and the running
    maximum [-Infinity]. *)
Lemma abMax_sound children alpha beta :
  Num.leb beta alpha = false ->
  bounded alpha beta (foldl Num.max NegInf (map exact children))
          (fst (abMax search children alpha beta NegInf)).
Proof.
  intros Hab. apply bounded_within.
  rewrite <- (max_NegInf_r alpha) at 2.
  apply abMax_within; rewrite ?max_NegInf_r; try done; by destruct alpha.
Qed.

Lemma abMin_sound children alpha beta :
  Num.leb beta alpha = false ->
  bounded alpha beta (foldl Num.min PosInf (map exact children))
          (fst (abMin search children alpha beta PosInf)).
Proof.
  intros Hab. apply bounded_within.
  rewrite <- (min_PosInf_r beta) at 2.
  apply abMin_within; rewrite ?min_PosInf_r; try done; by destruct beta.
Qed.
End Loops.

End AlphaBeta.

(** ** Thai checkers: the move generator *)

Module MakhosFacts.
Import Makhos.

Lemma getIndex_inv row col :
  getIndex row col <> -1 ->
  0 <= row < 8 /\ 0 <= col < 8 /\ getIndex row col = row * 8 + col.
Proof.
  unfold getIndex.
  destruct (row <? 0) eqn:E1, (8 <=? row) eqn:E2,
           (col <? 0) eqn:E3, (8 <=? col) eqn:E4; simpl; try congruence.
  intros _. lia.
Qed.

Lemma getPosition_square row col :
  0 <= row < 8 -> 0 <= col < 8 -> getPosition (row * 8 + col) = (row, col).
Proof.
  intros Hr Hc. unfold getPosition. f_equal.
  - rewrite Z.add_comm, Z.div_add by lia. rewrite Z.div_small; lia.
  - rewrite Z.rem_mod_nonneg by lia.
    rewrite Z.add_comm, Z.mod_add by lia. apply Z.mod_small; lia.
Qed.

Lemma captureInDirection_inv board piece row col dr dc d :
  d ∈ captureInDirection board piece row col (dr, dc) ->
  landing board (row + dr * 2) (col + dc * 2) d
  /\ exists midPiece, cell board (getIndex (row + dr) (col + dc)) = Some midPiece
                      /\ side midPiece <> side piece.
Proof.
  unfold captureInDirection.
  destruct (getIndex (row + dr * 2) (col + dc * 2) =? -1) eqn:E; simpl;
    [intros H; by apply elem_of_nil in H|].
  destruct (isValidSquare _ _) eqn:Ev; [|intros H; by apply elem_of_nil in H].
  destruct (cell board (getIndex (row + dr) (col + dc))) as [mid|] eqn:Em;
    [|intros H; by apply elem_of_nil in H].
  destruct (bool_decide (side mid <> side piece)) eqn:Es; simpl;
    [|intros H; by apply elem_of_nil in H].
  destruct (bool_decide (cell board _ = None)) eqn:En;
    [|intros H; by apply elem_of_nil in H].
  intros H. apply list_elem_of_singleton in H. subst d.
  apply Z.eqb_neq in E. destruct (getIndex_inv _ _ E) as (Hr & Hc & Hi).
  apply bool_decide_eq_true in Es, En.
  split; [|eauto]. unfold landing. rewrite <- Hi. auto.
Qed.

Lemma stepInDirection_inv board row col dr dc d :
  d ∈ stepInDirection board row col (dr, dc) ->
  landing board (row + dr) (col + dc) d.
Proof.
  unfold stepInDirection.
  destruct (getIndex (row + dr) (col + dc) =? -1) eqn:E; simpl;
    [intros H; by apply elem_of_nil in H|].
  destruct (isValidSquare _ _) eqn:Ev; simpl;
    [|intros H; by apply elem_of_nil in H].
  destruct (bool_decide (cell board _ = None)) eqn:En;
    [|intros H; by apply elem_of_nil in H].
  intros H. apply list_elem_of_singleton in H. subst d.
  apply Z.eqb_neq in E. destruct (getIndex_inv _ _ E) as (Hr & Hc & Hi).
  apply bool_decide_eq_true in En.
  unfold landing. rewrite <- Hi. auto.
Qed.

Lemma directionsOf_unit piece dr dc :
  (dr, dc) ∈ directionsOf piece -> Z.abs dr = 1 /\ Z.abs dc = 1.
Proof.
  unfold directionsOf, kingDirections, blackDirections, whiteDirections.
  intros H.
  destruct (isKingPiece piece); [|destruct (decide _)];
    repeat (apply elem_of_cons in H as [H|H]; [inversion H; subst; lia|]);
    by apply elem_of_nil in H.
Qed.

(** A capture pushed for the piece at [pieceIndex]. *)
Lemma getCaptureMoves_inv board pieceIndex d :
  d ∈ getCaptureMoves board pieceIndex ->
  exists piece dr dc,
    cell board pieceIndex = Some piece /\ (dr, dc) ∈ directionsOf piece
    /\ landing board (pieceIndex / 8 + dr * 2) (Z.rem pieceIndex 8 + dc * 2) d
    /\ exists midPiece,
         cell board (getIndex (pieceIndex / 8 + dr) (Z.rem pieceIndex 8 + dc))
         = Some midPiece /\ side midPiece <> side piece.
Proof.
  unfold getCaptureMoves.
  destruct (cell board pieceIndex) as [piece|] eqn:Ep;
    [|intros H; by apply elem_of_nil in H].
  simpl. intros H. apply list_elem_of_In, in_flat_map in H as ([dr dc] & Hd & H).
  apply list_elem_of_In in Hd, H.
  apply captureInDirection_inv in H as [Hl Hm].
  exists piece, dr, dc. auto.
Qed.

Lemma getValidMoves_inv board pieceIndex capturesOnly d :
  d ∈ getValidMoves board pieceIndex capturesOnly ->
  d ∈ getCaptureMoves board pieceIndex
  \/ (capturesOnly = false /\ getCaptureMoves board pieceIndex = []
      /\ exists piece dr dc,
           cell board pieceIndex = Some piece /\ (dr, dc) ∈ directionsOf piece
           /\ landing board (pieceIndex / 8 + dr) (Z.rem pieceIndex 8 + dc) d).
Proof.
  unfold getValidMoves.
  destruct (cell board pieceIndex) as [piece|] eqn:Ep;
    [|intros H; by apply elem_of_nil in H].
  destruct capturesOnly; simpl; [auto|].
  destruct (bool_decide (getCaptureMoves board pieceIndex = [])) eqn:Ec; simpl;
    [|auto].
  apply bool_decide_eq_true in Ec.
  intros H. apply list_elem_of_In, in_flat_map in H as ([dr dc] & Hd & H).
  apply list_elem_of_In in Hd, H. apply stepInDirection_inv in H.
  right. split; [done|]. split; [done|]. exists piece, dr, dc. auto.
Qed.

Lemma landing_facts board row col d :
  landing board row col d ->
  0 <= d < 64 /\ cell board d = None /\ getPosition d = (row, col)
  /\ isValidSquare row col = true.
Proof.
  intros (Hr & Hc & -> & Hv & Hn).
  rewrite getPosition_square by done. repeat split; auto; lia.
Qed.

(** *** Reading and writing cells *)

Lemma cell_setCell_Some board i v j piece :
  cell (setCell board i v) j = Some piece ->
  (j = i /\ v = Some piece) \/ cell board j = Some piece.
Proof.
  unfold cell, setCell.
  destruct (j <? 0) eqn:Ej; [done|].
  destruct (i <? 0) eqn:Ei; [auto|].
  destruct (decide (Z.to_nat i = Z.to_nat j)) as [E|E].
  - destruct (decide (Z.to_nat i < length board)%nat) as [Hl|Hl].
    + rewrite E in Hl |- *. rewrite list_lookup_insert_eq by done. simpl.
      intros ->. left. split; [lia|done].
    + rewrite list_insert_ge by lia. auto.
  - rewrite list_lookup_insert_ne by done. auto.
Qed.

Lemma cell_setCell_eq board i v :
  0 <= i < Z.of_nat (length board) -> cell (setCell board i v) i = v.
Proof.
  intros H. unfold cell, setCell.
  destruct (i <? 0) eqn:Ei; [lia|].
  rewrite list_lookup_insert_eq by lia. done.
Qed.

Lemma cell_setCell_ne board i v j :
  i <> j -> cell (setCell board i v) j = cell board j.
Proof.
  intros H. unfold cell, setCell.
  destruct (j <? 0) eqn:Ej; [done|].
  destruct (i <? 0) eqn:Ei; [done|].
  rewrite list_lookup_insert_ne by lia. done.
Qed.

Lemma length_setCell board i v : length (setCell board i v) = length board.
Proof. unfold setCell. destruct (i <? 0); [done|]. apply length_insert. Qed.

Lemma cell_Some_range board i piece :
  cell board i = Some piece -> 0 <= i < Z.of_nat (length board).
Proof.
  unfold cell. destruct (i <? 0) eqn:Ei; [done|].
  destruct (board !! Z.to_nat i) eqn:E; [|done].
  apply lookup_lt_Some in E. lia.
Qed.

Lemma darkOnlyb_sound board : darkOnlyb board = true -> darkOnly board.
Proof.
  unfold darkOnlyb. rewrite forallb_forall. intros H i piece Hc.
  pose proof (cell_Some_range _ _ _ Hc) as Hr.
  specialize (H i). rewrite Hc in H. apply Z.eqb_eq, H.
  apply in_map_iff. exists (Z.to_nat i). split; [lia|].
  apply in_seq. lia.
Qed.

(** *** Moves keep the pieces on dark squares *)

Lemma darkOnly_setCell_None board i : darkOnly board -> darkOnly (setCell board i None).
Proof.
  intros H j piece Hc.
  apply cell_setCell_Some in Hc as [[_ ?]|Hc]; [done|eauto].
Qed.

Lemma darkOnly_setCell_dark board i v :
  darkOnly board -> (i / 8 + i mod 8) mod 2 = 1 -> darkOnly (setCell board i v).
Proof.
  intros H Hi j piece Hc.
  apply cell_setCell_Some in Hc as [[-> _]|Hc]; [done|eauto].
Qed.

Lemma darkOnly_movePiece board from to :
  darkOnly board -> (to / 8 + to mod 8) mod 2 = 1 ->
  darkOnly (movePiece board from to).
Proof.
  intros H Hto. unfold movePiece.
  destruct (getPosition from) as [fromRow fromCol].
  destruct (getPosition to) as [toRow toCol].
  assert (darkOnly (setCell (setCell board to (cell board from)) from None)) as H1
    by (apply darkOnly_setCell_None, darkOnly_setCell_dark; done).
  destruct (isCaptureMove from to); [|done].
  destruct (Z.even _); [|done].
  by apply darkOnly_setCell_None.
Qed.

Lemma darkOnly_promoteWhite board to :
  darkOnly board -> (to / 8 + to mod 8) mod 2 = 1 -> darkOnly (promoteWhite board to).
Proof.
  intros H Hto. unfold promoteWhite.
  destruct (_ && _); [|done]. by apply darkOnly_setCell_dark.
Qed.

Lemma darkOnly_promoteBlack board to :
  darkOnly board -> (to / 8 + to mod 8) mod 2 = 1 -> darkOnly (promoteBlack board to).
Proof.
  intros H Hto. unfold promoteBlack.
  destruct (_ && _); [|done]. by apply darkOnly_setCell_dark.
Qed.

Lemma darkOnly_promoteLanded board to :
  darkOnly board -> (to / 8 + to mod 8) mod 2 = 1 -> darkOnly (promoteLanded board to).
Proof.
  intros H Hto. unfold promoteLanded.
  destruct (_ && _); [by apply darkOnly_setCell_dark|].
  destruct (_ && _); [by apply darkOnly_setCell_dark|done].
Qed.

Lemma landing_dark board row col d :
  landing board row col d -> (d / 8 + d mod 8) mod 2 = 1.
Proof.
  intros (Hr & Hc & -> & Hv & _).
  unfold isValidSquare in Hv. apply Z.eqb_eq in Hv.
  rewrite Z.rem_mod_nonneg in Hv by lia.
  replace ((row * 8 + col) / 8) with row
    by (rewrite Z.add_comm, Z.div_add, Z.div_small; lia).
  replace ((row * 8 + col) mod 8) with col
    by (rewrite Z.add_comm, Z.mod_add, Z.mod_small; lia).
  done.
Qed.

Lemma generated_landing board pieceIndex capturesOnly d :
  d ∈ getValidMoves board pieceIndex capturesOnly
  \/ d ∈ getCaptureMoves board pieceIndex ->
  exists row col, landing board row col d.
Proof.
  intros [H|H].
  - apply getValidMoves_inv in H as [H|(_ & _ & piece & dr & dc & _ & _ & H)];
      [|eauto].
    apply getCaptureMoves_inv in H as (piece & dr & dc & _ & _ & H & _). eauto.
  - apply getCaptureMoves_inv in H as (piece & dr & dc & _ & _ & H & _). eauto.
Qed.

(** C9. Every destination returned by [getValidMoves] or
    [getCaptureMoves], for any board, piece index and flag, is a square of
    the 8x8 board, empty, and dark ([(row + col) mod 2 = 1] with
    [row = d / 8] and [col = d mod 8]); and if the pieces of the board
    stand on dark squares only, they still do after the move is applied,
    by [makeMove] as by either role of the search (and by the selector,
    which applies moves as the maximizer does). *)
Theorem generated_moves_land_on_free_dark_squares
    (board : Board) (pieceIndex : Z) (capturesOnly : bool) (d : Z) :
  d ∈ getValidMoves board pieceIndex capturesOnly
  \/ d ∈ getCaptureMoves board pieceIndex ->
  (0 <= d < 64 /\ cell board d = None /\ (d / 8 + d mod 8) mod 2 = 1)
  /\ (darkOnly board ->
      darkOnly (promoteLanded (movePiece board pieceIndex d) d)
      /\ darkOnly (searchBoard true board pieceIndex d)
      /\ darkOnly (searchBoard false board pieceIndex d)).
Proof.
  intros H. apply generated_landing in H as (row & col & H).
  pose proof (landing_dark _ _ _ _ H) as Hd.
  destruct (landing_facts _ _ _ _ H) as (Hr & Hn & _ & _).
  split; [done|]. intros Hb.
  pose proof (darkOnly_movePiece board pieceIndex d Hb Hd) as Hm.
  unfold searchBoard. split; [|split].
  - by apply darkOnly_promoteLanded.
  - by apply darkOnly_promoteWhite.
  - by apply darkOnly_promoteBlack.
Qed.

(** The opening advance 17 -> 24 of a white man. *)
Lemma generated_moves_land_on_free_dark_squares_witness :
  (0 <= 24 < 64 /\ cell initializeBoard 24 = None /\ (24 / 8 + 24 mod 8) mod 2 = 1)
  /\ darkOnly (searchBoard true initializeBoard 17 24).
Proof.
  destruct (generated_moves_land_on_free_dark_squares initializeBoard 17 false 24)
    as [H1 H2].
  - left. vm_compute. apply list_elem_of_here.
  - split; [exact H1|]. apply H2. apply darkOnlyb_sound. vm_compute. reflexivity.
Defined.

(** *** The forced capture *)

Lemma piecesOf_elem board s piece index :
  (piece, index) ∈ piecesOf board s <->
  cell board index = Some piece /\ side piece = s.
Proof.
  unfold piecesOf. rewrite list_elem_of_omap. split.
  - intros ([i p] & Hi & Hf).
    apply elem_of_lookup_imap in Hi as (j & y & Heq & Hl).
    inversion Heq; subst j y; clear Heq.
    destruct p as [q|]; [|done]. destruct (decide (side q = s)); [|done].
    inversion Hf; subst. split; [|done].
    unfold cell. destruct (Z.of_nat i <? 0) eqn:E; [lia|].
    by rewrite Nat2Z.id, Hl.
  - intros [Hc Hs].
    pose proof (cell_Some_range _ _ _ Hc) as Hr.
    exists (Z.to_nat index, Some piece). split.
    + apply elem_of_lookup_imap. exists (Z.to_nat index), (Some piece).
      split; [done|]. unfold cell in Hc.
      destruct (index <? 0) eqn:E; [done|].
      destruct (board !! Z.to_nat index) as [c|]; simpl in Hc; by subst.
    + simpl. destruct (decide (side piece = s)); [|done].
      f_equal. f_equal. lia.
Qed.

Lemma hasCapture_true board index :
  hasCapture board index = true <-> getCaptureMoves board index <> [].
Proof.
  unfold hasCapture. rewrite negb_true_iff, bool_decide_eq_false. done.
Qed.

Lemma piecesWithCaptures_elem board pieces piece index :
  (piece, index) ∈ piecesWithCaptures board pieces <->
  (piece, index) ∈ pieces /\ getCaptureMoves board index <> [].
Proof.
  unfold piecesWithCaptures. rewrite list_elem_of_filter, hasCapture_true. tauto.
Qed.

Lemma nonEmpty_elem {A} (l : list A) x : x ∈ l -> nonEmpty l = true.
Proof. destruct l; [by intros H%elem_of_nil|done]. Qed.

(** A generated capture is a jump: its row differs by two from the
    row of the piece. *)
Lemma capture_is_jump board from to :
  to ∈ getCaptureMoves board from -> isCaptureMove from to = true.
Proof.
  intros H.
  apply getCaptureMoves_inv in H as (piece & dr & dc & _ & Hd & Hl & _).
  apply directionsOf_unit in Hd as [Hdr _].
  apply landing_facts in Hl as (_ & _ & Hp & _).
  unfold isCaptureMove. rewrite Hp. simpl. apply Z.eqb_eq. lia.
Qed.

(** A generated step is not a jump. *)
Lemma step_is_not_jump board from to :
  to ∈ getValidMoves board from false -> getCaptureMoves board from = [] ->
  isCaptureMove from to = false.
Proof.
  intros H Hc.
  apply getValidMoves_inv in H as [H|(_ & _ & piece & dr & dc & _ & Hd & Hl)].
  { rewrite Hc in H. by apply elem_of_nil in H. }
  apply directionsOf_unit in Hd as [Hdr _].
  apply landing_facts in Hl as (_ & _ & Hp & _).
  unfold isCaptureMove. rewrite Hp. simpl. apply Z.eqb_neq. lia.
Qed.

Lemma legalMoves_elem board s from to :
  (from, to) ∈ legalMoves board s <->
  exists piece,
    (piece, from) ∈ activePieces board (piecesOf board s)
    /\ to ∈ getValidMoves board from
              (nonEmpty (piecesWithCaptures board (piecesOf board s))).
Proof.
  unfold legalMoves. rewrite list_elem_of_In, in_flat_map. split.
  - intros ([piece index] & Hp & Hm).
    apply in_map_iff in Hm as (move & Heq & Hm). inversion Heq; subst.
    exists piece. by rewrite !list_elem_of_In.
  - intros (piece & Hp & Hm). exists (piece, from).
    rewrite <- list_elem_of_In. split; [done|].
    apply in_map_iff. exists to. by rewrite <- list_elem_of_In.
Qed.

Lemma getValidMoves_forced board index piece :
  cell board index = Some piece ->
  getValidMoves board index true = getCaptureMoves board index.
Proof. intros H. unfold getValidMoves. by rewrite H. Qed.

(** C1. When some piece of the side to move has a capture, the moves the
    search and the selector enumerate for that side are captures only:
    every enumerated move is one of the captures of its piece (a jump
    over an enemy piece), a piece with a capture yields exactly its
    captures, and a piece without a capture yields no move at all. *)
Theorem forced_capture_only (board : Board) (s : Side) :
  (exists piece index,
      (piece, index) ∈ piecesOf board s /\ getCaptureMoves board index <> []) ->
  (forall from to,
      (from, to) ∈ legalMoves board s ->
      to ∈ getCaptureMoves board from /\ isCaptureMove from to = true)
  /\ (forall piece index,
        (piece, index) ∈ piecesOf board s ->
        getCaptureMoves board index <> [] ->
        forall to, (index, to) ∈ legalMoves board s <->
                   to ∈ getCaptureMoves board index)
  /\ (forall piece index,
        (piece, index) ∈ piecesOf board s ->
        getCaptureMoves board index = [] ->
        forall to, (index, to) ∉ legalMoves board s).
Proof.
  intros (piece0 & index0 & Hp0 & Hc0).
  assert (nonEmpty (piecesWithCaptures board (piecesOf board s)) = true) as Hf.
  { apply (nonEmpty_elem _ (piece0, index0)).
    by apply piecesWithCaptures_elem. }
  assert (forall from to,
             (from, to) ∈ legalMoves board s <->
             exists piece, (piece, from) ∈ piecesOf board s
                           /\ getCaptureMoves board from <> []
                           /\ to ∈ getCaptureMoves board from) as Hchar.
  { intros from to. rewrite legalMoves_elem. unfold activePieces. rewrite Hf.
    split; intros (piece & Hp & Hm); exists piece.
    - apply piecesWithCaptures_elem in Hp as [Hp Hc].
      pose proof Hp as Hp'. apply piecesOf_elem in Hp' as [Hcell _].
      by rewrite (getValidMoves_forced _ _ _ Hcell) in Hm.
    - destruct Hm as [Hc Hm].
      pose proof Hp as Hp'. apply piecesOf_elem in Hp' as [Hcell _].
      rewrite (getValidMoves_forced _ _ _ Hcell).
      split; [by apply piecesWithCaptures_elem|done]. }
  split; [|split].
  - intros from to H. apply Hchar in H as (piece & _ & _ & H).
    split; [done|]. by apply capture_is_jump in H.
  - intros piece index Hp Hc to. rewrite Hchar. split.
    + by intros (_ & _ & _ & H).
    + intros H. exists piece. done.
  - intros piece index Hp Hc to H. apply Hchar in H as (_ & _ & Hne & _). done.
Qed.

(** The board of the witness: a white man on 17 can take the black man
    on 26; the white man on 21 has no capture. *)
Lemma forced_capture_only_witness :
  let board := boardOf [(17, WP); (21, WP); (26, BP); (44, BP)] in
  (forall to, (17, to) ∈ legalMoves board W <-> to ∈ getCaptureMoves board 17)
  /\ (forall to, (21, to) ∉ legalMoves board W).
Proof.
  intros board.
  destruct (forced_capture_only board W) as (_ & H2 & H3).
  - exists WP, 17. split.
    + apply piecesOf_elem. split; reflexivity.
    + vm_compute. discriminate.
  - split.
    + apply (H2 WP 17); [apply piecesOf_elem; split; reflexivity|].
      vm_compute. discriminate.
    + apply (H3 WP 21); [apply piecesOf_elem; split; reflexivity|].
      vm_compute. reflexivity.
Defined.

(** *** Promotion *)

Lemma getIndex_row row col to :
  0 <= to -> getIndex row col = to -> row = to / 8.
Proof.
  intros Hto H. assert (getIndex row col <> -1) as Hne by lia.
  destruct (getIndex_inv _ _ Hne) as (Hr & Hc & Hi).
  rewrite <- H, Hi, Z.add_comm, Z.div_add, Z.div_small; lia.
Qed.

(** The moved piece stands on its destination after [movePiece]. *)
Lemma movePiece_to board from to :
  from <> to -> 0 <= to < Z.of_nat (length board) ->
  cell (movePiece board from to) to = cell board from.
Proof.
  intros Hne Hto. unfold movePiece.
  assert (cell (setCell (setCell board to (cell board from)) from None) to
          = cell board from) as H0.
  { rewrite cell_setCell_ne by done. by apply cell_setCell_eq. }
  destruct (isCaptureMove from to) eqn:Hc; simpl; [|done].
  destruct (Z.even _); [|done].
  rewrite cell_setCell_ne; [done|].
  intros Hmid. apply getIndex_row in Hmid; [|lia].
  unfold isCaptureMove in Hc. simpl in Hc. apply Z.eqb_eq in Hc.
  rewrite <- Hmid in Hc.
  set (a := from / 8) in *. set (b := to / 8) in *.
  pose proof (Z.div_mod (a + b) 2 ltac:(lia)).
  pose proof (Z.mod_pos_bound (a + b) 2 ltac:(lia)). lia.
Qed.

Lemma length_movePiece board from to :
  length (movePiece board from to) = length board.
Proof.
  unfold movePiece. simpl.
  destruct (isCaptureMove from to); [destruct (Z.even _)|];
    rewrite ?length_setCell; done.
Qed.

Lemma promoteLanded_man board to man :
  isKingPiece man = false -> cell board to = Some man ->
  fst (getPosition to) = farthestRow man ->
  promoteLanded board to = setCell board to (Some (crown man)).
Proof.
  intros Hk Hc Hr. unfold promoteLanded, farthestRow, crown in *.
  rewrite Hc, Hr. destruct man; try done.
Qed.

Lemma promoteWhite_man board to :
  cell board to = Some WP -> fst (getPosition to) = 7 ->
  promoteWhite board to = setCell board to (Some WK).
Proof. intros Hc Hr. unfold promoteWhite. by rewrite Hc, Hr. Qed.

(** C4. A man that lands on its farthest row (row 0 for a black man,
    row 7 for a white one) is a king on the board that the mover builds,
    and the look for a further capture from the landing square is made
    on that board, with the king on it: in [makeMove] the jump chains
    (same piece selected, its captures as the valid moves) exactly when
    the king has a capture there; in [aiMove] the next jump is scheduled
    on the board with the king exactly when the king has a capture. *)
Theorem promotion_precedes_chain_check :
  (forall (st : State) (from to : Z) (man : Piece),
      cell (stBoard st) from = Some man -> isKingPiece man = false ->
      from <> to -> 0 <= to < Z.of_nat (length (stBoard st)) ->
      fst (getPosition to) = farthestRow man ->
      let crowned := setCell (movePiece (stBoard st) from to) to (Some (crown man)) in
      let st' := makeMove st from to in
      stBoard st' = crowned
      /\ cell (stBoard st') to = Some (crown man)
      /\ (isCaptureMove from to = true -> getCaptureMoves crowned to <> [] ->
          stSelectedPiece st' = Some to
          /\ stValidMoves st' = getCaptureMoves crowned to
          /\ stMustCaptureFrom st' = [to]
          /\ stIsPlayerTurn st' = stIsPlayerTurn st)
      /\ (isCaptureMove from to = false \/ getCaptureMoves crowned to = [] ->
          stMustCaptureFrom st' = []))
  /\ (forall (st : State) (currentBoard : Board) (from to : Z),
        bestMove (chooseMove currentBoard) = Some (from, to) ->
        cell currentBoard from = Some WP ->
        from <> to -> 0 <= to < Z.of_nat (length currentBoard) ->
        fst (getPosition to) = 7 ->
        let crowned := setCell (movePiece currentBoard from to) to (Some WK) in
        let st' := aiMove st currentBoard in
        stBoard st' = crowned
        /\ cell (stBoard st') to = Some WK
        /\ (isCaptureMove from to = true -> getCaptureMoves crowned to <> [] ->
            scheduled st' = Some crowned)
        /\ (isCaptureMove from to = false \/ getCaptureMoves crowned to = [] ->
            scheduled st' = None)).
Proof.
  split.
  - intros st from to man Hman Hk Hne Hto Hrow crowned st'.
    assert (cell (movePiece (stBoard st) from to) to = Some man) as Hland
      by (rewrite movePiece_to; done).
    assert (cell crowned to = Some (crown man)) as Hcr.
    { apply cell_setCell_eq. by rewrite length_movePiece. }
    assert (promoteLanded (movePiece (stBoard st) from to) to = crowned) as Hp
      by (by apply promoteLanded_man).
    subst st'. unfold makeMove. rewrite Hp.
    destruct (isCaptureMove from to) eqn:Hc; simpl.
    + destruct (getCaptureMoves crowned to) as [|c cs] eqn:Hcap; simpl.
      * destruct (countSide crowned W =? 0); [|destruct (countSide crowned B =? 0)];
          simpl; repeat split; try done; intros; done.
      * repeat split; try done. intros [?|?]; done.
    + destruct (countSide crowned W =? 0); [|destruct (countSide crowned B =? 0)];
        simpl; repeat split; try done; intros; done.
  - intros st currentBoard from to Hbest Hman Hne Hto Hrow crowned st'.
    assert (cell (movePiece currentBoard from to) to = Some WP) as Hland
      by (rewrite movePiece_to; done).
    assert (cell crowned to = Some WK) as Hcr.
    { apply cell_setCell_eq. by rewrite length_movePiece. }
    assert (promoteWhite (movePiece currentBoard from to) to = crowned) as Hp
      by (by apply promoteWhite_man).
    subst st'. unfold aiMove. rewrite Hbest, Hp.
    destruct (isCaptureMove from to) eqn:Hc; simpl.
    + destruct (getCaptureMoves crowned to) as [|c cs] eqn:Hcap; simpl.
      * destruct (_ && _); simpl; repeat split; try done; intros; done.
      * repeat split; try done. intros [?|?]; done.
    + destruct (_ && _); simpl; repeat split; try done; intros; done.
Qed.

(** The player's man on 17 jumps the white man on 10 and lands on row 0;
    as a king it can jump back over the white man on 12, which a man could
    not. The engine's man on 42 jumps to row 7 over 51 and, as a king, can
    jump back over 53. *)
Lemma promotion_precedes_chain_check_witness :
  (let st := stateOf (boardOf [(17, BP); (10, WP); (12, WP)]) in
   getCaptureMoves (movePiece (stBoard st) 17 3) 3 = []
   /\ cell (stBoard (makeMove st 17 3)) 3 = Some BK
   /\ stValidMoves (makeMove st 17 3) = [21]
   /\ stMustCaptureFrom (makeMove st 17 3) = [3])
  /\ (let board := boardOf [(42, WP); (51, BP); (53, BP)] in
      getCaptureMoves (movePiece board 42 60) 60 = []
      /\ cell (stBoard (aiMove (stateOf board) board)) 60 = Some WK
      /\ scheduled (aiMove (stateOf board) board)
         = Some (setCell (movePiece board 42 60) 60 (Some WK))).
Proof.
  destruct promotion_precedes_chain_check as [H1 H2]. split.
  - intros st.
    destruct (H1 st 17 3 BP) as (_ & Hk & Hchain & _);
      [reflexivity | reflexivity | lia | vm_compute; split; congruence
      | reflexivity |].
    destruct Hchain as (_ & Hv & Hm & _);
      [reflexivity | vm_compute; discriminate |].
    split; [vm_compute; reflexivity|]. split; [exact Hk|].
    split; [rewrite Hv; vm_compute; reflexivity | exact Hm].
  - intros board.
    destruct (H2 (stateOf board) board 42 60) as (_ & Hk & Hs & _);
      [vm_compute; reflexivity | reflexivity | lia
      | vm_compute; split; congruence | reflexivity |].
    split; [vm_compute; reflexivity|]. split; [exact Hk|].
    apply Hs; [reflexivity | vm_compute; discriminate].
Defined.

(** *** The material terms of the evaluator *)

Lemma sumPieces_ext board f g :
  (forall i piece, f i piece = g i piece) -> sumPieces board f = sumPieces board g.
Proof.
  intros H. unfold sumPieces. f_equal. apply map_ext. intros i.
  destruct (cell board i); [apply H|done].
Qed.

Lemma sumPieces_plus board f g :
  sumPieces board (fun i piece => f i piece + g i piece)
  = sumPieces board f + sumPieces board g.
Proof.
  unfold sumPieces. induction squares as [|i l IH]; simpl; [done|].
  rewrite IH. destruct (cell board i); lia.
Qed.

Lemma pieces_are_men_and_kings board s :
  sumPieces board (fun _ piece => if bool_decide (side piece = s) then 1 else 0)
  = menCount board s + kingCount board s.
Proof.
  unfold menCount, kingCount. rewrite <- sumPieces_plus.
  apply sumPieces_ext. intros _ piece.
  destruct (bool_decide (side piece = s)), (isKingPiece piece); done.
Qed.

Lemma whitePieces_split board :
  whitePieces board = menCount board W + kingCount board W.
Proof.
  rewrite <- pieces_are_men_and_kings. apply sumPieces_ext.
  intros i piece. unfold onlyWhite, isWhite. by destruct piece.
Qed.

Lemma blackPieces_split board :
  blackPieces board = menCount board B + kingCount board B.
Proof.
  rewrite <- pieces_are_men_and_kings. apply sumPieces_ext.
  intros i piece. unfold onlyBlack, isWhite. by destruct piece.
Qed.

Lemma whiteKings_count board : whiteKings board = kingCount board W.
Proof.
  apply sumPieces_ext. intros i piece. unfold onlyWhite, isWhite. by destruct piece.
Qed.

Lemma blackKings_count board : blackKings board = kingCount board B.
Proof.
  apply sumPieces_ext. intros i piece. unfold onlyBlack, isWhite.
  by destruct piece.
Qed.

(** The base value enters the value of a piece additively. *)
Lemma adjustValue_additive board i piece value :
  adjustValue board i piece value = value + adjustValue board i piece 0.
Proof.
  unfold adjustValue. destruct (getPosition i) as [row col]. cbv zeta.
  destruct (isWhite piece), (isKingPiece piece); cbn [negb andb];
    repeat match goal with
           | |- context [if ?c then _ else _] => destruct c eqn:?
           end; lia.
Qed.

(** C7, as the code has it. A man is worth 100 and a king 500 before the
    positional terms, which are added to that base; the global material
    term is 250 times the difference of the piece counts, men and kings
    alike (a king counts in [whitePieces] as a man does), and the king
    term is 400 times the difference of the king counts. With both sides
    on the board the score is the sum of the piece values and of the
    global terms. *)
Theorem material_component (board : Board) :
  (forall piece, baseValue piece = if isKingPiece piece then 500 else 100)
  /\ (forall i piece,
         pieceValue board i piece = baseValue piece + adjustValue board i piece 0)
  /\ materialDiff board
     = ((menCount board W + kingCount board W)
        - (menCount board B + kingCount board B)) * 250
  /\ kingDiff board = (kingCount board W - kingCount board B) * 400
  /\ (whitePieces board <> 0 -> blackPieces board <> 0 ->
      evaluateBoard board
      = pieceScore board
        + ((menCount board W + kingCount board W)
           - (menCount board B + kingCount board B)) * 250
        + (kingCount board W - kingCount board B) * 400
        + threatDiff board + captureDiff board + vulnerabilityDiff board
        + endgameBonus board).
Proof.
  assert (materialDiff board
          = ((menCount board W + kingCount board W)
             - (menCount board B + kingCount board B)) * 250) as Hm
    by (unfold materialDiff; by rewrite whitePieces_split, blackPieces_split).
  assert (kingDiff board = (kingCount board W - kingCount board B) * 400) as Hk
    by (unfold kingDiff; by rewrite whiteKings_count, blackKings_count).
  split; [done|]. split; [intros; apply adjustValue_additive|].
  split; [done|]. split; [done|].
  intros Hw Hb. unfold evaluateBoard.
  apply Z.eqb_neq in Hw, Hb. rewrite Hw, Hb, Hm, Hk. lia.
Qed.

Lemma material_component_witness :
  evaluateBoard initializeBoard
  = pieceScore initializeBoard
    + ((menCount initializeBoard W + kingCount initializeBoard W)
       - (menCount initializeBoard B + kingCount initializeBoard B)) * 250
    + (kingCount initializeBoard W - kingCount initializeBoard B) * 400
    + threatDiff initializeBoard + captureDiff initializeBoard
    + vulnerabilityDiff initializeBoard + endgameBonus initializeBoard.
Proof.
  apply (material_component initializeBoard); vm_compute; discriminate.
Defined.

(** C7, as the claim words it, fails on a board with a king: a white king
    against a black man gives equal piece counts, so the code adds no
    material term, where the difference of the men counts would take 250
    from the score. *)
Lemma material_term_counts_kings :
  let board := boardOf [(26, WK); (44, BP)] in
  menCount board W - menCount board B = -1
  /\ whitePieces board - blackPieces board = 0
  /\ materialDiff board = 0
  /\ materialDiff_claimed board = -250
  /\ evaluateBoard board <> evaluateBoard_claimed board.
Proof. vm_compute. repeat split; discriminate. Qed.

(** *** The selector *)

Lemma squares_elem i : i ∈ squares <-> 0 <= i < 64.
Proof.
  unfold squares. rewrite list_elem_of_In, in_map_iff. split.
  - intros (n & <- & Hn). apply in_seq in Hn. lia.
  - intros H. exists (Z.to_nat i). split; [lia|]. apply in_seq. lia.
Qed.

Lemma capturingSquares_elem board s i :
  length board = 64%nat ->
  i ∈ capturingSquares board s <->
  exists piece, (piece, i) ∈ piecesWithCaptures board (piecesOf board s).
Proof.
  intros Hlen. unfold capturingSquares, canCaptureAt.
  rewrite list_elem_of_filter, squares_elem. split.
  - intros [Hc _]. destruct (cell board i) as [piece|] eqn:Ecell; [|done].
    apply andb_true_iff in Hc as [Hs Hc]. apply bool_decide_eq_true in Hs.
    exists piece. apply piecesWithCaptures_elem. split.
    + by apply piecesOf_elem.
    + by apply hasCapture_true.
  - intros (piece & H). apply piecesWithCaptures_elem in H as [Hp Hc].
    apply piecesOf_elem in Hp as [Hcell Hs]. rewrite Hcell. split.
    + apply andb_true_iff. split; [by apply bool_decide_eq_true|].
      by apply hasCapture_true.
    + apply cell_Some_range in Hcell. lia.
Qed.

Lemma nonEmpty_iff {A C} (l : list A) (k : list C) :
  ((exists x, x ∈ l) <-> (exists y, y ∈ k)) -> nonEmpty l = nonEmpty k.
Proof.
  intros H. destruct l as [|x l], k as [|y k]; simpl; try done.
  - destruct H as [_ H]. destruct H as [z Hz]; [exists y; left|].
    by apply elem_of_nil in Hz.
  - destruct H as [H _]. destruct H as [z Hz]; [exists x; left|].
    by apply elem_of_nil in Hz.
Qed.

(** The selector and the search agree on whether a capture is forced. *)
Lemma forced_agree board :
  length board = 64%nat ->
  nonEmpty (capturingSquares board W)
  = nonEmpty (piecesWithCaptures board (piecesOf board W)).
Proof.
  intros Hlen. apply nonEmpty_iff. split.
  - intros [i Hi]. apply (capturingSquares_elem _ _ _ Hlen) in Hi as [piece H].
    by exists (piece, i).
  - intros [[piece i] H]. exists i. apply (capturingSquares_elem _ _ _ Hlen).
    by exists piece.
Qed.

Lemma aiPieces_elem board i :
  length board = 64%nat ->
  i ∈ aiPieces board <->
  exists piece, (piece, i) ∈ activePieces board (piecesOf board W).
Proof.
  intros Hlen. unfold aiPieces, activePieces.
  rewrite <- (forced_agree _ Hlen).
  destruct (nonEmpty (capturingSquares board W)).
  - by apply capturingSquares_elem.
  - rewrite list_elem_of_fmap. split.
    + intros ([piece j] & -> & H). by exists piece.
    + intros [piece H]. by exists (piece, i).
Qed.

Lemma considerMove_choice currentBoard index best move from to :
  bestMove (considerMove currentBoard index best move) = Some (from, to) ->
  bestMove best = Some (from, to) \/ (from = index /\ to = move).
Proof.
  unfold considerMove. simpl.
  destruct (_ || _); simpl; [|auto].
  intros H. inversion H. auto.
Qed.

Lemma scanPiece_choice currentBoard forced index best from to :
  bestMove (scanPiece currentBoard forced best index) = Some (from, to) ->
  bestMove best = Some (from, to)
  \/ (from = index /\ to ∈ getValidMoves currentBoard index forced).
Proof.
  unfold scanPiece. generalize (getValidMoves currentBoard index forced).
  intros moves. revert best. induction moves as [|move moves IH]; simpl; [auto|].
  intros best H. apply IH in H as [H|[-> H]].
  - apply considerMove_choice in H as [H|[-> ->]]; [auto|].
    right. split; [done|]. left.
  - right. split; [done|]. by right.
Qed.

Lemma scan_choice currentBoard forced pieces best from to :
  bestMove (foldl (scanPiece currentBoard forced) best pieces) = Some (from, to) ->
  bestMove best = Some (from, to)
  \/ (from ∈ pieces /\ to ∈ getValidMoves currentBoard from forced).
Proof.
  revert best. induction pieces as [|index pieces IH]; simpl; [auto|].
  intros best H. apply IH in H as [H|[Hin H]].
  - apply scanPiece_choice in H as [H|[-> H]]; [auto|].
    right. split; [left|done].
  - right. split; [by right|done].
Qed.

Lemma chooseMove_choice currentBoard from to :
  bestMove (chooseMove currentBoard) = Some (from, to) ->
  from ∈ aiPieces currentBoard
  /\ to ∈ getValidMoves currentBoard from
            (nonEmpty (capturingSquares currentBoard W)).
Proof.
  unfold chooseMove. intros H. by apply scan_choice in H as [H|H].
Qed.

(** The move the selector keeps is one of the legal moves of White. *)
Lemma chooseMove_legal currentBoard from to :
  length currentBoard = 64%nat ->
  bestMove (chooseMove currentBoard) = Some (from, to) ->
  (from, to) ∈ legalMoves currentBoard W.
Proof.
  intros Hlen H. apply chooseMove_choice in H as [Hp Hm].
  apply (aiPieces_elem _ _ Hlen) in Hp as [piece Hp].
  rewrite (forced_agree _ Hlen) in Hm.
  apply legalMoves_elem. by exists piece.
Qed.

(** *** One forced capture in the search *)

Lemma minimax_S board depth alpha beta isMaximizing :
  minimax board (S depth) alpha beta isMaximizing
  = let pieces := piecesOf board (if isMaximizing then W else B) in
    if negb (nonEmpty pieces)
    then (if isMaximizing then Fin (-100000) else Fin 100000)
    else
      let forced := nonEmpty (piecesWithCaptures board pieces) in
      let orderedPieces := jsSort kingsFirst (activePieces board pieces) in
      if isMaximizing then
        maxPieces (fun newBoard a b => minimax newBoard depth a b false)
                  board forced orderedPieces alpha beta NegInf
      else
        minPieces (fun newBoard a b => minimax newBoard depth a b true)
                  board forced orderedPieces alpha beta PosInf.
Proof. reflexivity. Qed.

Lemma max_NegInf e : Num.max NegInf e = e.
Proof. by destruct e. Qed.

(** A maximizer with one piece to move and one move for it returns what
    its only child returns. *)
Lemma maxPieces_single search board forced piece index move alpha beta :
  jsSort (moveOrder true index) (getValidMoves board index forced) = [move] ->
  maxPieces search board forced [(piece, index)] alpha beta NegInf
  = search (searchBoard true board index move) alpha beta.
Proof.
  intros H. simpl. rewrite H. simpl. rewrite max_NegInf.
  repeat match goal with
         | |- context [if ?c then _ else _] => destruct c; simpl
         end; done.
Qed.

(** A maximizer whose pieces have no move returns [-Infinity]. *)
Lemma maxPieces_no_moves search board forced pieces alpha beta :
  (forall piece index, (piece, index) ∈ pieces ->
                       getValidMoves board index forced = []) ->
  Num.leb beta alpha = false ->
  maxPieces search board forced pieces alpha beta NegInf = NegInf.
Proof.
  intros H Hab. induction pieces as [|[piece index] pieces IH]; simpl; [done|].
  rewrite (H piece index) by left. simpl. rewrite Hab.
  apply IH. intros p i Hi. apply (H p i). by right.
Qed.

(** C2, at the board where the code leaves the claim. The only legal
    move of White on [chainBoard] is the jump 21 -> 39, and from 39 the
    same man could jump on to 53. The search does not let it: for every
    depth and window, the maximizer's value is the minimizer's value on
    the board after the first jump, so the turn passes to Black. The
    selector does schedule a second call on that board, but the second
    call scans every white piece with a capture, and plays 7 -> 21 with
    another man. *)
Theorem search_passes_turn_after_jump :
  let newBoard := searchBoard true chainBoard 21 39 in
  legalMoves chainBoard W = [(21, 39)]
  /\ getCaptureMoves newBoard 39 = [53]
  /\ (forall depth alpha beta,
         minimax chainBoard (S depth) alpha beta true
         = minimax newBoard depth alpha beta false)
  /\ bestMove (chooseMove chainBoard) = Some (21, 39)
  /\ scheduled (aiMove (stateOf chainBoard) chainBoard) = Some newBoard
  /\ legalMoves newBoard W = [(7, 21); (39, 53)]
  /\ bestMove (chooseMove newBoard) = Some (7, 21).
Proof.
  intros newBoard.
  assert (bestMove (chooseMove chainBoard) = Some (21, 39)) as Hbest
    by (vm_compute; reflexivity).
  split; [vm_compute; reflexivity|]. split; [vm_compute; reflexivity|].
  split; [|split; [exact Hbest|split; [|split]]].
  - intros depth alpha beta. rewrite minimax_S.
    set (pieces := piecesOf chainBoard W). cbv zeta.
    replace (jsSort kingsFirst (activePieces chainBoard pieces))
      with [(WP, 21)] by (vm_compute; reflexivity).
    replace (nonEmpty (piecesWithCaptures chainBoard pieces))
      with true by (vm_compute; reflexivity).
    replace (nonEmpty pieces) with true by (vm_compute; reflexivity).
    cbn [negb].
    rewrite (maxPieces_single
               (fun board a b => minimax board depth a b false)
               chainBoard true WP 21 39);
      [reflexivity | vm_compute; reflexivity].
  - unfold aiMove. rewrite Hbest. vm_compute. reflexivity.
  - vm_compute. reflexivity.
  - vm_compute. reflexivity.
Qed.

(** C3, at the board where the code leaves the claim. [stuckBoard],
    with White to move, is reached from the initial board by the 29
    legal plies of [stuckGame], and White has a legal move on it, the
    step 7 -> 14. The search scores that move [-Infinity]: Black must
    answer 23 -> 5, taking the man, after which White still has the man
    on 8 but no move, and a maximizer with pieces but no move returns
    its initial [-Infinity]. The selector keeps a move only if it scores
    above its initial [-Infinity] (or ties as a capture or a promotion),
    so it keeps none, and [aiMove] hands the turn back without moving. *)
Theorem selector_finds_no_move :
  reachable stuckBoard W
  /\ legalMoves stuckBoard W = [(7, 14)]
  /\ legalMoves (searchBoard true stuckBoard 7 14) B = [(23, 5)]
  /\ piecesOf (searchBoard false (searchBoard true stuckBoard 7 14) 23 5) W
     = [(WP, 8)]
  /\ legalMoves (searchBoard false (searchBoard true stuckBoard 7 14) 23 5) W
     = []
  /\ minimax (searchBoard true stuckBoard 7 14) 9 NegInf PosInf false = NegInf
  /\ bestMove (chooseMove stuckBoard) = None
  /\ stBoard (aiMove (stateOf stuckBoard) stuckBoard) = stuckBoard
  /\ stIsPlayerTurn (aiMove (stateOf stuckBoard) stuckBoard) = true.
Proof.
  split.
  - exists W, stuckGame. vm_compute. reflexivity.
  - vm_compute. repeat split; reflexivity.
Qed.

(** *** Pruning in the checkers search *)

Section SearchAsLoops.
Variable search : Board -> num -> num -> num.
Variable board : Board.

Lemma abMax_app (l1 l2 : list Board) alpha beta m :
  Num.leb beta alpha = false ->
  abMax search (l1 ++ l2) alpha beta m
  = let '(m1, a1) := abMax search l1 alpha beta m in
    if Num.leb beta a1 then (m1, a1) else abMax search l2 a1 beta m1.
Proof.
  revert alpha m. induction l1 as [|c l1 IH]; intros alpha m Hab; simpl.
  - by rewrite Hab.
  - destruct (Num.leb beta (Num.max alpha (search c alpha beta))) eqn:E.
    + by rewrite E.
    + by apply IH.
Qed.

Lemma abMin_app (l1 l2 : list Board) alpha beta m :
  Num.leb beta alpha = false ->
  abMin search (l1 ++ l2) alpha beta m
  = let '(m1, b1) := abMin search l1 alpha beta m in
    if Num.leb b1 alpha then (m1, b1) else abMin search l2 alpha b1 m1.
Proof.
  revert beta m. induction l1 as [|c l1 IH]; intros beta m Hab; simpl.
  - by rewrite Hab.
  - destruct (Num.leb (Num.min beta (search c alpha beta)) alpha) eqn:E.
    + by rewrite E.
    + by apply IH.
Qed.

Lemma maxMoves_abMax index moves alpha beta m :
  maxMoves search board index moves alpha beta m
  = abMax search (map (searchBoard true board index) moves) alpha beta m.
Proof.
  revert alpha m. induction moves as [|move moves IH]; intros alpha m; simpl;
    [done|].
  destruct (Num.leb beta _); [done|apply IH].
Qed.

Lemma minMoves_abMin index moves alpha beta m :
  minMoves search board index moves alpha beta m
  = abMin search (map (searchBoard false board index) moves) alpha beta m.
Proof.
  revert beta m. induction moves as [|move moves IH]; intros beta m; simpl;
    [done|].
  destruct (Num.leb _ alpha); [done|apply IH].
Qed.

(** The two nested loops of a node are one loop over its children. *)
Lemma maxPieces_abMax forced pieces alpha beta m :
  Num.leb beta alpha = false ->
  maxPieces search board forced pieces alpha beta m
  = fst (abMax search (searchChildren true board forced pieces) alpha beta m).
Proof.
  revert alpha m. induction pieces as [|[piece index] pieces IH];
    intros alpha m Hab; simpl; [done|].
  rewrite abMax_app by done. rewrite maxMoves_abMax.
  destruct (abMax search _ alpha beta m) as [m1 a1].
  destruct (Num.leb beta a1) eqn:E; [done|by apply IH].
Qed.

Lemma minPieces_abMin forced pieces alpha beta m :
  Num.leb beta alpha = false ->
  minPieces search board forced pieces alpha beta m
  = fst (abMin search (searchChildren false board forced pieces) alpha beta m).
Proof.
  revert beta m. induction pieces as [|[piece index] pieces IH];
    intros beta m Hab; simpl; [done|].
  rewrite abMin_app by done. rewrite minMoves_abMin.
  destruct (abMin search _ alpha beta m) as [m1 b1].
  destruct (Num.leb b1 alpha) eqn:E; [done|by apply IH].
Qed.
End SearchAsLoops.

(** The children of a node of the search are the boards after the legal
    moves of the side to move, and nothing else. *)
Lemma searchChildren_elem (isMaximizing : bool) (board child : Board) :
  let s := if isMaximizing then W else B in
  let pieces := piecesOf board s in
  child ∈ searchChildren isMaximizing board
            (nonEmpty (piecesWithCaptures board pieces))
            (jsSort kingsFirst (activePieces board pieces))
  <-> exists from to,
        (from, to) ∈ legalMoves board s
        /\ child = searchBoard isMaximizing board from to.
Proof.
  intros s pieces. unfold searchChildren.
  rewrite list_elem_of_In, in_flat_map. split.
  - intros ([piece index] & Hp & Hc).
    apply in_map_iff in Hc as (move & <- & Hm).
    apply list_elem_of_In, jsSort_elem in Hp, Hm.
    exists index, move. split; [|done].
    apply legalMoves_elem. by exists piece.
  - intros (from & to & Hl & ->).
    apply legalMoves_elem in Hl as (piece & Hp & Hm).
    exists (piece, from). split.
    + by apply list_elem_of_In, jsSort_elem.
    + apply in_map, list_elem_of_In, jsSort_elem. done.
Qed.

(** In any window the checkers search keeps the promise of [bounded]
    towards the search without pruning. *)
Lemma minimax_bounded depth :
  forall board isMaximizing alpha beta,
    Num.leb beta alpha = false ->
    bounded alpha beta (minimax_unpruned board depth isMaximizing)
            (minimax board depth alpha beta isMaximizing).
Proof.
  induction depth as [|depth IH]; intros board isMaximizing alpha beta Hab.
  - apply AlphaBeta.bounded_refl.
  - rewrite minimax_S. simpl minimax_unpruned. cbv zeta.
    destruct (negb (nonEmpty (piecesOf board (if isMaximizing then W else B)))).
    { apply AlphaBeta.bounded_refl. }
    destruct isMaximizing.
    + rewrite maxPieces_abMax by done.
      apply (AlphaBeta.abMax_sound
               (fun child a b => minimax child depth a b false)
               (fun child => minimax_unpruned child depth false));
        [|done].
      intros child a b Hw. by apply IH.
    + rewrite minPieces_abMin by done.
      apply (AlphaBeta.abMin_sound
               (fun child a b => minimax child depth a b true)
               (fun child => minimax_unpruned child depth true));
        [|done].
      intros child a b Hw. by apply IH.
Qed.

(** The checkers half of the alpha-beta equivalence: called with the full
    window, as the selector calls it, the search returns the value of the
    search without pruning, for every board, depth and role. *)
Theorem checkers_pruning_keeps_value (board : Board) (depth : nat)
    (isMaximizing : bool) :
  minimax board depth NegInf PosInf isMaximizing
  = minimax_unpruned board depth isMaximizing.
Proof. apply AlphaBeta.bounded_full. by apply minimax_bounded. Qed.

(** *** The opening position *)

(** On the initial board White has no capture, and its legal moves are
    the single steps of the men of row 2 to row 3. *)
Example opening_moves :
  legalMoves initializeBoard W
  = [(17, 24); (17, 26); (19, 26); (19, 28); (21, 28); (21, 30); (23, 30)]
  /\ capturingSquares initializeBoard W = [].
Proof. vm_compute. split; reflexivity. Qed.

(** *** Squares and their coordinates *)

(** X10. On the 64 squares [getPosition] and [getIndex] are inverse to
    each other, and [getIndex] answers -1 for every row or column off
    the board. *)
Theorem index_position_round_trip :
  (forall index, 0 <= index < 64 ->
     let '(row, col) := getPosition index in
     0 <= row < 8 /\ 0 <= col < 8 /\ getIndex row col = index)
  /\ (forall row col, 0 <= row < 8 -> 0 <= col < 8 ->
        0 <= getIndex row col < 64
        /\ getPosition (getIndex row col) = (row, col))
  /\ (forall row col, ~ (0 <= row < 8 /\ 0 <= col < 8) -> getIndex row col = -1).
Proof.
  split; [|split].
  - intros index Hi. unfold getPosition.
    pose proof (Z.div_mod index 8 ltac:(lia)) as Hdm.
    pose proof (Z.mod_pos_bound index 8 ltac:(lia)) as Hm.
    rewrite Z.rem_mod_nonneg by lia.
    assert (0 <= index / 8 < 8) as Hr
      by (split; [apply Z.div_pos; lia|apply Z.div_lt_upper_bound; lia]).
    split; [done|]. split; [lia|].
    unfold getIndex.
    destruct (index / 8 <? 0) eqn:E1, (8 <=? index / 8) eqn:E2,
             (index mod 8 <? 0) eqn:E3, (8 <=? index mod 8) eqn:E4;
      simpl; lia.
  - intros row col Hr Hc.
    assert (getIndex row col = row * 8 + col) as ->.
    { unfold getIndex.
      destruct (row <? 0) eqn:E1, (8 <=? row) eqn:E2,
               (col <? 0) eqn:E3, (8 <=? col) eqn:E4; simpl; lia. }
    split; [lia|]. by apply getPosition_square.
  - intros row col Hout. unfold getIndex.
    destruct (row <? 0) eqn:E1, (8 <=? row) eqn:E2,
             (col <? 0) eqn:E3, (8 <=? col) eqn:E4; simpl; lia.
Qed.

(** *** The shape of the generated moves *)

Lemma getPosition_inside index :
  0 <= index -> getPosition index = (index / 8, index mod 8).
Proof. intros H. unfold getPosition. by rewrite Z.rem_mod_nonneg by lia. Qed.

Lemma directionsOf_man piece dr dc :
  isKingPiece piece = false -> (dr, dc) ∈ directionsOf piece ->
  dr = (if decide (side piece = B) then -1 else 1).
Proof.
  unfold directionsOf, blackDirections, whiteDirections. intros -> H.
  destruct (decide (side piece = B));
    repeat (apply elem_of_cons in H as [H|H]; [by inversion H|]);
    by apply elem_of_nil in H.
Qed.

(** The geometry of a capture: the direction of the jump, the square
    jumped over and the landing square. *)
Lemma capture_shape board from to piece :
  length board = 64%nat -> cell board from = Some piece ->
  to ∈ getCaptureMoves board from ->
  exists dr dc,
    (dr, dc) ∈ directionsOf piece /\ Z.abs dr = 1 /\ Z.abs dc = 1
    /\ 0 <= from < 64 /\ 0 <= to < 64
    /\ getPosition from = (from / 8, from mod 8)
    /\ getPosition to = (from / 8 + dr * 2, from mod 8 + dc * 2)
    /\ to = from + 16 * dr + 2 * dc
    /\ cell board to = None
    /\ 0 <= from + 8 * dr + dc < 64
    /\ getIndex (from / 8 + dr) (from mod 8 + dc) = from + 8 * dr + dc
    /\ exists midPiece, cell board (from + 8 * dr + dc) = Some midPiece
                        /\ side midPiece <> side piece.
Proof.
  intros Hlen Hpiece Hto.
  apply cell_Some_range in Hpiece as Hfrom. rewrite Hlen in Hfrom.
  apply getCaptureMoves_inv in Hto
    as (piece' & dr & dc & Hp & Hd & Hland & midPiece & Hmid & Hside).
  assert (piece' = piece) as -> by congruence.
  pose proof (directionsOf_unit _ _ _ Hd) as [Hdr Hdc].
  apply landing_facts in Hland as (Hto & Hnone & Hpos & Hvalid).
  rewrite Z.rem_mod_nonneg in * by lia.
  apply cell_Some_range in Hmid as Hmidr. rewrite Hlen in Hmidr.
  assert (getIndex (from / 8 + dr) (from mod 8 + dc) <> -1) as Hin by lia.
  apply getIndex_inv in Hin as (Hr & Hc & Hi).
  pose proof (Z.div_mod from 8 ltac:(lia)) as Hdm.
  pose proof (Z.div_mod to 8 ltac:(lia)) as Hdm'.
  pose proof Hpos as Hpos'. rewrite getPosition_inside in Hpos' by lia.
  injection Hpos' as Hrow Hcol.
  exists dr, dc. rewrite Hi in Hmid |- *.
  replace ((from / 8 + dr) * 8 + (from mod 8 + dc)) with (from + 8 * dr + dc)
    in * by lia.
  repeat split; try done; try lia.
  - apply getPosition_inside; lia.
  - exists midPiece. done.
Qed.

(** X11. A capture is a jump over an opposing piece: the destination
    lies two rows and two columns from the origin, and the square in
    between, the one the move clears, holds a piece of the other
    side. *)
Theorem capture_jumps_over_an_opponent (board : Board) (from to : Z)
    (piece : Piece) :
  length board = 64%nat -> cell board from = Some piece ->
  to ∈ getCaptureMoves board from ->
  let '(fromRow, fromCol) := getPosition from in
  let '(toRow, toCol) := getPosition to in
  let mid := getIndex ((fromRow + toRow) / 2) ((fromCol + toCol) / 2) in
  Z.abs (toRow - fromRow) = 2 /\ Z.abs (toCol - fromCol) = 2
  /\ 0 <= mid < 64 /\ mid <> from /\ mid <> to
  /\ exists midPiece, cell board mid = Some midPiece
                      /\ side midPiece <> side piece.
Proof.
  intros Hlen Hpiece Hto.
  destruct (capture_shape _ _ _ _ Hlen Hpiece Hto)
    as (dr & dc & _ & Hdr & Hdc & Hfrom & Hto' & -> & -> & Hsum & _ & Hmid
        & Hidx & midPiece & Hm & Hside).
  assert ((from / 8 + (from / 8 + dr * 2)) / 2 = from / 8 + dr) as ->
    by (symmetry; apply Z.div_unique with (r := 0); lia).
  assert ((from mod 8 + (from mod 8 + dc * 2)) / 2 = from mod 8 + dc) as ->
    by (symmetry; apply Z.div_unique with (r := 0); lia).
  cbv zeta. rewrite Hidx.
  repeat split; try lia.
  exists midPiece. done.
Qed.

Lemma capture_jumps_over_an_opponent_witness :
  let board := boardOf [(17, WP); (26, BP)] in
  Z.abs (4 - 2) = 2 /\ Z.abs (3 - 1) = 2
  /\ 0 <= 26 < 64 /\ 26 <> 17 /\ 26 <> 35
  /\ exists midPiece, cell board 26 = Some midPiece /\ side midPiece <> side WP.
Proof.
  apply (capture_jumps_over_an_opponent (boardOf [(17, WP); (26, BP)]) 17 35 WP);
    [reflexivity|reflexivity|].
  vm_compute. left.
Defined.

(** X12. Every generated move is diagonal, one row away for a step and
    two for a capture; a man only moves towards the far side, a white
    man to higher rows and a black man to lower ones. *)
Theorem men_only_move_forward (board : Board) (from to : Z)
    (capturesOnly : bool) (piece : Piece) :
  length board = 64%nat -> cell board from = Some piece ->
  to ∈ getValidMoves board from capturesOnly ->
  let rows := fst (getPosition to) - fst (getPosition from) in
  let cols := snd (getPosition to) - snd (getPosition from) in
  Z.abs cols = Z.abs rows
  /\ (Z.abs rows = 2 <-> to ∈ getCaptureMoves board from)
  /\ (Z.abs rows = 1 \/ Z.abs rows = 2)
  /\ (isKingPiece piece = false ->
      if decide (side piece = B) then rows < 0 else 0 < rows).
Proof.
  intros Hlen Hpiece Hto rows cols.
  apply cell_Some_range in Hpiece as Hfrom. rewrite Hlen in Hfrom.
  assert (getPosition from = (from / 8, from mod 8)) as Hpf
    by (apply getPosition_inside; lia).
  apply getValidMoves_inv in Hto as [Hcap|(-> & Hnocap & piece' & dr & dc & Hp & Hd & Hland)].
  - pose proof Hcap as Hcap'.
    apply getCaptureMoves_inv in Hcap
      as (piece' & dr & dc & Hp & Hd & Hland & _).
    assert (piece' = piece) as -> by congruence.
    apply landing_facts in Hland as (Hto & _ & Hpos & _).
    rewrite Z.rem_mod_nonneg in Hpos by lia.
    subst rows cols. rewrite Hpf, Hpos. cbn [fst snd].
    pose proof (directionsOf_unit _ _ _ Hd) as [Hdr Hdc].
    repeat split; try lia; try done.
    intros Hman. rewrite (directionsOf_man _ _ _ Hman Hd).
    destruct (decide (side piece = B)); lia.
  - assert (piece' = piece) as -> by congruence.
    apply landing_facts in Hland as (Hto & _ & Hpos & _).
    rewrite Z.rem_mod_nonneg in Hpos by lia.
    subst rows cols. rewrite Hpf, Hpos. cbn [fst snd].
    pose proof (directionsOf_unit _ _ _ Hd) as [Hdr Hdc].
    repeat split; try lia.
    + rewrite Hnocap. intros H. by apply elem_of_nil in H.
    + intros Hman. rewrite (directionsOf_man _ _ _ Hman Hd).
      destruct (decide (side piece = B)); lia.
Qed.

Lemma men_only_move_forward_witness :
  let rows := fst (getPosition 26) - fst (getPosition 17) in
  let cols := snd (getPosition 26) - snd (getPosition 17) in
  Z.abs cols = Z.abs rows
  /\ (Z.abs rows = 2 <-> 26 ∈ getCaptureMoves initializeBoard 17)
  /\ (Z.abs rows = 1 \/ Z.abs rows = 2)
  /\ (isKingPiece WP = false ->
      if decide (side WP = B) then rows < 0 else 0 < rows).
Proof.
  apply (men_only_move_forward initializeBoard 17 26 false WP);
    [reflexivity|reflexivity|].
  vm_compute. right. left.
Defined.

(** *** What a move changes on the board *)

Lemma legal_move_shape board s from to :
  length board = 64%nat -> (from, to) ∈ legalMoves board s ->
  exists piece,
    cell board from = Some piece /\ side piece = s
    /\ 0 <= from < 64 /\ 0 <= to < 64 /\ from <> to /\ cell board to = None
    /\ ((isCaptureMove from to = true /\ to ∈ getCaptureMoves board from)
        \/ (isCaptureMove from to = false /\ getCaptureMoves board from = [])).
Proof.
  intros Hlen Hlegal.
  apply legalMoves_elem in Hlegal as (piece & Hactive & Hmove).
  assert ((piece, from) ∈ piecesOf board s) as Hp.
  { unfold activePieces in Hactive.
    destruct (nonEmpty _); [|done].
    by apply piecesWithCaptures_elem in Hactive as [? _]. }
  apply piecesOf_elem in Hp as [Hcell Hside].
  apply cell_Some_range in Hcell as Hfrom. rewrite Hlen in Hfrom.
  destruct (generated_landing board from _ to (or_introl Hmove))
    as (row & col & Hland).
  apply landing_facts in Hland as (Hto & Hnone & _ & _).
  exists piece. repeat split; try done; try lia.
  { intros ->. congruence. }
  pose proof Hmove as Hmove'.
  apply getValidMoves_inv in Hmove as [Hcap|(Hforced & Hnocap & _)].
  - left. split; [by apply (capture_is_jump board)|done].
  - right. split; [|done]. rewrite Hforced in Hmove'.
    by apply (step_is_not_jump board).
Qed.

Lemma half_exact a m : a = 2 * m -> a / 2 = m.
Proof. intros ->. rewrite Z.mul_comm. apply Z.div_mul. lia. Qed.

(** The board after a legal move, written out: a step moves the piece,
    a capture also clears the square halfway. *)
Lemma movePiece_legal board s from to :
  length board = 64%nat -> (from, to) ∈ legalMoves board s ->
  movePiece board from to
  = let moved := setCell (setCell board to (cell board from)) from None in
    if isCaptureMove from to then setCell moved ((from + to) / 2) None else moved.
Proof.
  intros Hlen Hlegal.
  destruct (legal_move_shape _ _ _ _ Hlen Hlegal)
    as (piece & Hcell & Hside & Hfrom & Hto & Hne & Hnone & Hkind).
  unfold movePiece. cbv zeta.
  destruct Hkind as [[Hjump Hcap]|[Hstep _]].
  - destruct (capture_shape _ _ _ _ Hlen Hcell Hcap)
      as (dr & dc & _ & Hdr & Hdc & _ & _ & -> & -> & Hsum & _ & Hmid & Hidx & _).
    rewrite Hjump.
    assert (Z.even (from mod 8 + (from mod 8 + dc * 2)) = true) as ->.
    { rewrite Z.even_spec. exists (from mod 8 + dc). lia. }
    rewrite (half_exact _ (from / 8 + dr)) by lia.
    rewrite (half_exact _ (from mod 8 + dc)) by lia.
    rewrite Hidx. f_equal. symmetry. apply half_exact. lia.
  - rewrite Hstep. by destruct (getPosition from), (getPosition to).
Qed.

(** X13. A legal move changes the origin, which becomes empty, the
    destination, which receives the piece, and for a capture the square
    halfway, which becomes empty; every other square keeps what it
    held. *)
Theorem move_changes_only_its_squares (board : Board) (s : Side) (from to : Z) :
  length board = 64%nat -> (from, to) ∈ legalMoves board s ->
  let newBoard := movePiece board from to in
  length newBoard = 64%nat
  /\ cell newBoard from = None
  /\ cell newBoard to = cell board from
  /\ (isCaptureMove from to = true -> cell newBoard ((from + to) / 2) = None)
  /\ forall i, i <> from -> i <> to ->
               (isCaptureMove from to = true -> i <> (from + to) / 2) ->
               cell newBoard i = cell board i.
Proof.
  intros Hlen Hlegal newBoard. subst newBoard.
  rewrite (movePiece_legal _ _ _ _ Hlen Hlegal). cbv zeta.
  destruct (legal_move_shape _ _ _ _ Hlen Hlegal)
    as (piece & Hcell & Hside & Hfrom & Hto & Hne & Hnone & Hkind).
  destruct Hkind as [[Hjump Hcap]|[Hstep _]].
  - destruct (capture_shape _ _ _ _ Hlen Hcell Hcap)
      as (dr & dc & _ & Hdr & Hdc & _ & _ & _ & _ & Hsum & _ & Hmid & _ & _).
    assert ((from + to) / 2 = from + 8 * dr + dc) as Hhalf
      by (apply half_exact; lia).
    rewrite Hjump, Hhalf. repeat split.
    + by rewrite !length_setCell.
    + rewrite cell_setCell_ne by lia.
      apply cell_setCell_eq. rewrite length_setCell. lia.
    + rewrite cell_setCell_ne by lia. rewrite cell_setCell_ne by lia.
      apply cell_setCell_eq. lia.
    + intros _. apply cell_setCell_eq. rewrite !length_setCell. lia.
    + intros i Hi1 Hi2 Hi3. specialize (Hi3 eq_refl).
      by rewrite !cell_setCell_ne by lia.
  - rewrite Hstep. repeat split.
    + by rewrite !length_setCell.
    + apply cell_setCell_eq. rewrite length_setCell. lia.
    + rewrite cell_setCell_ne by lia. apply cell_setCell_eq. lia.
    + done.
    + intros i Hi1 Hi2 _. by rewrite !cell_setCell_ne by lia.
Qed.

Lemma move_changes_only_its_squares_witness :
  let newBoard := movePiece initializeBoard 17 26 in
  length newBoard = 64%nat
  /\ cell newBoard 17 = None
  /\ cell newBoard 26 = cell initializeBoard 17
  /\ (isCaptureMove 17 26 = true -> cell newBoard ((17 + 26) / 2) = None)
  /\ forall i, i <> 17 -> i <> 26 ->
               (isCaptureMove 17 26 = true -> i <> (17 + 26) / 2) ->
               cell newBoard i = cell initializeBoard i.
Proof.
  apply (move_changes_only_its_squares initializeBoard W 17 26); [reflexivity|].
  vm_compute. right. left.
Defined.

(** *** Counting the pieces *)

Lemma piecesOf_length_shift (g : nat -> nat) (board : Board) s :
  length (omap (fun '(i, p) =>
                  match p with
                  | Some piece =>
                      if decide (side piece = s) then Some (piece, Z.of_nat i)
                      else None
                  | None => None
                  end)
               (imap (fun i p => (g i, p)) board))
  = sum_list_with (belongs s) board.
Proof.
  revert g. induction board as [|p board IH]; intros g; [done|].
  rewrite imap_cons. cbn [sum_list_with].
  specialize (IH (g ∘ S)).
  change (imap ((fun i p => (g i, p)) ∘ S) board)
    with (imap (fun i p => ((g ∘ S) i, p)) board).
  rewrite <- IH.
  destruct p as [piece|]; simpl; [|done].
  destruct (decide (side piece = s)); done.
Qed.

Lemma countSide_sum board s :
  countSide board s = Z.of_nat (sum_list_with (belongs s) board).
Proof.
  unfold countSide, piecesOf. f_equal. apply (piecesOf_length_shift id).
Qed.

Lemma sum_list_with_insert {A} (f : A -> nat) (l : list A) n x y :
  l !! n = Some x ->
  (sum_list_with f (<[n := y]> l) + f x = sum_list_with f l + f y)%nat.
Proof.
  revert n. induction l as [|a l IH]; intros n Hn; [done|].
  destruct n as [|n]; simpl in *.
  - simplify_eq. lia.
  - specialize (IH n Hn). lia.
Qed.

Lemma countSide_setCell board i v s :
  0 <= i < Z.of_nat (length board) ->
  countSide (setCell board i v) s
  = countSide board s - Z.of_nat (belongs s (cell board i))
    + Z.of_nat (belongs s v).
Proof.
  intros Hi. rewrite !countSide_sum. unfold setCell, cell.
  destruct (i <? 0) eqn:E; [lia|].
  destruct (board !! Z.to_nat i) as [x|] eqn:El.
  - pose proof (sum_list_with_insert (belongs s) board _ x v El). simpl. lia.
  - apply lookup_ge_None in El. lia.
Qed.

Lemma countSide_promoteLanded board to s :
  countSide (promoteLanded board to) s = countSide board s.
Proof.
  unfold promoteLanded. cbv zeta.
  destruct (bool_decide (cell board to = Some BP) && _) eqn:E1.
  - apply andb_true_iff in E1 as [E1 _]. apply bool_decide_eq_true in E1.
    apply cell_Some_range in E1 as Hto.
    rewrite countSide_setCell, E1 by done. cbn [belongs side].
    destruct (decide (B = s)); lia.
  - destruct (bool_decide (cell board to = Some WP) && _) eqn:E2; [|done].
    apply andb_true_iff in E2 as [E2 _]. apply bool_decide_eq_true in E2.
    apply cell_Some_range in E2 as Hto.
    rewrite countSide_setCell, E2 by done. cbn [belongs side].
    destruct (decide (W = s)); lia.
Qed.

(** X14. A legal move keeps the number of pieces of the side that
    moves; a capture takes exactly one piece from the other side and a
    step takes none. Promotion changes neither count. *)
Theorem capture_removes_exactly_one_piece (board : Board) (s : Side)
    (from to : Z) :
  length board = 64%nat -> (from, to) ∈ legalMoves board s ->
  let newBoard := promoteLanded (movePiece board from to) to in
  countSide newBoard s = countSide board s
  /\ countSide newBoard (opponent s)
     = countSide board (opponent s) - (if isCaptureMove from to then 1 else 0).
Proof.
  intros Hlen Hlegal newBoard. subst newBoard.
  rewrite !countSide_promoteLanded.
  rewrite (movePiece_legal _ _ _ _ Hlen Hlegal). cbv zeta.
  destruct (legal_move_shape _ _ _ _ Hlen Hlegal)
    as (piece & Hcell & Hside & Hfrom & Hto & Hne & Hnone & Hkind).
  assert (forall t,
            countSide (setCell (setCell board to (cell board from)) from None) t
            = countSide board t) as Hmoved.
  { intros t. rewrite countSide_setCell by (rewrite length_setCell; lia).
    rewrite cell_setCell_ne by lia.
    rewrite countSide_setCell by lia.
    rewrite Hnone, Hcell. cbn [belongs]. lia. }
  destruct Hkind as [[Hjump Hcap]|[Hstep _]].
  - destruct (capture_shape _ _ _ _ Hlen Hcell Hcap)
      as (dr & dc & _ & Hdr & Hdc & _ & _ & _ & _ & Hsum & _ & Hmid & _
          & midPiece & Hm & Hother).
    assert ((from + to) / 2 = from + 8 * dr + dc) as Hhalf
      by (apply half_exact; lia).
    rewrite Hjump, Hhalf.
    rewrite !(countSide_setCell (setCell _ from None))
      by (rewrite !length_setCell; lia).
    rewrite !Hmoved. rewrite !cell_setCell_ne by lia.
    rewrite Hm. cbn [belongs]. rewrite <- Hside.
    destruct (decide (side midPiece = side piece)) as [|_]; [done|].
    destruct (decide (side midPiece = opponent (side piece))) as [_|E];
      [|by destruct (side piece), (side midPiece)].
    lia.
  - rewrite Hstep, !Hmoved. lia.
Qed.

Lemma capture_removes_exactly_one_piece_witness :
  let board := boardOf [(17, WP); (26, BP); (62, BP)] in
  let newBoard := promoteLanded (movePiece board 17 35) 35 in
  countSide newBoard W = countSide board W
  /\ countSide newBoard (opponent W)
     = countSide board (opponent W) - (if isCaptureMove 17 35 then 1 else 0).
Proof.
  apply (capture_removes_exactly_one_piece
           (boardOf [(17, WP); (26, BP); (62, BP)]) W 17 35); [reflexivity|].
  vm_compute. left.
Defined.

(** *** A side that cannot move *)

Lemma legalMoves_nil board s :
  legalMoves board s = [] <->
  forall piece index,
    (piece, index) ∈ activePieces board (piecesOf board s) ->
    getValidMoves board index
      (nonEmpty (piecesWithCaptures board (piecesOf board s))) = [].
Proof.
  split.
  - intros Hnil piece index Hin.
    destruct (getValidMoves board index _) as [|move moves] eqn:E; [done|].
    assert ((index, move) ∈ legalMoves board s) as H.
    { apply legalMoves_elem. exists piece. split; [done|]. rewrite E. left. }
    rewrite Hnil in H. by apply elem_of_nil in H.
  - intros H. destruct (legalMoves board s) as [|[from to] rest] eqn:E; [done|].
    assert ((from, to) ∈ legalMoves board s) as Hin by (rewrite E; left).
    apply legalMoves_elem in Hin as (piece & Hp & Hm).
    rewrite (H _ _ Hp) in Hm. by apply elem_of_nil in Hm.
Qed.

Lemma maxPieces_blocked search board forced pieces alpha beta :
  (forall piece index, (piece, index) ∈ pieces ->
                       getValidMoves board index forced = []) ->
  maxPieces search board forced pieces alpha beta NegInf = NegInf.
Proof.
  intros H. induction pieces as [|[piece index] pieces IH]; simpl; [done|].
  rewrite (H piece index) by left. simpl.
  destruct (Num.leb beta alpha); [done|].
  apply IH. intros p i Hi. apply (H p i). by right.
Qed.

Lemma minPieces_blocked search board forced pieces alpha beta :
  (forall piece index, (piece, index) ∈ pieces ->
                       getValidMoves board index forced = []) ->
  minPieces search board forced pieces alpha beta PosInf = PosInf.
Proof.
  intros H. induction pieces as [|[piece index] pieces IH]; simpl; [done|].
  rewrite (H piece index) by left. simpl.
  destruct (Num.leb beta alpha); [done|].
  apply IH. intros p i Hi. apply (H p i). by right.
Qed.

(** X15. When the side to move has no legal move, the search at any
    positive depth and with any window returns a fixed value: [-100000]
    or [100000] when the side has no piece left, and [-Infinity] or
    [Infinity] when it has pieces that are all blocked. *)
Theorem search_value_of_a_side_without_moves (board : Board) (depth : nat)
    (alpha beta : num) (isMaximizing : bool) :
  let s := if isMaximizing then W else B in
  legalMoves board s = [] ->
  minimax board (S depth) alpha beta isMaximizing
  = if nonEmpty (piecesOf board s)
    then (if isMaximizing then NegInf else PosInf)
    else (if isMaximizing then Fin (-100000) else Fin 100000).
Proof.
  intros s Hnil. rewrite minimax_S. cbv zeta. fold s.
  destruct (nonEmpty (piecesOf board s)); [|done]. cbn [negb].
  pose proof (proj1 (legalMoves_nil board s) Hnil) as H.
  destruct isMaximizing.
  - apply maxPieces_blocked. intros piece index Hin.
    apply jsSort_elem in Hin. by apply (H piece).
  - apply minPieces_blocked. intros piece index Hin.
    apply jsSort_elem in Hin. by apply (H piece).
Qed.

Lemma search_value_of_a_side_without_moves_witness :
  minimax (boardOf [(7, WP); (14, BP); (21, BP)]) 3 (Fin (-5)) (Fin 5) true
  = NegInf.
Proof.
  apply (search_value_of_a_side_without_moves
           (boardOf [(7, WP); (14, BP); (21, BP)]) 2 (Fin (-5)) (Fin 5) true).
  reflexivity.
Defined.

(** *** The engine's move *)

Lemma scan_blocked currentBoard forced pieces best :
  (forall index, index ∈ pieces -> getValidMoves currentBoard index forced = []) ->
  foldl (scanPiece currentBoard forced) best pieces = best.
Proof.
  revert best. induction pieces as [|index pieces IH]; intros best H; [done|].
  cbn [foldl]. unfold scanPiece at 2. rewrite (H index) by left. cbn [foldl].
  apply IH. intros i Hi. apply H. by right.
Qed.

Lemma chooseMove_blocked currentBoard :
  length currentBoard = 64%nat -> legalMoves currentBoard W = [] ->
  bestMove (chooseMove currentBoard) = None.
Proof.
  intros Hlen Hnil. unfold chooseMove. cbv zeta.
  rewrite scan_blocked; [done|].
  intros index Hin. apply (aiPieces_elem _ _ Hlen) in Hin as [piece Hp].
  rewrite (forced_agree _ Hlen).
  by apply (proj1 (legalMoves_nil currentBoard W) Hnil piece).
Qed.

(** X16. The board [aiMove] leaves is the board of the state, when the
    selector kept no move, or else the given board after a legal move of
    White, with a man that reached row 7 crowned. *)
Theorem engine_plays_a_legal_move (st : State) (currentBoard : Board) :
  length currentBoard = 64%nat ->
  stBoard (aiMove st currentBoard) = stBoard st
  \/ exists from to,
       (from, to) ∈ legalMoves currentBoard W
       /\ stBoard (aiMove st currentBoard)
          = promoteWhite (movePiece currentBoard from to) to.
Proof.
  intros Hlen. unfold aiMove.
  destruct (bestMove (chooseMove currentBoard)) as [[from to]|] eqn:E; [|by left].
  right. exists from, to. split; [by apply chooseMove_legal|].
  cbv zeta.
  destruct (isCaptureMove from to && _); [done|].
  by destruct (negb _ && negb _).
Qed.

Lemma engine_plays_a_legal_move_witness :
  let st := stateOf chainBoard in
  stBoard (aiMove st chainBoard) = stBoard st
  \/ exists from to,
       (from, to) ∈ legalMoves chainBoard W
       /\ stBoard (aiMove st chainBoard)
          = promoteWhite (movePiece chainBoard from to) to.
Proof. apply (engine_plays_a_legal_move (stateOf chainBoard)). reflexivity. Defined.

(** X17. When White has no legal move, [aiMove] changes neither the
    board nor the status nor the scores: it hands the turn to the player
    and stops thinking, and no win is counted for anyone. *)
Theorem engine_without_moves_passes (st : State) (currentBoard : Board) :
  length currentBoard = 64%nat -> legalMoves currentBoard W = [] ->
  aiMove st currentBoard
  = mkState (stBoard st) true (stGameStatus st) (stSelectedPiece st)
            (stValidMoves st) (stPlayerScore st) (stAiScore st) false
            (stMustCaptureFrom st) None.
Proof.
  intros Hlen Hnil. unfold aiMove.
  by rewrite (chooseMove_blocked _ Hlen Hnil).
Qed.

Lemma engine_without_moves_passes_witness :
  let board := boardOf [(7, WP); (14, BP); (21, BP)] in
  let st := mkState board false playing None [] 2 3 true [] (Some board) in
  aiMove st board = mkState board true playing None [] 2 3 false [] None.
Proof.
  apply (engine_without_moves_passes
           (mkState (boardOf [(7, WP); (14, BP); (21, BP)]) false playing None []
                    2 3 true [] (Some (boardOf [(7, WP); (14, BP); (21, BP)]))));
    reflexivity.
Defined.

(** *** The end of a game *)

Lemma countSide_zero board s : countSide board s = 0 -> piecesOf board s = [].
Proof.
  unfold countSide. intros H. destruct (piecesOf board s); [done|].
  cbn [length] in H. lia.
Qed.

(** Without a piece of the other side on the board nothing can be
    captured. *)
Lemma no_opponent_no_capture board index piece :
  cell board index = Some piece -> piecesOf board (opponent (side piece)) = [] ->
  getCaptureMoves board index = [].
Proof.
  intros Hcell Hnone.
  destruct (getCaptureMoves board index) as [|to rest] eqn:E; [done|].
  assert (to ∈ getCaptureMoves board index) as Hin by (rewrite E; left).
  apply getCaptureMoves_inv in Hin
    as (piece' & dr & dc & Hp & _ & _ & midPiece & Hmid & Hside).
  assert (piece' = piece) as -> by congruence.
  assert ((midPiece, getIndex (index / 8 + dr) (Z.rem index 8 + dc))
          ∈ piecesOf board (opponent (side piece))) as Hin.
  { apply piecesOf_elem. split; [done|].
    by destruct (side piece), (side midPiece). }
  rewrite Hnone in Hin. by apply elem_of_nil in Hin.
Qed.

Lemma capturingSquares_none board s :
  piecesOf board s = [] -> capturingSquares board s = [].
Proof.
  intros Hnone. destruct (capturingSquares board s) as [|i rest] eqn:E; [done|].
  assert (i ∈ capturingSquares board s) as Hi by (rewrite E; left).
  apply list_elem_of_filter in Hi as [Hi _]. unfold canCaptureAt in Hi.
  destruct (cell board i) as [piece|] eqn:Ecell; [|done].
  apply andb_true_iff in Hi as [Hs _]. apply bool_decide_eq_true in Hs.
  assert ((piece, i) ∈ piecesOf board s) as Hin by by apply piecesOf_elem.
  rewrite Hnone in Hin. by apply elem_of_nil in Hin.
Qed.

Lemma hasAnyMoves_none board s :
  piecesOf board s = [] -> hasAnyMoves board s = false.
Proof.
  intros Hnone. unfold hasAnyMoves.
  apply not_true_iff_false. intros H. apply existsb_exists in H as (i & _ & H).
  destruct (cell board i) as [piece|] eqn:E; [|done].
  apply andb_true_iff in H as [Hs _]. apply bool_decide_eq_true in Hs.
  assert ((piece, i) ∈ piecesOf board s) as Hin by by apply piecesOf_elem.
  rewrite Hnone in Hin. by apply elem_of_nil in Hin.
Qed.

Lemma promoteWhite_cell board to piece :
  cell board to = Some piece -> side piece = W ->
  exists piece', cell (promoteWhite board to) to = Some piece' /\ side piece' = W.
Proof.
  intros Hcell Hside. unfold promoteWhite.
  destruct (bool_decide _ && _) eqn:E; [|by exists piece].
  exists WK. split; [|done]. apply cell_setCell_eq.
  by apply cell_Some_range in Hcell.
Qed.

Lemma piecesOf_promoteWhite board to :
  piecesOf board B = [] -> piecesOf (promoteWhite board to) B = [].
Proof.
  intros Hnone. unfold promoteWhite.
  destruct (bool_decide _ && _) eqn:E; [|done].
  destruct (piecesOf (setCell board to (Some WK)) B) as [|[piece i] rest] eqn:Ep;
    [done|].
  assert ((piece, i) ∈ piecesOf (setCell board to (Some WK)) B) as Hin
    by (rewrite Ep; left).
  apply piecesOf_elem in Hin as [Hcell Hside].
  apply cell_setCell_Some in Hcell as [[_ [= <-]]|Hcell]; [done|].
  assert ((piece, i) ∈ piecesOf board B) as Hin by by apply piecesOf_elem.
  rewrite Hnone in Hin. by apply elem_of_nil in Hin.
Qed.

(** X18. When the move [aiMove] plays takes the last black piece, the
    status becomes [ai-win] and the engine's score goes up by two: once
    where the black pieces are counted, and once more where the player
    is then found to have no move. *)
Theorem last_capture_is_counted_twice (st : State) (currentBoard : Board)
    (from to : Z) :
  length currentBoard = 64%nat ->
  bestMove (chooseMove currentBoard) = Some (from, to) ->
  countSide (promoteWhite (movePiece currentBoard from to) to) B = 0 ->
  let st' := aiMove st currentBoard in
  stGameStatus st' = aiWin
  /\ stAiScore st' = stAiScore st + 2
  /\ stPlayerScore st' = stPlayerScore st
  /\ stBoard st' = promoteWhite (movePiece currentBoard from to) to.
Proof.
  intros Hlen Hbest Hcount st'. subst st'. unfold aiMove. rewrite Hbest.
  cbv zeta.
  pose proof (chooseMove_legal _ _ _ Hlen Hbest) as Hlegal.
  destruct (legal_move_shape _ _ _ _ Hlen Hlegal)
    as (piece & Hcell & Hside & Hfrom & Hto & Hne & Hnone & _).
  pose proof (countSide_zero _ _ Hcount) as Hblack.
  set (newBoard := promoteWhite (movePiece currentBoard from to) to) in *.
  assert (getCaptureMoves newBoard to = []) as Hnocap.
  { assert (cell (movePiece currentBoard from to) to = Some piece) as Hmoved.
    { rewrite movePiece_to by (rewrite ?Hlen; lia). done. }
    destruct (promoteWhite_cell _ _ _ Hmoved Hside) as (piece' & Hc' & Hs').
    apply (no_opponent_no_capture _ _ piece'); [done|]. by rewrite Hs'. }
  rewrite Hnocap. rewrite andb_false_r.
  rewrite Hcount. cbn [Z.eqb negb andb].
  rewrite (capturingSquares_none _ _ Hblack), (hasAnyMoves_none _ _ Hblack).
  cbn. repeat split; lia.
Qed.

Lemma last_capture_is_counted_twice_witness :
  let board := boardOf [(21, WP); (30, BP)] in
  let st' := aiMove (stateOf board) board in
  stGameStatus st' = aiWin
  /\ stAiScore st' = stAiScore (stateOf board) + 2
  /\ stPlayerScore st' = stPlayerScore (stateOf board)
  /\ stBoard st' = promoteWhite (movePiece board 21 39) 39.
Proof.
  apply (last_capture_is_counted_twice
           (stateOf (boardOf [(21, WP); (30, BP)])) (boardOf [(21, WP); (30, BP)])
           21 39); by vm_compute.
Defined.

Lemma forced_agree_any board s :
  length board = 64%nat ->
  nonEmpty (capturingSquares board s)
  = nonEmpty (piecesWithCaptures board (piecesOf board s)).
Proof.
  intros Hlen. apply nonEmpty_iff. split.
  - intros [i Hi]. apply (capturingSquares_elem _ _ _ Hlen) in Hi as [piece H].
    by exists (piece, i).
  - intros [[piece i] H]. exists i. apply (capturingSquares_elem _ _ _ Hlen).
    by exists piece.
Qed.

Lemma lose_test_iff board s :
  length board = 64%nat ->
  negb (nonEmpty (capturingSquares board s)) && negb (hasAnyMoves board s) = true
  <-> legalMoves board s = [].
Proof.
  intros Hlen. rewrite andb_true_iff, !negb_true_iff. split.
  - intros [Hcap Hany]. apply legalMoves_nil. intros piece index Hin.
    assert (piecesWithCaptures board (piecesOf board s) = []) as Hnone.
    { destruct (piecesWithCaptures _ _) as [|[p i] rest] eqn:E; [done|].
      assert (i ∈ capturingSquares board s) as Hi.
      { apply (capturingSquares_elem _ _ _ Hlen). exists p. rewrite E. left. }
      destruct (capturingSquares board s); [by apply elem_of_nil in Hi|done]. }
    unfold activePieces in Hin. rewrite Hnone in Hin |- *. cbn [nonEmpty] in *.
    apply piecesOf_elem in Hin as [Hcell Hside].
    apply cell_Some_range in Hcell as Hrange. rewrite Hlen in Hrange.
    unfold hasAnyMoves in Hany.
    destruct (getValidMoves board index false) as [|m ms] eqn:E; [done|].
    exfalso. apply not_true_iff_false in Hany. apply Hany.
    apply existsb_exists. exists index. split.
    { apply list_elem_of_In, squares_elem. lia. }
    rewrite Hcell, E. apply andb_true_iff. split; [|done].
    by apply bool_decide_eq_true.
  - intros Hnil. pose proof (proj1 (legalMoves_nil _ _) Hnil) as H.
    assert (piecesWithCaptures board (piecesOf board s) = []) as Hnone.
    { destruct (piecesWithCaptures _ _) as [|[p i] rest] eqn:E; [done|].
      exfalso.
      assert ((p, i) ∈ piecesWithCaptures board (piecesOf board s)) as Hin
        by (rewrite E; left).
      pose proof Hin as Hin'.
      apply piecesWithCaptures_elem in Hin as [Hp Hc].
      apply piecesOf_elem in Hp as [Hcell _].
      specialize (H p i). unfold activePieces in H. rewrite E in H.
      cbn [nonEmpty] in H. rewrite <- E in H. specialize (H Hin').
      rewrite (getValidMoves_forced _ _ _ Hcell) in H. done. }
    split.
    + destruct (capturingSquares board s) as [|i rest] eqn:E; [done|].
      exfalso.
      assert (i ∈ capturingSquares board s) as Hi by (rewrite E; left).
      apply (capturingSquares_elem _ _ _ Hlen) in Hi as [p Hp].
      rewrite Hnone in Hp. by apply elem_of_nil in Hp.
    + apply not_true_iff_false. intros Hany.
      unfold hasAnyMoves in Hany. apply existsb_exists in Hany as (i & _ & Hi).
      destruct (cell board i) as [piece|] eqn:Ecell; [|done].
      apply andb_true_iff in Hi as [Hs Hm]. apply bool_decide_eq_true in Hs.
      specialize (H piece i). unfold activePieces in H. rewrite Hnone in H.
      cbn [nonEmpty] in H.
      rewrite H in Hm; [done|]. by apply piecesOf_elem.
Qed.

Lemma length_promoteWhite board to :
  length (promoteWhite board to) = length board.
Proof.
  unfold promoteWhite.
  destruct (bool_decide (cell board to = Some WP) && _); [|done].
  apply length_setCell.
Qed.

(** X19. When the move [aiMove] plays ends its turn, the status it
    leaves is [ai-win] exactly when Black has no legal move on the new
    board, be it for want of pieces or because all are blocked; this
    supposes that the game was not already won by the engine. *)
Theorem engine_wins_when_player_cannot_move (st : State) (currentBoard : Board)
    (from to : Z) :
  length currentBoard = 64%nat ->
  bestMove (chooseMove currentBoard) = Some (from, to) ->
  stGameStatus st <> aiWin ->
  let newBoard := promoteWhite (movePiece currentBoard from to) to in
  isCaptureMove from to && nonEmpty (getCaptureMoves newBoard to) = false ->
  stGameStatus (aiMove st currentBoard) = aiWin <-> legalMoves newBoard B = [].
Proof.
  intros Hlen Hbest Hstatus newBoard Hturn. unfold aiMove. rewrite Hbest.
  cbv zeta. fold newBoard. rewrite Hturn.
  assert (length newBoard = 64%nat) as Hlen'.
  { subst newBoard. by rewrite length_promoteWhite, length_movePiece. }
  pose proof (lose_test_iff newBoard B Hlen') as Hiff.
  destruct (negb (nonEmpty (capturingSquares newBoard B))
            && negb (hasAnyMoves newBoard B)) eqn:Etest.
  - cbn [stGameStatus]. split; [intros _; by apply Hiff|done].
  - cbn [stGameStatus]. split.
    + intros Hwin. exfalso.
      destruct (countSide newBoard B =? 0) eqn:Eblack.
      * apply Z.eqb_eq, countSide_zero in Eblack.
        rewrite (capturingSquares_none _ _ Eblack),
                (hasAnyMoves_none _ _ Eblack) in Etest. done.
      * by destruct (countSide newBoard W =? 0).
    + intros Hnil. apply Hiff in Hnil. congruence.
Qed.

Lemma engine_wins_when_player_cannot_move_witness :
  let board := boardOf [(7, WP); (42, WP); (49, WP); (51, WP); (58, WP);
                        (60, WP); (56, BP)] in
  let newBoard := promoteWhite (movePiece board 7 14) 14 in
  stGameStatus (aiMove (stateOf board) board) = aiWin
  <-> legalMoves newBoard B = [].
Proof.
  apply (engine_wins_when_player_cannot_move
           (stateOf (boardOf [(7, WP); (42, WP); (49, WP); (51, WP); (58, WP);
                              (60, WP); (56, BP)]))
           (boardOf [(7, WP); (42, WP); (49, WP); (51, WP); (58, WP);
                     (60, WP); (56, BP)]) 7 14);
    [reflexivity|by vm_compute|discriminate|reflexivity].
Defined.

(** *** The player's clicks *)

Lemma isBlackAt_piece board index :
  isBlackAt board index = true <->
  exists piece, cell board index = Some piece /\ side piece = B.
Proof.
  unfold isBlackAt. destruct (cell board index) as [piece|]; split.
  - intros H. apply bool_decide_eq_true in H. by exists piece.
  - intros (p & [= <-] & H). by apply bool_decide_eq_true.
  - done.
  - by intros (p & H & _).
Qed.

Lemma makeMove_board st from to :
  stBoard (makeMove st from to) = promoteLanded (movePiece (stBoard st) from to) to.
Proof.
  unfold makeMove. cbv zeta.
  destruct (isCaptureMove from to && _); [done|].
  destruct (countSide _ W =? 0); [done|].
  by destruct (countSide _ B =? 0).
Qed.

(** X20. With the pieces that must capture listed as the effect and
    [aiMove] list them, a click changes the board only by a legal move of
    Black from the selected square to the clicked one, a capture when
    one is on the board; and the selection it leaves is again one made
    on the board. *)
Theorem clicks_make_only_legal_moves (st : State) (index : Z) :
  length (stBoard st) = 64%nat ->
  stMustCaptureFrom st = capturingSquares (stBoard st) B ->
  selectionCoherent st ->
  let st' := handleSquareClick st index in
  (stBoard st' = stBoard st
   \/ exists from,
        stSelectedPiece st = Some from
        /\ (from, index) ∈ legalMoves (stBoard st) B
        /\ stBoard st'
           = promoteLanded (movePiece (stBoard st) from index) index)
  /\ selectionCoherent st'.
Proof.
  intros Hlen Hmust Hsel st'. subst st'. unfold handleSquareClick.
  destruct (negb (bool_decide (stGameStatus st = playing))
            || negb (stIsPlayerTurn st) || stIsThinking st);
    [split; [by left|done]|].
  destruct (isBlackAt (stBoard st) index
            && bool_decide (stSelectedPiece st = None)) eqn:Efirst.
  - apply andb_true_iff in Efirst as [Hblack _].
    destruct (nonEmpty (stMustCaptureFrom st)
              && negb (bool_decide (index ∈ stMustCaptureFrom st))) eqn:Eforced;
      [split; [by left|done]|].
    split; [by left|].
    unfold selectionCoherent, withSelection. cbn.
    split; [done|]. split; [|done].
    intros Hne. apply andb_false_iff in Eforced as [E|E].
    + by destruct (stMustCaptureFrom st).
    + apply negb_false_iff in E. by apply bool_decide_eq_true in E.
  - destruct (stSelectedPiece st) as [selected|] eqn:Eselected;
      [|split; [by left|by unfold selectionCoherent]].
    destruct (bool_decide (index ∈ stValidMoves st)) eqn:Hvalid;
      [|split; [by left|by unfold selectionCoherent]].
    apply bool_decide_eq_true in Hvalid.
    unfold selectionCoherent in Hsel. rewrite Eselected in Hsel.
    destruct Hsel as (Hblack & Hin & Hmoves).
    split.
    + right. exists selected. split; [done|]. split.
      * apply isBlackAt_piece in Hblack as (piece & Hcell & Hside).
        apply legalMoves_elem. exists piece.
        rewrite <- (forced_agree_any _ _ Hlen), <- Hmust.
        split; [|by rewrite <- Hmoves].
        assert ((piece, selected) ∈ piecesOf (stBoard st) B) as Hp
          by by apply piecesOf_elem.
        unfold activePieces.
        rewrite <- (forced_agree_any _ _ Hlen), <- Hmust.
        destruct (stMustCaptureFrom st) as [|m ms] eqn:Em; [done|].
        cbn [nonEmpty].
        assert (selected ∈ capturingSquares (stBoard st) B) as Hc
          by (rewrite <- Hmust; by apply Hin).
        apply (capturingSquares_elem _ _ _ Hlen) in Hc as (piece' & Hc).
        pose proof Hc as Hc'. apply piecesWithCaptures_elem in Hc' as [Hp' _].
        apply piecesOf_elem in Hp' as [Hcell' _].
        assert (piece' = piece) as -> by congruence. done.
      * unfold withSelection. cbn [stBoard]. apply makeMove_board.
    + by unfold selectionCoherent, withSelection.
Qed.

Lemma clicks_make_only_legal_moves_witness :
  let st := withSelection (stateOf initializeBoard) (Some 40)
                          (getValidMoves initializeBoard 40 false) in
  let st' := handleSquareClick st 33 in
  (stBoard st' = stBoard st
   \/ exists from,
        stSelectedPiece st = Some from
        /\ (from, 33) ∈ legalMoves (stBoard st) B
        /\ stBoard st' = promoteLanded (movePiece (stBoard st) from 33) 33)
  /\ selectionCoherent st'.
Proof.
  apply (clicks_make_only_legal_moves
           (withSelection (stateOf initializeBoard) (Some 40)
                          (getValidMoves initializeBoard 40 false)) 33).
  - reflexivity.
  - reflexivity.
  - split; [reflexivity|]. split; [|reflexivity]. intros H. by vm_compute in H.
Defined.

(** *** The check that follows a change of the board *)

Lemma nonEmpty_flat_map {A C} (f : A -> list C) (l : list A) :
  nonEmpty (flat_map f l) = existsb (fun x => nonEmpty (f x)) l.
Proof.
  induction l as [|x l IH]; [done|]. cbn [flat_map existsb].
  destruct (f x); [done|done].
Qed.

Lemma existsb_agree {A} (f g : A -> bool) (l : list A) :
  (forall x, In x l -> f x = g x) -> existsb f l = existsb g l.
Proof.
  induction l as [|x l IH]; intros H; [done|]. cbn [existsb].
  rewrite (H x) by by left. rewrite IH; [done|].
  intros y Hy. apply H. by right.
Qed.

(** Without a capture for the piece, the effect's look at the squares
    next to it is the test [getValidMoves] makes. *)
Lemma canStep_valid board i piece :
  0 <= i -> cell board i = Some piece -> side piece = B ->
  getCaptureMoves board i = [] ->
  canStep board i = nonEmpty (getValidMoves board i false).
Proof.
  intros Hi Hcell Hside Hnocap. unfold canStep, getValidMoves.
  rewrite Hcell, Hnocap. rewrite bool_decide_eq_true_2 by done. cbn.
  destruct (getPosition i) as [row col].
  rewrite nonEmpty_flat_map. unfold directionsOf.
  destruct (isKingPiece piece); [done|].
  by destruct (decide (side piece = B)).
Qed.

Lemma effect_test_is_hasAnyMoves board :
  length board = 64%nat -> capturingSquares board B = [] ->
  existsb (canStep board) squares = hasAnyMoves board B.
Proof.
  intros Hlen Hnone. unfold hasAnyMoves.
  apply existsb_agree. intros i Hi. apply list_elem_of_In, squares_elem in Hi.
  destruct (cell board i) as [piece|] eqn:Ecell;
    [|by unfold canStep; rewrite Ecell].
  destruct (decide (side piece = B)) as [Hside|Hside].
  - rewrite bool_decide_eq_true_2 by done. cbn [andb].
    apply (canStep_valid _ _ piece); [lia|done|done|].
    destruct (getCaptureMoves board i) as [|m ms] eqn:Ecap; [done|]. exfalso.
    assert (i ∈ capturingSquares board B) as Hin.
    { apply (capturingSquares_elem _ _ _ Hlen). exists piece.
      apply piecesWithCaptures_elem. split; [by apply piecesOf_elem|].
      by rewrite Ecap. }
    rewrite Hnone in Hin. by apply elem_of_nil in Hin.
  - rewrite bool_decide_eq_false_2 by done. cbn [andb].
    unfold canStep. rewrite Ecell. by rewrite bool_decide_eq_false_2 by done.
Qed.

(** X21. When the player is to move, the effect lists the black pieces
    that can capture, and it ends the game for the engine, adding one to
    its score, exactly when Black has no legal move. *)
Theorem player_without_moves_loses (st : State) :
  length (stBoard st) = 64%nat ->
  stGameStatus st = playing -> stIsPlayerTurn st = true ->
  stIsThinking st = false ->
  let st' := checkForcedCaptures st in
  stBoard st' = stBoard st
  /\ stMustCaptureFrom st' = capturingSquares (stBoard st) B
  /\ (legalMoves (stBoard st) B = [] ->
      stGameStatus st' = aiWin /\ stAiScore st' = stAiScore st + 1)
  /\ (legalMoves (stBoard st) B <> [] ->
      stGameStatus st' = playing /\ stAiScore st' = stAiScore st).
Proof.
  intros Hlen Hplaying Hturn Hthinking st'. subst st'.
  unfold checkForcedCaptures. rewrite Hplaying, Hturn, Hthinking.
  rewrite bool_decide_eq_true_2 by done. cbn [andb negb]. cbv zeta.
  pose proof (lose_test_iff (stBoard st) B Hlen) as Hiff.
  destruct (nonEmpty (capturingSquares (stBoard st) B)) eqn:Ecap.
  - cbn [negb andb] in *. cbn [stBoard stMustCaptureFrom stGameStatus stAiScore].
    split; [done|]. split; [done|]. split; [|done].
    intros Hnil. apply Hiff in Hnil. done.
  - assert (capturingSquares (stBoard st) B = []) as Hnone
      by by destruct (capturingSquares (stBoard st) B).
    rewrite (effect_test_is_hasAnyMoves _ Hlen Hnone).
    cbn [negb andb] in *.
    destruct (hasAnyMoves (stBoard st) B); cbn [negb] in *;
      cbn [stBoard stMustCaptureFrom stGameStatus stAiScore];
      (split; [done|]); (split; [done|]); split; try done.
    + intros Hnil. apply Hiff in Hnil. done.
    + intros Hnot. exfalso. apply Hnot. by apply Hiff.
Qed.

Lemma player_without_moves_loses_witness :
  let st := stateOf (boardOf [(7, BP); (56, BP); (49, WP); (42, WP)]) in
  let st' := checkForcedCaptures st in
  stBoard st' = stBoard st
  /\ stMustCaptureFrom st' = capturingSquares (stBoard st) B
  /\ (legalMoves (stBoard st) B = [] ->
      stGameStatus st' = aiWin /\ stAiScore st' = stAiScore st + 1)
  /\ (legalMoves (stBoard st) B <> [] ->
      stGameStatus st' = playing /\ stAiScore st' = stAiScore st).
Proof.
  apply (player_without_moves_loses
           (stateOf (boardOf [(7, BP); (56, BP); (49, WP); (42, WP)])));
    reflexivity.
Defined.

(** *** Pruning *)

(** X22. The checkers search prunes soundly. With the full window it
    returns the value of the minimax that searches every child; with any
    window [alpha < beta] its result is that value when it lies strictly
    inside the window, is an upper bound of it when at or below [alpha],
    and a lower bound when at or above [beta]. *)
Theorem checkers_search_respects_window (board : Board) (depth : nat)
    (isMaximizing : bool) (alpha beta : num) :
  Num.leb beta alpha = false ->
  bounded alpha beta (minimax_unpruned board depth isMaximizing)
          (minimax board depth alpha beta isMaximizing)
  /\ minimax board depth NegInf PosInf isMaximizing
     = minimax_unpruned board depth isMaximizing.
Proof.
  intros Hab. split; [by apply minimax_bounded|].
  apply AlphaBeta.bounded_full. by apply minimax_bounded.
Qed.

Lemma checkers_search_respects_window_witness :
  bounded (Fin (-50)) (Fin 50) (minimax_unpruned chainBoard 2 true)
          (minimax chainBoard 2 (Fin (-50)) (Fin 50) true)
  /\ minimax chainBoard 2 NegInf PosInf true = minimax_unpruned chainBoard 2 true.
Proof. apply checkers_search_respects_window. reflexivity. Defined.

End MakhosFacts.

(** ** Tic-tac-toe *)

Module TicTacToeFacts.
Import TicTacToe.

(** *** Writing a mark and taking it back *)

Lemma restore board i v :
  isNull board i = true -> setCell (setCell board i v) i None = board.
Proof.
  unfold isNull, cell, setCell. intros H. apply bool_decide_eq_true in H.
  destruct (i <? 0); [done|].
  rewrite list_insert_insert_eq.
  destruct (board !! Z.to_nat i) as [c|] eqn:E; simpl in H.
  - subst c. by apply list_insert_id.
  - apply list_insert_ge. by apply lookup_ge_None.
Qed.

Lemma findWin_board indices board : snd (findWin indices board) = board.
Proof.
  revert board. induction indices as [|i rest IH]; intros board;
    cbn [findWin]; [done|].
  destruct (isNull board i) eqn:E; [|apply IH].
  destruct (bool_decide _); rewrite (restore _ _ _ E); [done|apply IH].
Qed.

Lemma findBlocks_board indices board acc :
  snd (findBlocks indices board acc) = board.
Proof.
  revert board acc. induction indices as [|i rest IH]; intros board acc;
    cbn [findBlocks]; [done|].
  destruct (isNull board i) eqn:E; [|apply IH].
  cbv zeta. rewrite (restore _ _ _ E). apply IH.
Qed.

Lemma findFork_board indices board move score :
  snd (findFork indices board move score) = board.
Proof.
  revert board move score.
  induction indices as [|i rest IH]; intros board move score;
    cbn [findFork]; [done|].
  destruct (isNull board i) eqn:E; [|apply IH].
  cbv zeta. rewrite (restore _ _ _ E). apply IH.
Qed.

Lemma countThreats_board positions board threats :
  snd (countThreats positions board threats) = board.
Proof.
  revert board threats.
  induction positions as [|i rest IH]; intros board threats;
    cbn [countThreats]; [done|].
  destruct (isNull board i) eqn:E; [|apply IH].
  cbv zeta. rewrite (restore _ _ _ E). apply IH.
Qed.

Lemma playerReplies_board positions board threats :
  snd (playerReplies positions board threats) = board.
Proof.
  revert board threats.
  induction positions as [|i rest IH]; intros board threats;
    cbn [playerReplies]; [done|].
  destruct (isNull board i) eqn:E; [|apply IH].
  cbv zeta.
  pose proof (countThreats_board cells (setCell board i (Some X)) 0) as Hc.
  destruct (countThreats cells (setCell board i (Some X)) 0) as [n after].
  cbn [snd] in Hc. subst after. rewrite (restore _ _ _ E). apply IH.
Qed.

Lemma classifyMoves_board positions board safe dangerous :
  snd (classifyMoves positions board safe dangerous) = board.
Proof.
  revert board safe dangerous.
  induction positions as [|i rest IH]; intros board safe dangerous;
    cbn [classifyMoves]; [done|].
  destruct (isNull board i) eqn:E; [|apply IH].
  cbv zeta.
  pose proof (playerReplies_board cells (setCell board i (Some O)) 0) as Hc.
  destruct (playerReplies cells (setCell board i (Some O)) 0) as [n after].
  cbn [snd] in Hc. subst after. rewrite (restore _ _ _ E).
  destruct (2 <=? n); apply IH.
Qed.

(** The cascade hands the array back as it got it, whatever step
    returns. *)
Lemma getBestMove_board board : snd (getBestMove board) = board.
Proof.
  unfold getBestMove.
  pose proof (findWin_board cells board) as H1.
  destruct (findWin cells board) as [[i|] b1]; cbn [snd] in H1; subst b1;
    [done|].
  pose proof (findBlocks_board cells board []) as H2.
  destruct (findBlocks cells board []) as [blocks b2]; cbn [snd] in H2; subst b2.
  destruct blocks as [|blockPosition blocks]; [|done].
  pose proof (findFork_board cells board (-1) 0) as H3.
  destruct (findFork cells board (-1) 0) as [[move score] b3]; cbn [snd] in H3;
    subst b3.
  destruct (negb (move =? -1)); [done|].
  destruct (oppositeCornerSide board); [done|].
  pose proof (classifyMoves_board cells board [] []) as H4.
  destruct (classifyMoves cells board [] []) as [[safe dangerous] b4];
    cbn [snd] in H4; subst b4.
  destruct (if nonEmptyList dangerous then preferredSafe safe else None);
    [done|].
  destruct (isNull board 4) eqn:E4; [cbn [snd]; by apply restore|].
  repeat (destruct (negb _); [done|]). done.
Qed.

(** *** The search hands the array back *)

Lemma cells_elem i : i ∈ cells <-> 0 <= i < 9.
Proof.
  unfold cells. rewrite !elem_of_cons, elem_of_nil. lia.
Qed.

Lemma orderedMoves_elem board i pr :
  (i, pr) ∈ orderedMoves board -> 0 <= i < 9 /\ isNull board i = true.
Proof.
  unfold orderedMoves. rewrite jsSort_elem, list_elem_of_In, in_map_iff.
  intros (j & Heq & Hj). inversion Heq; subst.
  apply list_elem_of_In, list_elem_of_filter in Hj as [Hn Hc].
  by apply cells_elem in Hc.
Qed.

Lemma emptyCount_insert (board : Board) n p :
  board !! n = Some None ->
  S (emptyCount (<[n := Some p]> board)) = emptyCount board.
Proof.
  unfold emptyCount. revert n. induction board as [|c board IH]; intros n H;
    [done|].
  destruct n as [|n]; simpl in *.
  - inversion H; subst. rewrite filter_cons_False by done.
    rewrite filter_cons_True by done. done.
  - destruct (decide (c = None)).
    + rewrite !filter_cons_True by done. simpl. f_equal. by apply IH.
    + rewrite !filter_cons_False by done. by apply IH.
Qed.

Lemma emptyCount_setCell board i p :
  0 <= i < Z.of_nat (length board) -> isNull board i = true ->
  S (emptyCount (setCell board i (Some p))) = emptyCount board.
Proof.
  intros Hi Hn. unfold isNull, cell, setCell in *.
  apply bool_decide_eq_true in Hn.
  destruct (i <? 0) eqn:E; [lia|].
  apply emptyCount_insert.
  destruct (board !! Z.to_nat i) as [c|] eqn:El; simpl in Hn; [by subst|].
  apply lookup_ge_None in El. lia.
Qed.

Lemma setCell_keeps_length board i v : length (setCell board i v) = length board.
Proof. unfold setCell. destruct (i <? 0); [done|]. apply length_insert. Qed.

Lemma emptyCount_zero_full board : emptyCount board = 0%nat -> isBoardFull board = true.
Proof.
  unfold emptyCount, isBoardFull. induction board as [|c board IH]; [done|].
  destruct c as [p|].
  - rewrite filter_cons_False by done. intros H. simpl. by apply IH.
  - rewrite filter_cons_True by done. done.
Qed.

Section LoopsReturn.
Variable search : Board -> Z -> num -> num -> option (num * Board).

Lemma maxLoop_total moves board depth alpha beta maxEval :
  (forall i pr, (i, pr) ∈ moves -> isNull board i = true) ->
  (forall i pr d a b,
      (i, pr) ∈ moves ->
      exists r, search (setCell board i (Some O)) d a b
                = Some (r, setCell board i (Some O))) ->
  exists r, maxLoop search moves board depth alpha beta maxEval = Some (r, board).
Proof.
  revert alpha maxEval.
  induction moves as [|[i pr] rest IH]; intros alpha maxEval Hnull Hsearch;
    cbn [maxLoop]; [eauto|].
  cbv zeta.
  destruct (Hsearch i pr (depth + 1) alpha beta) as [r Hr]; [left|].
  rewrite Hr. rewrite (restore _ _ _ (Hnull i pr ltac:(left))).
  destruct (Num.leb beta _); [eauto|].
  apply IH.
  - intros j q Hj. apply (Hnull j q). by right.
  - intros j q d a b Hj. apply (Hsearch j q). by right.
Qed.

Lemma minLoop_total indices board depth alpha beta minEval :
  (forall i d a b,
      i ∈ indices -> isNull board i = true ->
      exists r, search (setCell board i (Some X)) d a b
                = Some (r, setCell board i (Some X))) ->
  exists r, minLoop search indices board depth alpha beta minEval = Some (r, board).
Proof.
  revert beta minEval.
  induction indices as [|i rest IH]; intros beta minEval Hsearch;
    cbn [minLoop]; [eauto|].
  assert (forall j d a b,
             j ∈ rest -> isNull board j = true ->
             exists r, search (setCell board j (Some X)) d a b
                       = Some (r, setCell board j (Some X))) as Hrest.
  { intros j d a b Hj. apply Hsearch. by right. }
  destruct (isNull board i) eqn:E; [|by apply IH].
  cbv zeta.
  destruct (Hsearch i (depth + 1) alpha beta) as [r Hr]; [left|done|].
  rewrite Hr. rewrite (restore _ _ _ E).
  destruct (Num.leb _ alpha); [eauto|]. by apply IH.
Qed.
End LoopsReturn.

Lemma minimax_eq fuel board depth isMaximizing alpha beta :
  minimax fuel board depth isMaximizing alpha beta
  = match checkWinner board with
    | Some O => Some (Fin (10000 - depth), board)
    | Some X => Some (Fin (depth - 10000), board)
    | None =>
        if isBoardFull board then Some (Fin (-100 - depth), board)
        else
          match fuel with
          | 0%nat => None
          | S fuel' =>
              if isMaximizing then
                maxLoop (fun b d a bt => minimax fuel' b d false a bt)
                        (orderedMoves board) board depth alpha beta NegInf
              else
                minLoop (fun b d a bt => minimax fuel' b d true a bt)
                        cells board depth alpha beta PosInf
          end
    end.
Proof. destruct fuel; reflexivity. Qed.

(** With as much fuel as there are empty cells the search returns, and
    the array it returns is the one it was given. *)
Lemma minimax_total fuel :
  forall board depth isMaximizing alpha beta,
    length board = 9%nat -> (emptyCount board <= fuel)%nat ->
    exists r, minimax fuel board depth isMaximizing alpha beta = Some (r, board).
Proof.
  induction fuel as [|fuel IH]; intros board depth isMaximizing alpha beta Hlen Hfuel;
    rewrite minimax_eq.
  - destruct (checkWinner board) as [[|]|]; [eauto|eauto|].
    rewrite emptyCount_zero_full by lia. eauto.
  - destruct (checkWinner board) as [[|]|]; [eauto|eauto|].
    destruct (isBoardFull board); [eauto|].
    destruct isMaximizing.
    + apply maxLoop_total.
      * intros i pr Hi. by apply orderedMoves_elem in Hi as [_ ?].
      * intros i pr d a b Hi. apply orderedMoves_elem in Hi as [Hr Hn].
        apply IH; [by rewrite setCell_keeps_length|].
        pose proof (emptyCount_setCell board i O ltac:(lia) Hn). lia.
    + apply minLoop_total. intros i d a b Hi Hn. apply cells_elem in Hi.
      apply IH; [by rewrite setCell_keeps_length|].
      pose proof (emptyCount_setCell board i X ltac:(lia) Hn). lia.
Qed.

Lemma emptyCount_le_length board : (emptyCount board <= length board)%nat.
Proof. unfold emptyCount. apply length_filter. Qed.

(** C5. The call of [getBestMove] hands the caller's nine-cell array
    back exactly as it received it, on every exit of the cascade; and so
    does the search: whatever the depth, the role and the window, and
    whether the scan runs out or is cut off by the window, [minimax]
    returns (nine levels of recursion are enough) and the array it leaves
    is the array it was given. *)
Theorem best_move_leaves_board_unchanged (board : Board) :
  length board = 9%nat ->
  snd (getBestMove board) = board
  /\ (forall depth isMaximizing alpha beta,
         exists r, minimax 9 board depth isMaximizing alpha beta = Some (r, board)).
Proof.
  intros Hlen. split; [apply getBestMove_board|].
  intros depth isMaximizing alpha beta. apply minimax_total; [done|].
  rewrite <- Hlen. apply emptyCount_le_length.
Qed.

Lemma best_move_leaves_board_unchanged_witness :
  snd (getBestMove forkBoard) = forkBoard
  /\ exists r, minimax 9 forkBoard 0 true NegInf PosInf = Some (r, forkBoard).
Proof.
  destruct (best_move_leaves_board_unchanged forkBoard) as [H1 H2];
    [reflexivity|].
  split; [exact H1|apply H2].
Defined.

(** *** Terminal scores *)

Lemma lineOwner_Some board a b c p :
  lineOwner board (a, b, c) = Some p <->
  cell board a = Some p /\ cell board b = Some p /\ cell board c = Some p.
Proof.
  unfold lineOwner. destruct (cell board a) as [q|];
    [|split; [done|by intros (H & _)]].
  repeat case_bool_decide; simpl;
    (split; [intros Hyp; simplify_eq; repeat split; congruence
            |intros (? & ? & ?); congruence]).
Qed.

Lemma firstOwner_hasLine board combos p :
  firstOwner board combos = Some p ->
  exists a b c, (a, b, c) ∈ combos /\ lineOwner board (a, b, c) = Some p.
Proof.
  induction combos as [|[[a b] c] rest IH]; cbn [firstOwner]; [done|].
  destruct (lineOwner board (a, b, c)) as [q|] eqn:E.
  - intros H. inversion H; subst. exists a, b, c. split; [left|done].
  - intros H. destruct (IH H) as (a' & b' & c' & Hin & Hl).
    exists a', b', c'. split; [by right|done].
Qed.

Lemma firstOwner_None board combos :
  firstOwner board combos = None ->
  forall a b c, (a, b, c) ∈ combos -> lineOwner board (a, b, c) = None.
Proof.
  induction combos as [|[[a b] c] rest IH]; cbn [firstOwner].
  - intros _ a b c H. by apply elem_of_nil in H.
  - destruct (lineOwner board (a, b, c)) as [q|] eqn:E; [done|].
    intros H a' b' c' Hin. apply elem_of_cons in Hin as [Heq|Hin].
    + by inversion Heq; subst.
    + by apply IH.
Qed.

(** [checkWinner] names a player that has three in a row, and names the
    player whenever only that player has. *)
Lemma checkWinner_hasLine board p : checkWinner board = Some p -> hasLine board p.
Proof.
  intros H. apply firstOwner_hasLine in H as (a & b & c & Hin & Hl).
  exists a, b, c. split; [done|]. by apply lineOwner_Some.
Qed.

Lemma hasLine_checkWinner board p :
  hasLine board p -> (forall q, q <> p -> ~ hasLine board q) ->
  checkWinner board = Some p.
Proof.
  intros (a & b & c & Hin & Hl) Honly.
  destruct (checkWinner board) as [q|] eqn:E.
  - destruct (decide (q = p)) as [->|Hne]; [done|].
    apply checkWinner_hasLine in E. by destruct (Honly q Hne).
  - pose proof (firstOwner_None _ _ E a b c Hin) as Hnone.
    apply lineOwner_Some in Hl. congruence.
Qed.

Lemma minimax_won fuel board depth isMaximizing alpha beta :
  checkWinner board = Some O ->
  minimax fuel board depth isMaximizing alpha beta
  = Some (Fin (10000 - depth), board).
Proof. intros H. rewrite minimax_eq. by rewrite H. Qed.

Lemma minimax_lost fuel board depth isMaximizing alpha beta :
  checkWinner board = Some X ->
  minimax fuel board depth isMaximizing alpha beta
  = Some (Fin (depth - 10000), board).
Proof. intros H. rewrite minimax_eq. by rewrite H. Qed.

Lemma minimax_draw fuel board depth isMaximizing alpha beta :
  checkWinner board = None -> isBoardFull board = true ->
  minimax fuel board depth isMaximizing alpha beta
  = Some (Fin (-100 - depth), board).
Proof. intros H Hf. rewrite minimax_eq. by rewrite H, Hf. Qed.

(** C6, as the code has it. For every board, depth, role, window and
    fuel, [minimax] returns [10000 - depth] when [checkWinner] finds
    three O in a row (as it does whenever O has a line and X has none),
    [depth - 10000] when it finds three X, and [-100 - depth] on a full
    board without a line. Hence, of two boards on which O already has
    its row, the one met at the smaller depth scores strictly higher,
    and within the nine plies of a game a full board without a line
    scores strictly between every board X has won and every board O has
    won. Both orderings are between boards on which the game is over;
    for positions still open they fail, as the boards after the
    theorem show. What the maximizer makes of one move is the result of
    the child plus 5000 when the move leaves O two or more open lines,
    and the result of the child otherwise. *)
Theorem terminal_scores (fuel : nat) (board : Board) (depth : Z)
    (isMaximizing : bool) (alpha beta : num) :
  (checkWinner board = Some O ->
   minimax fuel board depth isMaximizing alpha beta
   = Some (Fin (10000 - depth), board))
  /\ (hasLine board O -> ~ hasLine board X ->
      minimax fuel board depth isMaximizing alpha beta
      = Some (Fin (10000 - depth), board))
  /\ (checkWinner board = Some X ->
      minimax fuel board depth isMaximizing alpha beta
      = Some (Fin (depth - 10000), board))
  /\ (hasLine board X -> ~ hasLine board O ->
      minimax fuel board depth isMaximizing alpha beta
      = Some (Fin (depth - 10000), board))
  /\ (checkWinner board = None -> isBoardFull board = true ->
      minimax fuel board depth isMaximizing alpha beta
      = Some (Fin (-100 - depth), board))
  /\ (forall later depth',
         checkWinner board = Some O -> checkWinner later = Some O ->
         depth < depth' ->
         exists sooner deeper,
           minimax fuel board depth isMaximizing alpha beta
           = Some (Fin sooner, board)
           /\ minimax fuel later depth' isMaximizing alpha beta
              = Some (Fin deeper, later)
           /\ deeper < sooner)
  /\ (forall won lost d1 d2,
         checkWinner board = None -> isBoardFull board = true ->
         checkWinner won = Some O -> checkWinner lost = Some X ->
         0 <= depth <= 9 -> 0 <= d1 <= 9 -> 0 <= d2 <= 9 ->
         exists draw win loss,
           minimax fuel board depth isMaximizing alpha beta
           = Some (Fin draw, board)
           /\ minimax fuel won d1 isMaximizing alpha beta = Some (Fin win, won)
           /\ minimax fuel lost d2 isMaximizing alpha beta = Some (Fin loss, lost)
           /\ loss < draw < win)
  /\ (forall i p result after,
         minimax fuel (setCell board i (Some O)) (depth + 1) false alpha beta
         = Some (result, after) ->
         maxLoop (fun b d a bt => minimax fuel b d false a bt)
                 [(i, p)] board depth alpha beta NegInf
         = Some (Num.addZ result
                   (if 2 <=? winningLines (setCell board i (Some O))
                    then 5000 else 0),
                 setCell after i None)).
Proof.
  split; [apply minimax_won|]. split.
  { intros Ho Hx. apply minimax_won. apply hasLine_checkWinner; [done|].
    intros q Hq. by destruct q. }
  split; [apply minimax_lost|]. split.
  { intros Hx Ho. apply minimax_lost. apply hasLine_checkWinner; [done|].
    intros q Hq. by destruct q. }
  split; [apply minimax_draw|]. split.
  - intros later depth' Hw Hl Hd.
    exists (10000 - depth), (10000 - depth').
    rewrite !minimax_won by done. repeat split. lia.
  - split.
    + intros won lost d1 d2 Hn Hf Hw Hl Hd Hd1 Hd2.
      exists (-100 - depth), (10000 - d1), (d2 - 10000).
      rewrite minimax_draw, minimax_won, minimax_lost by done.
      repeat split; lia.
    + intros i p result after Hchild. cbn [maxLoop]. rewrite Hchild.
      change (Num.max NegInf ?e) with e.
      destruct (Num.leb beta _); reflexivity.
Qed.

Lemma terminal_scores_witness :
  minimax 0 drawBoard 9 true NegInf PosInf = Some (Fin (-109), drawBoard)
  /\ minimax 0 [Some O; Some O; Some O; Some X; Some X; None; None; None; None]
             5 false NegInf PosInf
     = Some (Fin 9995,
             [Some O; Some O; Some O; Some X; Some X; None; None; None; None])
  /\ maxLoop (fun b d a bt => minimax 9 b d false a bt)
             [(4, 5)] twoWinsBoard 0 NegInf PosInf NegInf
     = Some (Fin 14997, twoWinsBoard).
Proof.
  split; [|split].
  - destruct (terminal_scores 0 drawBoard 9 true NegInf PosInf)
      as (_ & _ & _ & _ & Hdraw & _).
    apply Hdraw; reflexivity.
  - destruct (terminal_scores
                0 [Some O; Some O; Some O; Some X; Some X; None; None; None; None]
                5 false NegInf PosInf) as (Hwon & _).
    apply Hwon. reflexivity.
  - destruct (terminal_scores 9 twoWinsBoard 0 true NegInf PosInf)
      as (_ & _ & _ & _ & _ & _ & _ & Hmove).
    rewrite (Hmove 4 5 (Fin 9997) (setCell twoWinsBoard 4 (Some O)));
      vm_compute; reflexivity.
Defined.

(** C6, as the claim words its two consequences, fails on both.

    A forced win at fewer plies does not always score higher than a
    later one. On [twoWinsBoard], O to move at depth 0, cell 2 completes
    the top row: the child is won, scores [9999] and gets no bonus. The
    centre completes no line and leaves O three open lines: the child,
    where X moves, is worth [9997], a win of O at depth 3 whatever X
    replies, and the maximizer adds the fork bonus of 5000 to it. So the
    later win is evaluated [14997], above the [9999] of the immediate
    one, and [14997] is what the search returns for the position, with
    and without cut-offs.

    A draw does not score below every undecided continuation. On
    [lostBoard] nobody has a line and cells are free, X moves and
    completes the top row, so the search scores the position [-9998] at
    depth 1, below the [-101] of a draw at that depth. *)
Lemma hence_clauses_fail :
  (checkWinner twoWinsBoard = None /\ isBoardFull twoWinsBoard = false
   /\ orderedMoves twoWinsBoard = [(4, 5); (2, 3); (6, 3); (8, 3); (7, 1)]
   /\ checkWinner (setCell twoWinsBoard 2 (Some O)) = Some O
   /\ winningLines (setCell twoWinsBoard 2 (Some O)) = 0
   /\ minimax 9 (setCell twoWinsBoard 2 (Some O)) 1 false NegInf PosInf
      = Some (Fin 9999, setCell twoWinsBoard 2 (Some O))
   /\ checkWinner (setCell twoWinsBoard 4 (Some O)) = None
   /\ winningLines (setCell twoWinsBoard 4 (Some O)) = 3
   /\ minimax 9 (setCell twoWinsBoard 4 (Some O)) 1 false NegInf PosInf
      = Some (Fin 9997, setCell twoWinsBoard 4 (Some O))
   /\ maxLoop (fun b d a bt => minimax 9 b d false a bt)
              [(2, 3)] twoWinsBoard 0 NegInf PosInf NegInf
      = Some (Fin 9999, twoWinsBoard)
   /\ maxLoop (fun b d a bt => minimax 9 b d false a bt)
              [(4, 5)] twoWinsBoard 0 NegInf PosInf NegInf
      = Some (Fin 14997, twoWinsBoard)
   /\ minimax 9 twoWinsBoard 0 true NegInf PosInf
      = Some (Fin 14997, twoWinsBoard)
   /\ minimax_unpruned 9 twoWinsBoard 0 true = Some (Fin 14997)
   /\ ~ (14997 < 9999))
  /\ (checkWinner lostBoard = None /\ isBoardFull lostBoard = false
      /\ checkWinner drawBoard = None /\ isBoardFull drawBoard = true
      /\ minimax 9 lostBoard 1 false NegInf PosInf
         = Some (Fin (-9998), lostBoard)
      /\ minimax 9 drawBoard 1 false NegInf PosInf
         = Some (Fin (-101), drawBoard)
      /\ ~ (-101 < -9998)).
Proof. vm_compute. repeat split; try reflexivity; discriminate. Qed.

(** With a line of each player on the board the first triple of the
    table decides: here O has the middle row and the score is that of a
    win of X. *)
Lemma first_line_decides :
  let board := [Some X; Some X; Some X; Some O; Some O; Some O; None; None; None] in
  hasLine board O
  /\ minimax 9 board 0 true NegInf PosInf = Some (Fin (-10000), board).
Proof.
  split; [|vm_compute; reflexivity].
  exists 3, 4, 5. split; [|repeat split; reflexivity].
  right. left.
Qed.

(** *** The cascade on every board *)

Lemma allBoards_complete n (board : Board) :
  length board = n -> board ∈ allBoards n.
Proof.
  revert board. induction n as [|n IH]; intros board Hlen.
  - destruct board; [left|done].
  - destruct board as [|c board]; [done|].
    cbn [allBoards]. apply list_elem_of_In, in_flat_map.
    exists c. split.
    + destruct c as [[|]|]; simpl; auto.
    + apply in_map, list_elem_of_In, IH. by inversion Hlen.
Qed.

Lemma cascade_checked : forallb cascadeOk (allBoards 9) = true.
Proof. vm_compute. reflexivity. Qed.

Lemma cascadeOk_all board : length board = 9%nat -> cascadeOk board = true.
Proof.
  intros Hlen. pose proof cascade_checked as H.
  rewrite forallb_forall in H. apply H, list_elem_of_In.
  by apply allBoards_complete.
Qed.

(** The tic-tac-toe half of C3: on every nine-cell board with an empty
    cell, the position [getBestMove] returns is a cell of the board and
    is empty. *)
Lemma getBestMove_returns_empty_cell board :
  length board = 9%nat -> isBoardFull board = false ->
  0 <= fst (getBestMove board) < 9
  /\ cell board (fst (getBestMove board)) = None.
Proof.
  intros Hlen Hfull. pose proof (cascadeOk_all board Hlen) as H.
  unfold cascadeOk in H. destruct (getBestMove board) as [position after].
  rewrite Hfull in H. cbn [fst].
  apply andb_true_iff in H as [_ H].
  apply andb_true_iff in H as [H Hnull].
  apply andb_true_iff in H as [H0 H9].
  unfold isNull in Hnull. apply bool_decide_eq_true in Hnull.
  split; [lia|done].
Qed.

(** C10. On a full nine-cell board no step of the cascade has an
    answer, and [getBestMove] returns position 0 (an occupied cell, as
    every cell is), handing the board back unchanged. *)
Theorem full_board_falls_back_to_zero (board : Board) :
  length board = 9%nat -> isBoardFull board = true ->
  noTierFires board = true
  /\ getBestMove board = (0, board)
  /\ cell board 0 <> None.
Proof.
  intros Hlen Hfull.
  assert (cell board 0 <> None) as Hzero.
  { destruct board as [|c board]; [inversion Hlen|].
    unfold isBoardFull in Hfull. cbn [forallb] in Hfull.
    apply andb_true_iff in Hfull as [Hc _].
    by apply negb_true_iff, bool_decide_eq_false in Hc. }
  pose proof (cascadeOk_all board Hlen) as H.
  unfold cascadeOk in H. destruct (getBestMove board) as [position after].
  rewrite Hfull in H.
  apply andb_true_iff in H as [Hb H].
  apply andb_true_iff in H as [Hn H0].
  apply bool_decide_eq_true in Hb. apply Z.eqb_eq in H0.
  split; [exact Hn|]. split; [congruence|exact Hzero].
Qed.

Lemma full_board_falls_back_to_zero_witness :
  getBestMove drawBoard = (0, drawBoard).
Proof.
  apply (full_board_falls_back_to_zero drawBoard); reflexivity.
Defined.

(** *** Pruning and the fork bonus *)

(** C8, at the board where the code leaves the claim. On [forkBoard],
    with O to move, the search without pruning returns 9999: O wins at
    once on cell 0. The alpha-beta search returns 14997. Its third move,
    cell 1, makes two threats and earns the bonus of 5000, but X answers
    on cell 2 and wins; the child, called with [alpha = 9999], is cut off
    after the first reply of X and returns 9997, a bound and not its
    value [-9998], and the bonus lifts that bound above the true
    maximum. *)
Theorem fork_bonus_breaks_pruning :
  minimax 9 forkBoard 0 true NegInf PosInf = Some (Fin 14997, forkBoard)
  /\ minimax_unpruned 9 forkBoard 0 true = Some (Fin 9999)
  /\ minimax 9 (setCell forkBoard 1 (Some O)) 1 false (Fin 9999) PosInf
     = Some (Fin 9997, setCell forkBoard 1 (Some O))
  /\ minimax_unpruned 9 (setCell forkBoard 1 (Some O)) 1 false
     = Some (Fin (-9998)).
Proof. vm_compute. repeat split; reflexivity. Qed.

(** *** A position of the game *)

(** With X on cells 0 and 1 and O on cell 3, the engine blocks the top
    row on cell 2. *)
Example blocks_top_row :
  fst (getBestMove [Some X; Some X; None; Some O; None; None; None; None; None])
  = 2.
Proof. vm_compute. reflexivity. Qed.

(** *** What the cells hold after a write *)

Lemma mark_read board i v :
  0 <= i < Z.of_nat (length board) -> cell (setCell board i v) i = v.
Proof.
  intros Hi. unfold cell, setCell.
  destruct (i <? 0) eqn:E; [lia|].
  rewrite list_lookup_insert_eq by lia. done.
Qed.

Lemma mark_other board i v j : i <> j -> cell (setCell board i v) j = cell board j.
Proof.
  intros Hne. unfold cell, setCell.
  destruct (j <? 0) eqn:Ej; [done|]. destruct (i <? 0) eqn:Ei; [done|].
  rewrite list_lookup_insert_ne by lia. done.
Qed.

Lemma mark_Some board i v j p :
  cell (setCell board i v) j = Some p ->
  (j = i /\ v = Some p) \/ cell board j = Some p.
Proof.
  intros H. destruct (decide (i = j)) as [->|Hne].
  - unfold cell, setCell in *. destruct (j <? 0) eqn:Ej; [done|].
    destruct (decide (Z.to_nat j < length board)%nat) as [Hlt|Hge].
    + rewrite list_lookup_insert_eq in H by done. left. done.
    + rewrite list_insert_ge in H by lia. right. done.
  - right. by rewrite mark_other in H.
Qed.

Lemma cell_Some_inside board i p :
  cell board i = Some p -> 0 <= i < Z.of_nat (length board).
Proof.
  unfold cell. destruct (i <? 0) eqn:E; [done|].
  destruct (board !! Z.to_nat i) eqn:El; [|done].
  apply lookup_lt_Some in El. lia.
Qed.

(** *** Lines and the winner *)

Lemma hasLine_winner board p : hasLine board p -> checkWinner board <> None.
Proof.
  intros (a & b & c & Hin & Ha & Hb & Hc) Hnone.
  pose proof (firstOwner_None _ _ Hnone a b c Hin) as H.
  assert (lineOwner board (a, b, c) = Some p) as Hp by by apply lineOwner_Some.
  congruence.
Qed.

Lemma hasLine_after board i q p :
  hasLine (setCell board i (Some q)) p -> p <> q -> hasLine board p.
Proof.
  intros (a & b & c & Hin & Ha & Hb & Hc) Hne.
  exists a, b, c. split; [done|].
  apply mark_Some in Ha as [[_ [= E]]|Ha]; [by symmetry in E|].
  apply mark_Some in Hb as [[_ [= E]]|Hb]; [by symmetry in E|].
  apply mark_Some in Hc as [[_ [= E]]|Hc]; [by symmetry in E|].
  done.
Qed.

(** A mark of one player cannot complete a line of the other. *)
Lemma winner_after_mark board i q p :
  checkWinner board = None ->
  checkWinner (setCell board i (Some q)) = Some p -> p = q.
Proof.
  intros Hnone Hp. destruct (decide (p = q)) as [|Hne]; [done|].
  apply checkWinner_hasLine in Hp.
  by apply (hasLine_after _ _ _ _ Hp), hasLine_winner in Hne.
Qed.

(** X1. [checkWinner] names a player only if that player holds the
    three cells of a winning combination, names someone whenever a
    player does, and names the one player who does. *)
Theorem checkWinner_reports_lines (board : Board) (p : Player) :
  (checkWinner board = Some p -> hasLine board p)
  /\ (checkWinner board = None <-> forall q, ~ hasLine board q)
  /\ (hasLine board p -> (forall q, q <> p -> ~ hasLine board q) ->
      checkWinner board = Some p).
Proof.
  split; [apply checkWinner_hasLine|]. split.
  - split.
    + intros Hnone q Hq. by apply hasLine_winner in Hq.
    + intros Hno. destruct (checkWinner board) as [q|] eqn:E; [|done].
      apply checkWinner_hasLine in E. by apply Hno in E.
  - apply hasLine_checkWinner.
Qed.

(** *** The first two steps of the cascade *)

Lemma findWin_Some indices board i :
  fst (findWin indices board) = Some i ->
  i ∈ indices /\ isNull board i = true
  /\ checkWinner (setCell board i (Some O)) = Some O.
Proof.
  induction indices as [|j rest IH]; cbn [findWin]; [done|].
  destruct (isNull board j) eqn:E.
  - case_bool_decide as Hw.
    + cbn [fst]. intros [= <-]. split; [left|done].
    + rewrite (restore _ _ _ E). intros H. apply IH in H as (? & ? & ?).
      split; [by right|done].
  - intros H. apply IH in H as (? & ? & ?). split; [by right|done].
Qed.

Lemma findWin_None indices board i :
  fst (findWin indices board) = None ->
  i ∈ indices -> isNull board i = true ->
  checkWinner (setCell board i (Some O)) <> Some O.
Proof.
  induction indices as [|j rest IH]; cbn [findWin]; intros Hnone Hin Hnull.
  - by apply elem_of_nil in Hin.
  - apply elem_of_cons in Hin as [->|Hin].
    + rewrite Hnull in Hnone. case_bool_decide as Hw; [done|exact Hw].
    + destruct (isNull board j) eqn:E; [|by apply IH].
      case_bool_decide as Hw; [done|].
      rewrite (restore _ _ _ E) in Hnone. by apply IH.
Qed.

Lemma filter_first (P : Z -> Prop) `{!forall x, Decision (P x)} l x rest :
  filter P l = x :: rest -> StronglySorted Z.lt l ->
  forall k, k ∈ l -> k < x -> ~ P k.
Proof.
  induction l as [|a l IH]; intros Hf Hs k Hk Hlt; [by apply elem_of_nil in Hk|].
  apply StronglySorted_inv in Hs as [Hs Ha].
  rewrite filter_cons in Hf. destruct (decide (P a)) as [Hp|Hp].
  - injection Hf as -> _. apply elem_of_cons in Hk as [->|Hk]; [lia|].
    rewrite Forall_forall in Ha. apply Ha in Hk. lia.
  - apply elem_of_cons in Hk as [->|Hk]; [done|]. by apply IH.
Qed.

Lemma cells_ascending : StronglySorted Z.lt cells.
Proof. unfold cells. repeat constructor; lia. Qed.

Lemma findBlocks_list indices board acc :
  fst (findBlocks indices board acc)
  = acc ++ filter (fun i => xWinsAt board i = true) indices.
Proof.
  revert acc. induction indices as [|j rest IH]; intros acc; cbn [findBlocks].
  - by rewrite filter_nil, app_nil_r.
  - unfold xWinsAt at 1. destruct (isNull board j) eqn:E.
    + rewrite (restore _ _ _ E), IH. case_bool_decide as Hw.
      * rewrite filter_cons_True by (unfold xWinsAt; rewrite E; by case_bool_decide).
        by rewrite <- app_assoc.
      * rewrite filter_cons_False; [done|].
        unfold xWinsAt. rewrite E. by case_bool_decide.
    + rewrite IH, filter_cons_False; [done|].
      unfold xWinsAt. by rewrite E.
Qed.

(** X2. When some free cell completes a line of O, [getBestMove]
    returns such a cell: the engine takes a win that is on the board. *)
Theorem best_move_takes_the_win (board : Board) :
  length board = 9%nat ->
  (exists i, 0 <= i < 9 /\ cell board i = None
             /\ checkWinner (setCell board i (Some O)) = Some O) ->
  let move := fst (getBestMove board) in
  0 <= move < 9 /\ cell board move = None
  /\ checkWinner (setCell board move (Some O)) = Some O.
Proof.
  intros _ (i & Hi & Hnull & Hwin) move. subst move.
  unfold getBestMove.
  destruct (findWin cells board) as [[j|] after] eqn:E.
  - cbn [fst]. pose proof (findWin_Some cells board j) as H.
    rewrite E in H. destruct (H eq_refl) as (Hin & Hn & Hw).
    apply cells_elem in Hin. unfold isNull in Hn.
    apply bool_decide_eq_true in Hn. done.
  - exfalso. pose proof (findWin_None cells board i) as H.
    rewrite E in H. apply H; [done|by apply cells_elem| |done].
    unfold isNull. by apply bool_decide_eq_true.
Qed.

Lemma best_move_takes_the_win_witness :
  let board := [Some O; Some O; None; Some X; Some X; None; None; None; None] in
  let move := fst (getBestMove board) in
  0 <= move < 9 /\ cell board move = None
  /\ checkWinner (setCell board move (Some O)) = Some O.
Proof.
  apply best_move_takes_the_win; [reflexivity|].
  exists 2. repeat split; (lia || reflexivity).
Defined.

(** X3. When no free cell wins for O and X would win on some free
    cell, [getBestMove] returns the lowest free cell on which X would
    win: the engine blocks. *)
Theorem best_move_blocks_the_threat (board : Board) :
  length board = 9%nat ->
  (forall i, 0 <= i < 9 -> cell board i = None ->
             checkWinner (setCell board i (Some O)) <> Some O) ->
  (exists i, 0 <= i < 9 /\ xWinsAt board i = true) ->
  let move := fst (getBestMove board) in
  0 <= move < 9 /\ cell board move = None
  /\ checkWinner (setCell board move (Some X)) = Some X
  /\ forall i, 0 <= i < move -> xWinsAt board i = false.
Proof.
  intros _ Hnowin (i & Hi & Hthreat) move. subst move.
  unfold getBestMove.
  destruct (findWin cells board) as [[j|] after] eqn:E.
  { exfalso. pose proof (findWin_Some cells board j) as H.
    rewrite E in H. destruct (H eq_refl) as (Hin & Hn & Hw).
    apply cells_elem in Hin. unfold isNull in Hn.
    apply bool_decide_eq_true in Hn. by apply (Hnowin j). }
  pose proof (findWin_board cells board) as Hb. rewrite E in Hb.
  cbn [snd] in Hb. subst after.
  pose proof (findBlocks_list cells board []) as Hl.
  pose proof (findBlocks_board cells board []) as Hb.
  destruct (findBlocks cells board []) as [blockingMoves after].
  cbn [fst snd] in Hl, Hb. subst after. rewrite app_nil_l in Hl.
  destruct blockingMoves as [|block rest].
  { exfalso. assert (i ∈ filter (fun i => xWinsAt board i = true) cells) as Hin.
    { apply list_elem_of_filter. split; [done|by apply cells_elem]. }
    rewrite <- Hl in Hin. by apply elem_of_nil in Hin. }
  cbn [fst].
  assert (block ∈ filter (fun i => xWinsAt board i = true) cells) as Hin
    by (rewrite <- Hl; left).
  apply list_elem_of_filter in Hin as [Hx Hin]. apply cells_elem in Hin.
  pose proof Hx as Hx'. unfold xWinsAt in Hx'.
  apply andb_true_iff in Hx' as [Hn Hw].
  apply bool_decide_eq_true in Hw. unfold isNull in Hn.
  apply bool_decide_eq_true in Hn.
  repeat split; try done; try lia.
  intros k Hk. destruct (xWinsAt board k) eqn:Ek; [exfalso|done].
  symmetry in Hl. apply (filter_first _ _ _ _ Hl cells_ascending k); [apply cells_elem| |]; [lia..|done].
Qed.

Lemma best_move_blocks_the_threat_witness :
  let board := [Some X; Some X; None; Some O; None; None; None; None; None] in
  let move := fst (getBestMove board) in
  0 <= move < 9 /\ cell board move = None
  /\ checkWinner (setCell board move (Some X)) = Some X
  /\ forall i, 0 <= i < move -> xWinsAt board i = false.
Proof.
  apply best_move_blocks_the_threat; [reflexivity| |].
  - intros i Hi _.
    assert (i = 0 \/ i = 1 \/ i = 2 \/ i = 3 \/ i = 4 \/ i = 5 \/ i = 6
            \/ i = 7 \/ i = 8) as H by lia.
    repeat (destruct H as [->|H]; [by vm_compute|]). subst i. by vm_compute.
  - exists 2. split; [lia|reflexivity].
Defined.

(** *** The third step of the cascade *)

Lemma findFork_found indices board move score :
  (move = -1 \/ (0 <= move < 9 /\ isNull board move = true
                 /\ 2 <= winningLines (setCell board move (Some O)))) ->
  (forall i, i ∈ indices -> 0 <= i < 9) ->
  let found := fst (fst (findFork indices board move score)) in
  (found = -1 \/ (0 <= found < 9 /\ isNull board found = true
                  /\ 2 <= winningLines (setCell board found (Some O))))
  /\ (found = -1 ->
      move = -1
      /\ forall i, i ∈ indices -> isNull board i = true ->
                   2 <= winningLines (setCell board i (Some O)) ->
                   winningLines (setCell board i (Some O)) * 1000
                   + forkQuality (setCell board i (Some O)) * 500 <= score).
Proof.
  revert move score. induction indices as [|j rest IH];
    intros move score Hmove Hin; cbn [findFork].
  - cbn [fst]. split; [done|]. intros ->. split; [done|].
    intros i Hi. by apply elem_of_nil in Hi.
  - assert (0 <= j < 9) as Hj by (apply Hin; left).
    assert (forall i, i ∈ rest -> 0 <= i < 9) as Hrest
      by (intros i Hi; apply Hin; by right).
    destruct (isNull board j) eqn:E.
    + cbv zeta. rewrite (restore _ _ _ E).
      set (lines := winningLines (setCell board j (Some O))).
      set (forkScore := lines * 1000
                        + forkQuality (setCell board j (Some O)) * 500).
      destruct ((2 <=? lines) && (score <? forkScore)) eqn:Ebetter.
      * apply andb_true_iff in Ebetter as [Hlines Hscore].
        destruct (IH j forkScore) as [Hfound Hnone]; [right|done|].
        { split; [done|]. split; [done|]. fold lines. lia. }
        split; [done|]. intros Hminus. destruct (Hnone Hminus) as [-> _]. lia.
      * destruct (IH move score Hmove Hrest) as [Hfound Hnone].
        split; [done|]. intros Hminus. destruct (Hnone Hminus) as [-> Hall].
        split; [done|]. intros i Hi Hnull Hfork.
        apply elem_of_cons in Hi as [->|Hi]; [|by apply Hall].
        fold lines in Hfork |- *. fold forkScore.
        apply andb_false_iff in Ebetter as [Hl|Hs]; lia.
    + destruct (IH move score Hmove Hrest) as [Hfound Hnone].
      split; [done|]. intros Hminus. destruct (Hnone Hminus) as [-> Hall].
      split; [done|]. intros i Hi Hnull Hfork.
      apply elem_of_cons in Hi as [->|Hi]; [congruence|by apply Hall].
Qed.

Lemma forkQuality_nonneg board : 0 <= forkQuality board.
Proof.
  unfold forkQuality.
  induction (filter _ WINNING_COMBINATIONS) as [|[[a b] c] l IH]; [done|].
  cbn [map foldr]. unfold lineQuality at 1.
  destruct (existsb _ _); lia.
Qed.

(** X4. When neither player can complete a line at once and some free
    cell would give O two lines with two O and a free third cell,
    [getBestMove] returns a cell that does: the engine makes the
    fork. *)
Theorem best_move_makes_the_fork (board : Board) :
  length board = 9%nat ->
  (forall i, 0 <= i < 9 -> cell board i = None ->
             checkWinner (setCell board i (Some O)) <> Some O) ->
  (forall i, 0 <= i < 9 -> xWinsAt board i = false) ->
  (exists i, 0 <= i < 9 /\ cell board i = None
             /\ 2 <= winningLines (setCell board i (Some O))) ->
  let move := fst (getBestMove board) in
  0 <= move < 9 /\ cell board move = None
  /\ 2 <= winningLines (setCell board move (Some O)).
Proof.
  intros _ Hnowin Hnothreat (i & Hi & Hnull & Hfork) move. subst move.
  unfold getBestMove.
  destruct (findWin cells board) as [[j|] after] eqn:E.
  { exfalso. pose proof (findWin_Some cells board j) as H.
    rewrite E in H. destruct (H eq_refl) as (Hin & Hn & Hw).
    apply cells_elem in Hin. unfold isNull in Hn.
    apply bool_decide_eq_true in Hn. by apply (Hnowin j). }
  pose proof (findWin_board cells board) as Hb. rewrite E in Hb.
  cbn [snd] in Hb. subst after.
  pose proof (findBlocks_list cells board []) as Hl.
  pose proof (findBlocks_board cells board []) as Hb.
  destruct (findBlocks cells board []) as [blockingMoves after].
  cbn [fst snd] in Hl, Hb. subst after. rewrite app_nil_l in Hl.
  destruct blockingMoves as [|block rest].
  2:{ exfalso.
      assert (block ∈ filter (fun i => xWinsAt board i = true) cells) as Hin
        by (rewrite <- Hl; left).
      apply list_elem_of_filter in Hin as [Hx Hin]. apply cells_elem in Hin.
      rewrite (Hnothreat block Hin) in Hx. done. }
  pose proof (findFork_found cells board (-1) 0 (or_introl eq_refl)
                (fun i Hi => proj1 (cells_elem i) Hi)) as [Hfound Hnone].
  pose proof (findFork_board cells board (-1) 0) as Hb.
  destruct (findFork cells board (-1) 0) as [[bestForkMove bestForkScore] after].
  cbn [fst snd] in Hfound, Hnone, Hb. subst after.
  destruct (bestForkMove =? -1) eqn:Eminus.
  - exfalso. apply Z.eqb_eq in Eminus. destruct (Hnone Eminus) as [_ Hall].
    assert (isNull board i = true) as Hn
      by (unfold isNull; by apply bool_decide_eq_true).
    specialize (Hall i (proj2 (cells_elem i) Hi) Hn Hfork).
    pose proof (forkQuality_nonneg (setCell board i (Some O))). lia.
  - cbn [negb fst]. apply Z.eqb_neq in Eminus.
    destruct Hfound as [|(Hr & Hn & Hf)]; [done|].
    unfold isNull in Hn. apply bool_decide_eq_true in Hn. done.
Qed.

Lemma best_move_makes_the_fork_witness :
  let board := [None; None; None; Some X; None; None; Some O; Some X; Some O]
  in
  let move := fst (getBestMove board) in
  0 <= move < 9 /\ cell board move = None
  /\ 2 <= winningLines (setCell board move (Some O)).
Proof.
  apply best_move_makes_the_fork; [reflexivity| | |].
  - intros i Hi Hnull.
    assert (i = 0 \/ i = 1 \/ i = 2 \/ i = 3 \/ i = 4 \/ i = 5 \/ i = 6
            \/ i = 7 \/ i = 8) as H by lia.
    repeat (destruct H as [->|H];
            [first [by vm_compute|by vm_compute in Hnull]|]).
    subst i. by vm_compute in Hnull.
  - intros i Hi.
    assert (i = 0 \/ i = 1 \/ i = 2 \/ i = 3 \/ i = 4 \/ i = 5 \/ i = 6
            \/ i = 7 \/ i = 8) as H by lia.
    repeat (destruct H as [->|H]; [by vm_compute|]). subst i. by vm_compute.
  - exists 2. split; [lia|]. split; [reflexivity|]. by vm_compute.
Defined.

(** *** The fourth step of the cascade, against opposite corners *)

(** The first three steps have no answer: neither player can complete
    a line and no cell gives O two threatened lines. *)
Lemma getBestMove_after_three_steps board :
  (forall i, 0 <= i < 9 -> cell board i = None ->
             checkWinner (setCell board i (Some O)) <> Some O) ->
  (forall i, 0 <= i < 9 -> xWinsAt board i = false) ->
  (forall i, 0 <= i < 9 -> cell board i = None ->
             winningLines (setCell board i (Some O)) < 2) ->
  forall sideMove, oppositeCornerSide board = Some sideMove ->
                   fst (getBestMove board) = sideMove.
Proof.
  intros Hnowin Hnothreat Hnofork sideMove Hside. unfold getBestMove.
  destruct (findWin cells board) as [[j|] after] eqn:E.
  { exfalso. pose proof (findWin_Some cells board j) as H.
    rewrite E in H. destruct (H eq_refl) as (Hin & Hn & Hw).
    apply cells_elem in Hin. unfold isNull in Hn.
    apply bool_decide_eq_true in Hn. by apply (Hnowin j). }
  pose proof (findWin_board cells board) as Hb. rewrite E in Hb.
  cbn [snd] in Hb. subst after.
  pose proof (findBlocks_list cells board []) as Hl.
  pose proof (findBlocks_board cells board []) as Hb.
  destruct (findBlocks cells board []) as [blockingMoves after].
  cbn [fst snd] in Hl, Hb. subst after. rewrite app_nil_l in Hl.
  destruct blockingMoves as [|block rest].
  2:{ exfalso.
      assert (block ∈ filter (fun i => xWinsAt board i = true) cells) as Hin
        by (rewrite <- Hl; left).
      apply list_elem_of_filter in Hin as [Hx Hin]. apply cells_elem in Hin.
      rewrite (Hnothreat block Hin) in Hx. done. }
  pose proof (findFork_found cells board (-1) 0 (or_introl eq_refl)
                (fun i Hi => proj1 (cells_elem i) Hi)) as [Hfound _].
  pose proof (findFork_board cells board (-1) 0) as Hb.
  destruct (findFork cells board (-1) 0) as [[bestForkMove bestForkScore] after].
  cbn [fst snd] in Hfound, Hb. subst after.
  destruct Hfound as [->|(Hr & Hn & Hf)].
  - cbn [Z.eqb negb]. by rewrite Hside.
  - exfalso. unfold isNull in Hn. apply bool_decide_eq_true in Hn.
    pose proof (Hnofork _ Hr Hn). lia.
Qed.

(** X23. When the first three steps have no answer, X holds exactly two
    corners and they are opposite, and a side cell is free, [getBestMove]
    returns the lowest free side cell, not a corner. *)
Theorem opposite_corners_are_answered_on_a_side (board : Board) :
  length board = 9%nat ->
  (forall i, 0 <= i < 9 -> cell board i = None ->
             checkWinner (setCell board i (Some O)) <> Some O) ->
  (forall i, 0 <= i < 9 -> xWinsAt board i = false) ->
  (forall i, 0 <= i < 9 -> cell board i = None ->
             winningLines (setCell board i (Some O)) < 2) ->
  playerCorners board = [0; 8] \/ playerCorners board = [2; 6] ->
  (exists pos, pos ∈ [1; 3; 5; 7] /\ cell board pos = None) ->
  let move := fst (getBestMove board) in
  move ∈ [1; 3; 5; 7] /\ cell board move = None
  /\ forall pos, pos ∈ [1; 3; 5; 7] -> pos < move -> cell board pos <> None.
Proof.
  intros _ Hnowin Hnothreat Hnofork Hcorners (pos & Hpos & Hfree) move.
  subst move.
  destruct (filter (fun pos => isNull board pos = true) [1; 3; 5; 7])
    as [|sideMove rest] eqn:Esides.
  { exfalso.
    assert (pos ∈ filter (fun pos => isNull board pos = true) [1; 3; 5; 7]) as H.
    { apply list_elem_of_filter. split; [|done].
      unfold isNull. by apply bool_decide_eq_true. }
    rewrite Esides in H. by apply elem_of_nil in H. }
  assert (oppositeCornerSide board = Some sideMove) as Hside.
  { unfold oppositeCornerSide.
    destruct Hcorners as [-> | ->];
      change (head (filter (fun pos => isNull board pos = true) [1; 3; 5; 7])
              = Some sideMove);
      by rewrite Esides. }
  rewrite (getBestMove_after_three_steps _ Hnowin Hnothreat Hnofork _ Hside).
  assert (sideMove ∈ filter (fun pos => isNull board pos = true) [1; 3; 5; 7])
    as Hin by (rewrite Esides; left).
  apply list_elem_of_filter in Hin as [Hnull Hin].
  unfold isNull in Hnull. apply bool_decide_eq_true in Hnull.
  split; [done|]. split; [done|].
  intros p Hp Hlt Hnone.
  assert (StronglySorted Z.lt [1; 3; 5; 7]) as Hsorted
    by (repeat constructor; lia).
  apply (filter_first _ _ _ _ Esides Hsorted p Hp Hlt).
  unfold isNull. by apply bool_decide_eq_true.
Qed.

Lemma opposite_corners_are_answered_on_a_side_witness :
  let board := [Some X; None; None; None; Some O; None; None; None; Some X] in
  let move := fst (getBestMove board) in
  move ∈ [1; 3; 5; 7] /\ cell board move = None
  /\ forall pos, pos ∈ [1; 3; 5; 7] -> pos < move -> cell board pos <> None.
Proof.
  apply opposite_corners_are_answered_on_a_side; [reflexivity| | | | |].
  - intros i Hi Hnull.
    assert (i = 0 \/ i = 1 \/ i = 2 \/ i = 3 \/ i = 4 \/ i = 5 \/ i = 6
            \/ i = 7 \/ i = 8) as H by lia.
    repeat (destruct H as [->|H];
            [first [by vm_compute|by vm_compute in Hnull]|]).
    subst i. by vm_compute in Hnull.
  - intros i Hi.
    assert (i = 0 \/ i = 1 \/ i = 2 \/ i = 3 \/ i = 4 \/ i = 5 \/ i = 6
            \/ i = 7 \/ i = 8) as H by lia.
    repeat (destruct H as [->|H]; [by vm_compute|]). subst i. by vm_compute.
  - intros i Hi Hnull.
    assert (i = 0 \/ i = 1 \/ i = 2 \/ i = 3 \/ i = 4 \/ i = 5 \/ i = 6
            \/ i = 7 \/ i = 8) as H by lia.
    repeat (destruct H as [->|H];
            [first [by vm_compute|by vm_compute in Hnull]|]).
    subst i. by vm_compute in Hnull.
  - left. reflexivity.
  - exists 1. split; [|reflexivity]. left.
Defined.

(** *** Games against the engine *)

Lemma isBoardFull_cells board :
  isBoardFull board = true <-> forall n c, board !! n = Some c -> c <> None.
Proof.
  unfold isBoardFull. rewrite forallb_forall. split.
  - intros H n c Hn. apply list_elem_of_lookup_2, list_elem_of_In, H in Hn.
    by apply negb_true_iff, bool_decide_eq_false in Hn.
  - intros H c Hc. apply list_elem_of_In, list_elem_of_lookup in Hc as [n Hn].
    apply negb_true_iff, bool_decide_eq_false. by apply (H n).
Qed.

Lemma availableMoves_elem board i :
  i ∈ availableMoves board <-> 0 <= i < 9 /\ cell board i = None.
Proof.
  unfold availableMoves. rewrite list_elem_of_filter, cells_elem.
  unfold isNull. rewrite bool_decide_eq_true. tauto.
Qed.

Lemma availableMoves_full board :
  length board = 9%nat ->
  availableMoves board = [] <-> isBoardFull board = true.
Proof.
  intros Hlen. rewrite isBoardFull_cells. split.
  - intros Hnil n c Hn ->.
    assert (Z.of_nat n ∈ availableMoves board) as Hin.
    { apply availableMoves_elem. apply lookup_lt_Some in Hn as Hlt.
      split; [lia|]. unfold cell. destruct (Z.of_nat n <? 0) eqn:E; [lia|].
      by rewrite Nat2Z.id, Hn. }
    rewrite Hnil in Hin. by apply elem_of_nil in Hin.
  - intros Hfull. destruct (availableMoves board) as [|i rest] eqn:E; [done|].
    assert (i ∈ availableMoves board) as Hin by (rewrite E; left).
    apply availableMoves_elem in Hin as [Hi Hnone]. exfalso.
    unfold cell in Hnone. destruct (i <? 0) eqn:Ei; [lia|].
    destruct (board !! Z.to_nat i) as [c|] eqn:El.
    + simpl in Hnone. subst c. by apply (Hfull _ _ El).
    + apply lookup_ge_None in El. lia.
Qed.

Lemma playerCannotWin_step n board index :
  playerCannotWin n board = true -> 0 <= index < 9 ->
  cell board index = None ->
  let newBoard := setCell board index (Some X) in
  checkWinner newBoard = None
  /\ (isBoardFull newBoard = false -> replySafe newBoard).
Proof.
  intros Hsafe Hi Hnull newBoard. destruct n as [|n]; [done|].
  cbn [playerCannotWin] in Hsafe. rewrite forallb_forall in Hsafe.
  specialize (Hsafe index). unfold isNull in Hsafe.
  rewrite bool_decide_eq_true_2 in Hsafe by done.
  assert (In index cells) as Hin by (apply list_elem_of_In, cells_elem; lia).
  apply Hsafe in Hin. fold newBoard in Hin.
  destruct (checkWinner newBoard) eqn:Ew; [done|]. split; [done|].
  intros Hfull. rewrite Hfull in Hin. unfold replySafe.
  intros Hw Hf. rewrite Hw, Hf in Hin. by exists n.
Qed.

Lemma opening_checked :
  playerCannotWin 5 emptyBoard = true
  /\ playerCannotWin 4 (setCell emptyBoard (fst (getBestMove emptyBoard)) (Some O))
     = true.
Proof. vm_compute. done. Qed.

Ltac game_fields :=
  cbn [gBoard gIsPlayerTurn gGameStatus gPlayerScore gAiScore gDraws
       gIsThinking gTimer] in *.

Ltac same_counters :=
  repeat match goal with
         | H : context [bool_decide (@eq Status ?a ?b)] |- _ =>
             first [rewrite (bool_decide_eq_true_2 (a = b)) in H by reflexivity
                   |rewrite (bool_decide_eq_false_2 (a = b)) in H by discriminate]
         | |- context [bool_decide (@eq Status ?a ?b)] =>
             first [rewrite (bool_decide_eq_true_2 (a = b)) by reflexivity
                   |rewrite (bool_decide_eq_false_2 (a = b)) by discriminate]
         end.

Lemma resetGame_sound g aiStartsFirst :
  sound (gPlayerScore g) (gAiScore g) (gDraws g) (resetGame g aiStartsFirst).
Proof.
  unfold sound, resetGame. game_fields. same_counters.
  repeat split; try done.
  destruct aiStartsFirst; [done|].
  split; [done|]. exists 5%nat. destruct opening_checked as [Hopen _]. exact Hopen.
Qed.

Lemma makeMove_sound p a d g index :
  0 <= index < 9 -> sound p a d g -> sound p a d (makeMove g index).
Proof.
  intros Hi Hg. unfold makeMove.
  destruct (negb (isNull (gBoard g) index)
            || negb (bool_decide (gGameStatus g = playing))
            || negb (gIsPlayerTurn g)) eqn:Eguard; [done|].
  apply orb_false_iff in Eguard as [Eguard Hturn].
  apply orb_false_iff in Eguard as [Hnull Hplaying].
  apply negb_false_iff in Hnull, Hplaying, Hturn.
  apply bool_decide_eq_true in Hplaying. unfold isNull in Hnull.
  apply bool_decide_eq_true in Hnull.
  destruct Hg as (Hlen & Hp & Ha & Hd & Hst). rewrite Hplaying in *.
  destruct Hst as (Hw & Hf & Htimer).
  destruct (gTimer g) as [|newBoard|] eqn:Et;
    [|destruct Htimer as [Ht _]; congruence
     |destruct Htimer as [Ht _]; congruence].
  destruct Htimer as (_ & n & Hsafe).
  destruct (playerCannotWin_step n _ index Hsafe Hi Hnull) as [Hnone Hreply].
  rewrite Hnone.
  destruct (isBoardFull (setCell (gBoard g) index (Some X))) eqn:Efull.
  - unfold sound. game_fields. same_counters.
    rewrite setCell_keeps_length. repeat split; try done. lia.
  - unfold sound. game_fields. same_counters.
    rewrite setCell_keeps_length. repeat split; try done. by apply Hreply.
Qed.

Lemma getBestMove_fst_snd board :
  getBestMove board = (fst (getBestMove board), board).
Proof.
  pose proof (getBestMove_board board) as H.
  destruct (getBestMove board) as [m b]. cbn in *. by subst.
Qed.

Lemma fire_sound p a d g : sound p a d g -> sound p a d (fire g).
Proof.
  intros Hg. unfold fire.
  destruct (gTimer g) as [|newBoard|] eqn:Et; [done| |].
  - destruct Hg as (Hlen & Hp & Ha & Hd & Hst).
    destruct (gGameStatus g) eqn:Es;
      try (destruct Hst as [Hst _]; congruence); try contradiction.
    rewrite Et in Hst. destruct Hst as (Hw & Hf & Hturn & -> & Hreply).
    unfold aiReply. rewrite getBestMove_fst_snd.
    unfold replySafe in Hreply. cbv zeta in Hreply.
    remember (setCell (gBoard g) (fst (getBestMove (gBoard g))) (Some O))
      as aiBoard eqn:EaiBoard.
    assert (length aiBoard = 9%nat) as Hlen'
      by (subst aiBoard; by rewrite setCell_keeps_length).
    assert (forall q, checkWinner aiBoard = Some q -> q = O) as Hq
      by (intros q; subst aiBoard; by apply winner_after_mark).
    clear EaiBoard.
    destruct (checkWinner aiBoard) as [q|] eqn:Ewin.
    + pose proof (Hq q eq_refl) as ->.
      unfold sound. game_fields. same_counters.
      repeat split; try assumption; try reflexivity. lia.
    + destruct (isBoardFull aiBoard) eqn:Efull.
      * unfold sound. game_fields. same_counters.
        repeat split; try assumption; try reflexivity. lia.
      * unfold sound. game_fields. rewrite Es. same_counters.
        repeat split; try assumption; try reflexivity. by apply Hreply.
  - destruct Hg as (Hlen & Hp & Ha & Hd & Hst).
    destruct (gGameStatus g) eqn:Es;
      try (destruct Hst as [Hst _]; congruence); try contradiction.
    rewrite Et in Hst. destruct Hst as (Hw & Hf & Hturn & Hboard).
    unfold aiOpening. rewrite getBestMove_fst_snd.
    unfold sound. game_fields. rewrite Es. same_counters.
    rewrite setCell_keeps_length.
    destruct opening_checked as [_ Hopen].
    assert (checkWinner (setCell emptyBoard (fst (getBestMove emptyBoard)) (Some O))
            = None
            /\ isBoardFull (setCell emptyBoard (fst (getBestMove emptyBoard)) (Some O))
               = false) as [Hw' Hf'] by (vm_compute; split; reflexivity).
    repeat split; try assumption; try reflexivity. by exists 4%nat.
Qed.

Lemma play_sound p a d g events :
  Forall onBoard events -> sound p a d g -> sound p a d (play g events).
Proof.
  unfold play. revert g. induction events as [|e events IH]; intros g Hev Hg; [done|].
  apply Forall_cons in Hev as [He Hev]. cbn [foldl]. apply IH; [done|].
  destruct e as [index|]; cbn [handle]; [by apply makeMove_sound|by apply fire_sound].
Qed.

(** X5. In a game started by [resetGame] with no timer of an earlier
    game in flight, whoever moves first and whatever cells the player
    clicks, the status never becomes [player-win] and the player's score
    stays what it was: the engine does not lose. *)
Theorem engine_never_loses (g : Game) (aiStartsFirst : bool)
    (events : list Event) :
  gTimer g = NoTimer -> Forall onBoard events ->
  let final := play (resetGame g aiStartsFirst) events in
  gGameStatus final <> playerWin /\ gPlayerScore final = gPlayerScore g.
Proof.
  intros _ Hev final.
  pose proof (play_sound _ _ _ _ events Hev (resetGame_sound g aiStartsFirst))
    as (_ & Hp & _ & _ & Hst).
  fold final in Hp, Hst. split; [|done].
  intros E. by rewrite E in Hst.
Qed.

Lemma engine_never_loses_witness :
  let g := mkGame emptyBoard true playing 0 0 0 false NoTimer in
  let final :=
    play (resetGame g false)
         [Click 0; Fire; Click 8; Fire; Click 7; Fire; Click 2; Fire; Click 3] in
  gGameStatus final <> playerWin /\ gPlayerScore final = 0.
Proof.
  apply (engine_never_loses (mkGame emptyBoard true playing 0 0 0 false NoTimer));
    [reflexivity|].
  repeat constructor; lia.
Defined.

(** X6. All through such a game the status tells what is on the board:
    while it is [playing] nobody has a line and a cell is free, [draw]
    goes with a full board without a line, and [ai-win] with a line of
    O. *)
Theorem status_matches_board (g : Game) (aiStartsFirst : bool)
    (events : list Event) :
  gTimer g = NoTimer -> Forall onBoard events ->
  let final := play (resetGame g aiStartsFirst) events in
  length (gBoard final) = 9%nat
  /\ match gGameStatus final with
     | playing =>
         checkWinner (gBoard final) = None /\ isBoardFull (gBoard final) = false
     | draw =>
         checkWinner (gBoard final) = None /\ isBoardFull (gBoard final) = true
     | aiWin => checkWinner (gBoard final) = Some O
     | playerWin => False
     end.
Proof.
  intros _ Hev final.
  pose proof (play_sound _ _ _ _ events Hev (resetGame_sound g aiStartsFirst))
    as (Hlen & _ & _ & _ & Hst).
  fold final in Hlen, Hst. split; [done|].
  destruct (gGameStatus final); tauto.
Qed.

Lemma status_matches_board_witness :
  let g := mkGame emptyBoard true playing 0 0 0 false NoTimer in
  let final := play (resetGame g true) [Fire; Click 0; Fire; Click 1; Fire] in
  length (gBoard final) = 9%nat
  /\ match gGameStatus final with
     | playing =>
         checkWinner (gBoard final) = None /\ isBoardFull (gBoard final) = false
     | draw =>
         checkWinner (gBoard final) = None /\ isBoardFull (gBoard final) = true
     | aiWin => checkWinner (gBoard final) = Some O
     | playerWin => False
     end.
Proof.
  apply (status_matches_board (mkGame emptyBoard true playing 0 0 0 false NoTimer));
    [reflexivity|].
  repeat constructor; lia.
Defined.

(** X7. A game adds one to exactly one counter, at the moment it is
    decided: the engine's score when the status is [ai-win], the draws
    when it is [draw], and nothing while the status is [playing]. Once
    the game is decided, clicks and timers change nothing. *)
Theorem decided_game_counts_once (g : Game) (aiStartsFirst : bool)
    (events : list Event) (e : Event) :
  gTimer g = NoTimer -> Forall onBoard events ->
  let final := play (resetGame g aiStartsFirst) events in
  gAiScore final
  = (if bool_decide (gGameStatus final = aiWin) then gAiScore g + 1 else gAiScore g)
  /\ gDraws final
     = (if bool_decide (gGameStatus final = draw) then gDraws g + 1 else gDraws g)
  /\ (gGameStatus final <> playing -> handle final e = final).
Proof.
  intros _ Hev final.
  pose proof (play_sound _ _ _ _ events Hev (resetGame_sound g aiStartsFirst))
    as (_ & _ & Ha & Hd & Hst).
  fold final in Ha, Hd, Hst. split; [done|]. split; [done|].
  intros Hover. destruct e as [index|]; cbn [handle].
  - unfold makeMove.
    rewrite (bool_decide_eq_false_2 (gGameStatus final = playing)) by done.
    by rewrite orb_true_r.
  - unfold fire. destruct (gGameStatus final); try done.
    + by destruct Hst as [-> _].
    + by destruct Hst as [-> _].
Qed.

Lemma decided_game_counts_once_witness :
  let g := mkGame emptyBoard true playing 3 5 7 false NoTimer in
  let final := play (resetGame g false) [Click 1; Fire; Click 3; Fire; Click 8; Fire] in
  gAiScore final = (if bool_decide (gGameStatus final = aiWin) then 5 + 1 else 5)
  /\ gDraws final = (if bool_decide (gGameStatus final = draw) then 7 + 1 else 7)
  /\ (gGameStatus final <> playing -> handle final (Click 2) = final).
Proof.
  apply (decided_game_counts_once
           (mkGame emptyBoard true playing 3 5 7 false NoTimer));
    [reflexivity|].
  repeat constructor; lia.
Defined.

(** *** The random player and the self test *)

Lemma makeRandomMove_some (random : Z -> Z) (board : Board) :
  length board = 9%nat -> inRange random -> isBoardFull board = false ->
  exists i, makeRandomMove random board = Some i
            /\ 0 <= i < 9 /\ cell board i = None.
Proof.
  intros Hlen Hrandom Hfull. unfold makeRandomMove. cbv zeta.
  assert (availableMoves board <> []) as Hne.
  { intros E. apply availableMoves_full in E; [congruence|done]. }
  rewrite bool_decide_eq_false_2 by done.
  assert (0 < Z.of_nat (length (availableMoves board))) as Hpos.
  { destruct (availableMoves board); [done|]. cbn [length]. lia. }
  destruct (Hrandom _ Hpos) as [H0 Hlt].
  destruct (random _ <? 0) eqn:E; [lia|].
  destruct (availableMoves board !! _) as [i|] eqn:El.
  - exists i. split; [done|].
    apply list_elem_of_lookup_2, availableMoves_elem in El. done.
  - apply lookup_ge_None in El. lia.
Qed.

(** X8. [makeRandomMove] returns -1 on a full board and only there; on
    any other nine-cell board it returns one of the nine cells, and that
    cell is free. *)
Theorem random_move_is_a_free_cell (random : Z -> Z) (board : Board) :
  length board = 9%nat -> inRange random ->
  (makeRandomMove random board = Some (-1) <-> isBoardFull board = true)
  /\ (isBoardFull board = false ->
      exists i, makeRandomMove random board = Some i
                /\ 0 <= i < 9 /\ cell board i = None).
Proof.
  intros Hlen Hrandom. split; [|by apply makeRandomMove_some].
  split.
  - intros Hminus. destruct (isBoardFull board) eqn:Efull; [done|].
    destruct (makeRandomMove_some _ _ Hlen Hrandom Efull) as (i & Hi & Hr & _).
    rewrite Hi in Hminus. injection Hminus as ->. lia.
  - intros Hfull. unfold makeRandomMove. cbv zeta.
    apply availableMoves_full in Hfull; [|done]. by rewrite Hfull.
Qed.

Lemma random_move_is_a_free_cell_witness :
  let board := [Some X; None; Some O; None; None; Some X; None; None; None] in
  (makeRandomMove (fun n => n - 1) board = Some (-1) <-> isBoardFull board = true)
  /\ (isBoardFull board = false ->
      exists i, makeRandomMove (fun n => n - 1) board = Some i
                /\ 0 <= i < 9 /\ cell board i = None).
Proof.
  apply random_move_is_a_free_cell; [reflexivity|].
  intros n Hn. lia.
Defined.

Lemma testGame_eq random remaining testBoard testIsPlayerTurn tally :
  testGame random remaining testBoard testIsPlayerTurn tally
  = match remaining with
    | 0%nat => (playing, testBoard, tally)
    | S remaining' =>
        let moveCount := 9 - Z.of_nat remaining in
        if testIsPlayerTurn then
          let playerMove := makeRandomMove (random moveCount) testBoard in
          if bool_decide (playerMove = Some (-1)) then (playing, testBoard, tally)
          else
            let testBoard :=
              match playerMove with
              | Some index => setCell testBoard index (Some X)
              | None => testBoard
              end in
            if bool_decide (checkWinner testBoard = Some X) then
              (playerWin, testBoard,
               mkTally (testPlayerWins tally + 1) (testAiWins tally) (testDraws tally))
            else if isBoardFull testBoard then
              (draw, testBoard,
               mkTally (testPlayerWins tally) (testAiWins tally) (testDraws tally + 1))
            else testGame random remaining' testBoard false tally
        else
          let '(aiMove, testBoard) := getBestMove testBoard in
          let testBoard := setCell testBoard aiMove (Some O) in
          if bool_decide (checkWinner testBoard = Some O) then
            (aiWin, testBoard,
             mkTally (testPlayerWins tally) (testAiWins tally + 1) (testDraws tally))
          else if isBoardFull testBoard then
            (draw, testBoard,
             mkTally (testPlayerWins tally) (testAiWins tally) (testDraws tally + 1))
          else testGame random remaining' testBoard true tally
    end.
Proof. by destruct remaining. Qed.

Lemma not_full_has_empty (board : Board) :
  isBoardFull board = false -> (0 < emptyCount board)%nat.
Proof.
  intros Hfull. destruct (emptyCount board) eqn:E; [|lia].
  apply emptyCount_zero_full in E. congruence.
Qed.

(** A test game from a position the player cannot win is decided before
    the turns run out, for the engine or as a draw, and is counted
    once. *)
Lemma testGame_decided random fuel :
  (forall moveCount, inRange (random moveCount)) ->
  forall remaining board tally,
    (remaining <= fuel)%nat ->
    (exists n, playerCannotWin n board = true) -> length board = 9%nat ->
    checkWinner board = None -> isBoardFull board = false ->
    (emptyCount board <= remaining)%nat ->
    exists status after,
      (status = aiWin \/ status = draw)
      /\ testGame random remaining board true tally
         = (status, after,
            mkTally (testPlayerWins tally)
                    (if bool_decide (status = aiWin)
                     then testAiWins tally + 1 else testAiWins tally)
                    (if bool_decide (status = draw)
                     then testDraws tally + 1 else testDraws tally)).
Proof.
  intros Hrandom. induction fuel as [|fuel IH];
    intros remaining board tally Hfuel [n Hsafe] Hlen Hwin Hfull Hrem;
    pose proof (not_full_has_empty _ Hfull) as Hpos; [lia|].
  destruct remaining as [|remaining]; [lia|].
  rewrite testGame_eq. cbv zeta.
  destruct (makeRandomMove_some _ board Hlen
              (Hrandom (9 - Z.of_nat (S remaining))) Hfull)
    as (index & -> & Hi & Hnull).
  rewrite bool_decide_eq_false_2 by (intros [= E]; lia).
  destruct (playerCannotWin_step _ _ index Hsafe Hi Hnull) as [Hnone Hreply].
  cbv zeta in Hnone, Hreply.
  remember (setCell board index (Some X)) as board1 eqn:Eboard1.
  assert (length board1 = 9%nat) as Hlen1
    by (subst board1; by rewrite setCell_keeps_length).
  assert (S (emptyCount board1) = emptyCount board) as Hcount1.
  { subst board1. apply emptyCount_setCell; [lia|].
    unfold isNull. by apply bool_decide_eq_true. }
  clear Eboard1.
  rewrite bool_decide_eq_false_2 by congruence.
  destruct (isBoardFull board1) eqn:Efull1.
  { exists draw, board1. split; [by right|]. done. }
  pose proof (not_full_has_empty _ Efull1) as Hpos1.
  destruct remaining as [|remaining]; [lia|].
  rewrite testGame_eq. cbv zeta.
  rewrite (getBestMove_fst_snd board1).
  specialize (Hreply eq_refl). unfold replySafe in Hreply. cbv zeta in Hreply.
  destruct (getBestMove_returns_empty_cell board1 Hlen1 Efull1) as [Hm Hmnull].
  remember (setCell board1 (fst (getBestMove board1)) (Some O)) as board2
    eqn:Eboard2.
  assert (length board2 = 9%nat) as Hlen2
    by (subst board2; by rewrite setCell_keeps_length).
  assert (S (emptyCount board2) = emptyCount board1) as Hcount2.
  { subst board2. apply emptyCount_setCell; [lia|].
    unfold isNull. by apply bool_decide_eq_true. }
  assert (forall q, checkWinner board2 = Some q -> q = O) as Hq
    by (intros q; subst board2; by apply winner_after_mark).
  clear Eboard2.
  destruct (checkWinner board2) as [q|] eqn:Ewin2.
  { rewrite (Hq q eq_refl). rewrite bool_decide_eq_true_2 by done.
    exists aiWin, board2. split; [by left|]. done. }
  rewrite bool_decide_eq_false_2 by done.
  destruct (isBoardFull board2) eqn:Efull2.
  { exists draw, board2. split; [by right|]. done. }
  apply IH; try done; [lia|by apply Hreply|lia].
Qed.

Lemma testGame_from_empty random tally :
  (forall moveCount, inRange (random moveCount)) ->
  exists status after,
    (status = aiWin \/ status = draw)
    /\ testGame random 9 emptyBoard true tally
       = (status, after,
          mkTally (testPlayerWins tally)
                  (if bool_decide (status = aiWin)
                   then testAiWins tally + 1 else testAiWins tally)
                  (if bool_decide (status = draw)
                   then testDraws tally + 1 else testDraws tally)).
Proof.
  intros Hrandom. destruct opening_checked as [Hopen _].
  apply (testGame_decided random 9);
    [done|lia|by exists 5%nat|reflexivity|reflexivity|reflexivity|].
  vm_compute. lia.
Qed.

(** The counters and the results after the games of a list. *)
Lemma test_games_counted (random : Z -> Z -> Z -> Z) games tally results :
  (forall gameNum moveCount, inRange (random gameNum moveCount)) ->
  testPlayerWins tally = 0 ->
  testAiWins tally + testDraws tally = Z.of_nat (length results) ->
  Forall (fun status => status = aiWin \/ status = draw) results ->
  let '(tally', results') :=
    foldl (fun '(tally, results) gameNum =>
             let '(testGameStatus, _, tally) :=
               testGame (random gameNum) 9 emptyBoard true tally in
             (tally, results ++ [testGameStatus]))
          (tally, results) games in
  testPlayerWins tally' = 0
  /\ testAiWins tally' + testDraws tally'
     = Z.of_nat (length results + length games)
  /\ length results' = (length results + length games)%nat
  /\ Forall (fun status => status = aiWin \/ status = draw) results'.
Proof.
  intros Hrandom. revert tally results.
  induction games as [|gameNum games IH]; intros tally results Hp Hsum Hres.
  - cbn [foldl length]. rewrite Nat.add_0_r. done.
  - cbn [foldl].
    destruct (testGame_from_empty (random gameNum) tally (Hrandom gameNum))
      as (status & after & Hstatus & ->).
    specialize (IH (mkTally (testPlayerWins tally)
                    (if bool_decide (status = aiWin)
                     then testAiWins tally + 1 else testAiWins tally)
                    (if bool_decide (status = draw)
                     then testDraws tally + 1 else testDraws tally))
                   (results ++ [status])).
    destruct (foldl _ _ games) as [tally' results'].
    rewrite length_app in IH. cbn [length] in *.
    replace (length results + S (length games))%nat
      with (length results + 1 + length games)%nat by lia.
    apply IH.
    + done.
    + cbn [testAiWins testDraws].
      destruct Hstatus as [-> | ->]; repeat case_bool_decide; try done; lia.
    + apply Forall_app. split; [done|]. by constructor.
Qed.

(** X9. Whatever the random player draws, the self test of ten games
    counts no win for the player: every game is won by the engine or
    drawn, and the two counters add up to ten. *)
Theorem self_test_finds_no_loss (random : Z -> Z -> Z -> Z) :
  (forall gameNum moveCount, inRange (random gameNum moveCount)) ->
  let '(tally, results) := runAutoTest random in
  testPlayerWins tally = 0
  /\ testAiWins tally + testDraws tally = 10
  /\ length results = 10%nat
  /\ Forall (fun status => status = aiWin \/ status = draw) results.
Proof.
  intros Hrandom. unfold runAutoTest.
  pose proof (test_games_counted random [1; 2; 3; 4; 5; 6; 7; 8; 9; 10]
                (mkTally 0 0 0) [] Hrandom eq_refl eq_refl (Forall_nil_2 _)) as H.
  destruct (foldl _ _ _) as [tally results].
  destruct H as (Hp & Hsum & Hlen & Hres). cbn [length] in Hsum, Hlen.
  repeat split; [done|lia|done|done].
Qed.

Lemma self_test_finds_no_loss_witness :
  let '(tally, results) := runAutoTest (fun _ _ _ => 0) in
  testPlayerWins tally = 0
  /\ testAiWins tally + testDraws tally = 10
  /\ length results = 10%nat
  /\ Forall (fun status => status = aiWin \/ status = draw) results.
Proof.
  apply (self_test_finds_no_loss (fun _ _ _ => 0)).
  intros gameNum moveCount n Hn. lia.
Defined.

End TicTacToeFacts.
